(** * Transmission-DH: the RPC session client and the removal rule engine

    A shallow embedding of [src/handler.ts] (class [Handler]) and of the
    RPC client it drives (class [TransmissionClient]), with the properties
    the specification states about them.

    JavaScript numbers are IEEE 754 binary64 values: they are modelled by
    Rocq's primitive floats, so [NaN], the two zeros and the infinities
    are all there.  Strings are [String.string], read as the UTF-8
    bytes of the text.  The daemon's answers are taken to have the types
    the client's interfaces declare, except that any property may be
    absent or [null].  What the platform provides and the code calls
    ([String.prototype.toLowerCase], the URL parser, the Base64 encoder,
    the conversion of a string to a number) is a parameter of the
    functions that call it.  Promises are run to completion in program
    order (the code awaits every call), so [async] functions become
    computations in a state-and-exception monad over a [World] that
    holds the client's session token, the daemon's scripted answers and
    the trace of what the program did. *)

From Stdlib Require Import Floats ZArith List String Ascii Bool Arith Lia.
From Stdlib Require Import DecimalString.
From Equations Require Import Equations.
Import ListNotations.
Local Open Scope string_scope.
Local Open Scope list_scope.

(* ================================================================== *)
(** * JavaScript values                                                 *)
(* ================================================================== *)

Module Js.

(** [number]: a binary64 float. *)
Definition number := float.

(** [a === b] on numbers: IEEE equality ([NaN] differs from itself,
    the two zeros are equal). *)
Definition strictEq (a b : number) : bool := PrimFloat.eqb a b.

(** [a < b] and [a >= b] on numbers; both are false when an operand is
    [NaN]. *)
Definition lt (a b : number) : bool := PrimFloat.ltb a b.
Definition ge (a b : number) : bool := PrimFloat.leb b a.

Definition isNaN (a : number) : bool := PrimFloat.is_nan a.

(** [ToBoolean] on a number: false on [+0], [-0] and [NaN]. *)
Definition truthyNum (a : number) : bool :=
  negb (PrimFloat.eqb a 0 || isNaN a).

(** [ToBoolean] on a string: false on the empty string only. *)
Definition truthyStr (s : string) : bool :=
  match s with EmptyString => false | String _ _ => true end.

(** A property of a JSON object that may be absent or [null], where the
    code only tests the value or defaults it with [||]: both are falsy
    there, so one [None] stands for the two. *)
Definition field (A : Type) := option A.

(** A value of which the code reads a property: it is [undefined] (the
    JSON property was absent), [null], or there.  Reading a property of
    the first two throws a [TypeError] whose message tells them apart. *)
Inductive nullable (A : Type) :=
| Undefined
| Null
| Defined (a : A).
Arguments Undefined {A}.
Arguments Null {A}.
Arguments Defined {A} a.

(** [v || d] where [v] is a number, possibly absent. *)
Definition orNum (v : field number) (d : number) : number :=
  match v with
  | Some a => if truthyNum a then a else d
  | None => d
  end.

(** [v || d] where [v] is a string, possibly absent. *)
Definition orStr (v : field string) (d : string) : string :=
  match v with
  | Some s => if truthyStr s then s else d
  | None => d
  end.

(** [v || d] where [v] is an array, possibly absent (every array is
    truthy, the empty one too). *)
Definition orArr {A : Type} (v : field (list A)) (d : list A) : list A :=
  match v with
  | Some l => l
  | None => d
  end.

(** [a || b ()] on [object | null]; [b] is only run when [a] is
    [null]. *)
Definition orElse {A : Type} (a : option A) (b : unit -> option A) : option A :=
  match a with
  | Some x => Some x
  | None => b tt
  end.

(** [s.includes(needle)]. *)
Fixpoint includes (s needle : string) : bool :=
  String.prefix needle s ||
  match s with
  | EmptyString => false
  | String _ r => includes r needle
  end.

(** [arr.includes(x)] on an array of strings. *)
Definition arrIncludes (arr : list string) (x : string) : bool :=
  existsb (String.eqb x) arr.

(** Template-literal conversion of a non-negative integer. *)
Definition showNat (n : nat) : string :=
  NilZero.string_of_uint (Nat.to_uint n).

End Js.

(** Node's [path.basename] (POSIX flavour): the scan runs from the last
    character to the first, skips trailing slashes and stops at the first
    slash that follows a non-slash character. *)
Fixpoint basename_scan (rev_path : list ascii) (matchedSlash : bool)
         (acc : list ascii) : list ascii :=
  match rev_path with
  | [] => acc
  | c :: r =>
      if Ascii.eqb c "/"%char then
        if matchedSlash then basename_scan r true acc else acc
      else basename_scan r false (c :: acc)
  end.

Definition basename (path : string) : string :=
  string_of_list_ascii
    (basename_scan (rev (list_ascii_of_string path)) true []).

(* ================================================================== *)
(** * Data model                                                        *)
(* ================================================================== *)

(** One entry of [trackers] as the daemon sends it. *)
Record WireTracker := {
  wk_announce : Js.field string;
  wk_id : Js.field Js.number;
  wk_scrape : Js.field string;
  wk_tier : Js.field Js.number
}.

(** One entry of [TorrentGetResponse.torrents] as the daemon sends it:
    any property may be missing. *)
Record WireTorrent := {
  w_id : Js.field Js.number;
  w_name : Js.nullable string;
  w_percentDone : Js.field Js.number;
  w_uploadRatio : Js.field Js.number;
  w_addedDate : Js.field Js.number;
  w_downloadDir : Js.field string;
  w_labels : Js.field (list string);
  w_error : Js.field Js.number;
  w_errorString : Js.field string;
  w_trackers : Js.field (list WireTracker)
}.

Record Tracker := {
  announce : string;
  tracker_id : Js.number;
  scrape : string;
  tier : Js.number
}.

(** [RawTorrent]: [id] and [name] are copied as they came. *)
Record RawTorrent := {
  raw_id : Js.field Js.number;
  raw_name : Js.nullable string;
  raw_percentDone : Js.number;
  raw_uploadRatio : Js.number;
  raw_addedDate : Js.number;
  raw_downloadDir : string;
  raw_labels : list string;
  raw_error : Js.number;
  raw_errorString : string;
  raw_trackers : list Tracker
}.

(** [Torrent], the hydrated snapshot. *)
Record Torrent := {
  id : Js.field Js.number;
  name : Js.nullable string;
  percentDone : Js.number;
  uploadRatio : Js.number;
  ageHours : Js.number;
  label : string;
  downloadDir : string;
  trackerUrls : list string;
  error : Js.number;
  errorString : string
}.

Inductive RemovalReason := Ratio | Ttl | Dead.

Record RemovalCandidate := {
  torrent : Torrent;
  reason : RemovalReason
}.

(** The part of [Config] the handler reads. *)
Record Config := {
  allowedLabels : list string;
  excludedTrackers : list string;
  maxRatio : Js.number;
  deadRetentionHours : Js.number;
  maxAgeHours : Js.number;
  dryRun : bool
}.

(* ================================================================== *)
(** * The removal rule engine ([Handler.evaluate] and its rules)        *)
(* ================================================================== *)

Definition checkRatioRule (config : Config) (t : Torrent)
  : option RemovalCandidate :=
  if Js.strictEq (uploadRatio t) (-1)%float
     || Js.lt (uploadRatio t) (maxRatio config)
  then None
  else Some {| torrent := t; reason := Ratio |}.

Definition checkDeadRule (config : Config) (t : Torrent)
  : option RemovalCandidate :=
  let isIncomplete := Js.lt (percentDone t) 100%float in
  let isPastDeadRetention := Js.ge (ageHours t) (deadRetentionHours config) in
  if negb isIncomplete || negb isPastDeadRetention
  then None
  else Some {| torrent := t; reason := Dead |}.

Definition checkTtlRule (config : Config) (t : Torrent)
  : option RemovalCandidate :=
  if Js.lt (ageHours t) (maxAgeHours config)
  then None
  else Some {| torrent := t; reason := Ttl |}.

Definition evaluate (config : Config) (t : Torrent) : list RemovalCandidate :=
  let result :=
    Js.orElse (checkRatioRule config t) (fun _ =>
    Js.orElse (checkDeadRule config t) (fun _ =>
    checkTtlRule config t)) in
  match result with
  | Some r => [r]
  | None => []
  end.

(** ** The same evaluation with the rule calls recorded

    [evaluate] is pure, so which rules it runs cannot be read off its
    result.  [evaluateConsulting] is [evaluate] where every call of a rule
    also records the rule's name, in call order; [Js.orElse] becomes
    [orElseConsulting], which runs its right operand under the same
    condition. *)

Definition Consulting (A : Type) : Type := (A * list RemovalReason)%type.

Definition consult (rule : RemovalReason)
           (check : Config -> Torrent -> option RemovalCandidate)
           (config : Config) (t : Torrent)
  : Consulting (option RemovalCandidate) :=
  (check config t, [rule]).

Definition orElseConsulting {A : Type} (a : Consulting (option A))
           (b : unit -> Consulting (option A)) : Consulting (option A) :=
  match a with
  | (Some x, seen) => (Some x, seen)
  | (None, seen) => let '(y, seen') := b tt in (y, seen ++ seen')
  end.

Definition evaluateConsulting (config : Config) (t : Torrent)
  : Consulting (list RemovalCandidate) :=
  let '(result, seen) :=
    orElseConsulting (consult Ratio checkRatioRule config t) (fun _ =>
    orElseConsulting (consult Dead checkDeadRule config t) (fun _ =>
    consult Ttl checkTtlRule config t)) in
  (match result with Some r => [r] | None => [] end, seen).

(* ================================================================== *)
(** * Defaulting at fetch and hydration                                 *)
(* ================================================================== *)

(** The object literal [getTorrents] builds for each tracker. *)
Definition normalizeTracker (tr : WireTracker) : Tracker :=
  {| announce := Js.orStr (wk_announce tr) "";
     tracker_id := Js.orNum (wk_id tr) 0%float;
     scrape := Js.orStr (wk_scrape tr) "";
     tier := Js.orNum (wk_tier tr) 0%float |}.

(** The object literal [getTorrents] builds for each torrent. *)
Definition normalizeTorrent (t : WireTorrent) : RawTorrent :=
  {| raw_id := w_id t;
     raw_name := w_name t;
     raw_percentDone := Js.orNum (w_percentDone t) 0%float;
     raw_uploadRatio := Js.orNum (w_uploadRatio t) 0%float;
     raw_addedDate := Js.orNum (w_addedDate t) 0%float;
     raw_downloadDir := Js.orStr (w_downloadDir t) "";
     raw_labels := Js.orArr (w_labels t) [];
     raw_error := Js.orNum (w_error t) 0%float;
     raw_errorString := Js.orStr (w_errorString t) "";
     raw_trackers := map normalizeTracker (Js.orArr (w_trackers t) []) |}.

(** [Handler.hydrate]; [nowSeconds] is [Math.floor(Date.now() / 1000)],
    the reading of the clock. *)
Definition hydrate (nowSeconds : Js.number) (raw : RawTorrent) : Torrent :=
  let ageHours := ((nowSeconds - raw_addedDate raw) / 3600)%float in
  let label :=
    match raw_labels raw with
    | l0 :: _ => l0
    | [] => basename (Js.orStr (Some (raw_downloadDir raw)) "")
    end in
  {| id := raw_id raw;
     name := raw_name raw;
     percentDone := (Js.orNum (Some (raw_percentDone raw)) 0%float * 100)%float;
     uploadRatio := Js.orNum (Some (raw_uploadRatio raw)) 0%float;
     ageHours := ageHours;
     label := label;
     downloadDir := Js.orStr (Some (raw_downloadDir raw)) "";
     trackerUrls :=
       map (fun t => Js.orStr (Some (announce t)) "") (raw_trackers raw);
     error := Js.orNum (Some (raw_error raw)) 0%float;
     errorString := Js.orStr (Some (raw_errorString raw)) "" |}.

(* ================================================================== *)
(** * The world: HTTP exchanges, client state, trace                    *)
(* ================================================================== *)

(** A thrown [Error]; the code only ever reads its [message]. *)
Record JsError := mkError { message : string }.

(** The [TypeError] of reading [property] of [undefined] or of [null]. *)
Definition cannotRead (what property : string) : JsError :=
  mkError ("Cannot read properties of " ++ what
           ++ " (reading '" ++ property ++ "')")%string.

(** [json.arguments] of a [torrent-get] answer. *)
Record Payload := { torrents : Js.field (list WireTorrent) }.

(** The body of an answer: one that cannot be read as the JSON object
    expected ([response.json()] rejects with [parseError]), or an object
    with its [result] and its [arguments]. *)
Inductive Body :=
| BodyMalformed (parseError : JsError)
| BodyJson (result : string) (arguments : Js.nullable Payload).

Record Response := {
  status : nat;
  statusText : string;
  sessionHeader : option string;   (* [X-Transmission-Session-Id], if sent *)
  body : Body
}.

(** [response.ok]. *)
Definition ok (r : Response) : bool :=
  ((200 <=? status r)%nat && (status r <=? 299)%nat)%bool.

Inductive FetchOutcome :=
| FetchRejects (err : JsError)      (* no HTTP answer: [fetch] rejects *)
| FetchResolves (r : Response).

Inductive RpcArgs :=
| TorrentGetArgs (fields : list string)
| TorrentRemoveArgs (ids : list (Js.field Js.number)) (deleteLocalData : bool).

(** What one [fetch] sends: the JSON body's [method] and [arguments] and
    the two headers that vary. *)
Record Request := {
  req_method : string;
  req_args : RpcArgs;
  req_authorization : option string;
  req_session : option string
}.

Inductive ClientCall :=
| CallRpc (method : string) (args : RpcArgs) (retryCount : nat)
| CallGetTorrents
| CallRemoveTorrents (ids : list (Js.field Js.number)) (deleteLocalData : bool).

Inductive LogLevel := Info | Warn | Err.

(** The log lines, by kind; the numbers and names interpolated into the
    text are kept, the decoration is not. *)
Inductive LogMsg :=
| MsgFetched (count : nat)
| MsgConnectedOnAttempt (attempt count : nat)
| MsgConnecting
| MsgConnectionFailed
| MsgAttemptingFetch
| MsgConnected (count : nat)
| MsgFailedToConnect (text : string)
| MsgSummaryHeader
| MsgSummaryRule
| MsgSummaryRow (t : Torrent)
| MsgSeparator
| MsgFiltering (total byLabel eligible : nat)
| MsgNoTorrents
| MsgFound (count : nat)
| MsgCandidate (why : RemovalReason) (name : Js.nullable string)
| MsgDryRunSkip (count : nat)
| MsgRemoved (count : nat).

(** What the program does, in order. [EvCall] marks the entry of a client
    method, [EvFetch] one HTTP request, [EvSleep] one
    [setTimeout]-promise awaited. *)
Inductive Event :=
| EvCall (c : ClientCall)
| EvFetch (req : Request)
| EvSleep (ms : nat)
| EvLog (level : LogLevel) (msg : LogMsg).

(** The mutable state of a run and its environment.  [daemon n] is the
    outcome of the [n]-th [fetch] the process makes (from 0): every run of
    the program against a real daemon is the run against the sequence of
    outcomes it met. *)
Record World := {
  sessionId : option string;       (* [TransmissionClient.sessionId] *)
  authHeader : option string;      (* what [getAuthHeader] returns *)
  isFirstRun : bool;               (* [Handler.isFirstRun] *)
  daemon : nat -> FetchOutcome;
  fetched : nat;
  trace : list Event
}.

Inductive Outcome (A : Type) :=
| Returns (a : A)
| Throws (e : JsError).
Arguments Returns {A} a.
Arguments Throws {A} e.

(** Computations that read and write the [World] and may throw. *)
Definition M (A : Type) : Type := World -> Outcome A * World.

Definition ret {A} (a : A) : M A := fun w => (Returns a, w).

Definition throw {A} (e : JsError) : M A := fun w => (Throws e, w).

Definition bind {A B} (m : M A) (k : A -> M B) : M B :=
  fun w =>
    match m w with
    | (Returns a, w') => k a w'
    | (Throws e, w') => (Throws e, w')
    end.

(** [try { body } catch (err) { handler err }]. *)
Definition tryCatch {A} (body : M A) (handler : JsError -> M A) : M A :=
  fun w =>
    match body w with
    | (Returns a, w') => (Returns a, w')
    | (Throws e, w') => handler e w'
    end.

(** A synchronous call that may throw. *)
Definition lift {A} (o : Outcome A) : M A := fun w => (o, w).

Declare Scope js_scope.
Delimit Scope js_scope with js.
Notation "x <- m ;; k" := (bind m (fun x => k))
  (at level 100, m at next level, right associativity) : js_scope.
Notation "m ;; k" := (bind m (fun _ => k))
  (at level 100, right associativity) : js_scope.
Local Open Scope js_scope.

Definition emit (e : Event) : M unit :=
  fun w =>
    (Returns tt,
     {| sessionId := sessionId w; authHeader := authHeader w;
        isFirstRun := isFirstRun w; daemon := daemon w;
        fetched := fetched w; trace := trace w ++ [e] |}).

Definition log (level : LogLevel) (msg : LogMsg) : M unit :=
  emit (EvLog level msg).

(** [await new Promise((r) => setTimeout(r, ms))]. *)
Definition sleep (ms : nat) : M unit := emit (EvSleep ms).

Definition getSessionId : M (option string) :=
  fun w => (Returns (sessionId w), w).

Definition setSessionId (s : string) : M unit :=
  fun w =>
    (Returns tt,
     {| sessionId := Some s; authHeader := authHeader w;
        isFirstRun := isFirstRun w; daemon := daemon w;
        fetched := fetched w; trace := trace w |}).

Definition getAuthHeader : M (option string) :=
  fun w => (Returns (authHeader w), w).

Definition getIsFirstRun : M bool :=
  fun w => (Returns (isFirstRun w), w).

Definition setIsFirstRun (b : bool) : M unit :=
  fun w =>
    (Returns tt,
     {| sessionId := sessionId w; authHeader := authHeader w;
        isFirstRun := b; daemon := daemon w;
        fetched := fetched w; trace := trace w |}).

(** [await fetch(url, { method: "POST", headers, body })]: the request
    goes on the trace and the daemon's next outcome comes back. *)
Definition fetch (req : Request) : M Response :=
  fun w =>
    let w' :=
      {| sessionId := sessionId w; authHeader := authHeader w;
         isFirstRun := isFirstRun w; daemon := daemon w;
         fetched := S (fetched w); trace := trace w ++ [EvFetch req] |} in
    match daemon w (fetched w) with
    | FetchRejects err => (Throws err, w')
    | FetchResolves r => (Returns r, w')
    end.

(* ================================================================== *)
(** * The RPC client ([TransmissionClient])                             *)
(* ================================================================== *)

(** What the [try] block of [rpc] ends with: a value for the caller, or
    the call [this.rpc(method, args, retryCount + 1)].  The promise of
    that call is returned without [await], so it settles after the [try]
    statement is left and its rejection does not pass through the
    [catch]. *)
Inductive RpcStep (retryCount : nat) :=
| Done (response : Js.nullable Payload)
| Retransmit (bound : retryCount < 2).
Arguments Done {retryCount} response.
Arguments Retransmit {retryCount} bound.

Definition negotiationFailed : JsError :=
  mkError "Failed to negotiate Transmission session after multiple attempts (409).".

Definition wrapRpcError (err : JsError) : JsError :=
  mkError ("Transmission RPC call failed: " ++ message err)%string.

(** The header a truthy value sets. *)
Definition headerOf (v : option string) : option string :=
  match v with
  | Some s => if Js.truthyStr s then Some s else None
  | None => None
  end.

(** The body of [rpc] up to the end of its [try]/[catch]. *)
Definition rpcTry (method : string) (args : RpcArgs) (retryCount : nat)
  : M (RpcStep retryCount) :=
  authHeader <- getAuthHeader ;;
  sessionId <- getSessionId ;;
  let req :=
    {| req_method := method; req_args := args;
       req_authorization := headerOf authHeader;
       req_session := headerOf sessionId |} in
  tryCatch
    (response <- fetch req ;;
     negotiated <-
       (if ((status response =? 409)%nat
            || match sessionHeader response with Some _ => true | None => false end)%bool
        then
          (match headerOf (sessionHeader response) with
           | Some newSessionId => setSessionId newSessionId
           | None => ret tt
           end) ;;
          if (status response =? 409)%nat then
            match le_lt_dec 2 retryCount with
            | left _ => throw negotiationFailed
            | right bound => ret (Some (Retransmit bound))
            end
          else ret None
        else ret None) ;;
     match negotiated with
     | Some step => ret step
     | None =>
         if negb (ok response) then
           throw (mkError ("API request failed: [" ++ Js.showNat (status response)
                           ++ "] " ++ statusText response)%string)
         else
           match body response with
           | BodyMalformed parseError => throw parseError
           | BodyJson result arguments =>
               if negb (String.eqb result "success") then
                 throw (mkError ("RPC error: " ++ result)%string)
               else ret (Done arguments)
           end
     end)
    (fun err => throw (wrapRpcError err)).

(** [TransmissionClient.rpc]. *)
Equations? rpc (method : string) (args : RpcArgs) (retryCount : nat)
  (w : World) : Outcome (Js.nullable Payload) * World by wf (3 - retryCount) lt :=
  rpc method args retryCount w :=
    match (emit (EvCall (CallRpc method args retryCount)) ;;
           rpcTry method args retryCount) w with
    | (Returns (Done response), w') => (Returns response, w')
    | (Returns (Retransmit bound), w') => rpc method args (retryCount + 1) w'
    | (Throws e, w') => (Throws e, w')
    end.
Proof. destruct retryCount as [|[|[|?]]]; simpl; lia. Qed.

(** The test [getTorrents] applies to the message of a caught error. *)
Definition isConnectivityMessage (message : string) : bool :=
  Js.includes message "ENOTFOUND" ||
  Js.includes message "ECONNREFUSED" ||
  Js.includes message "Connect timeout" ||
  Js.includes message "getaddrinfo ENOTFOUND" ||
  Js.includes message "fetch failed" ||
  Js.includes message "ECONNRESET".

Definition torrentGetFields : list string :=
  ["id"; "name"; "percentDone"; "uploadRatio"; "addedDate"; "downloadDir";
   "labels"; "error"; "errorString"; "trackers"].

Definition undefinedTorrents : JsError := cannotRead "undefined" "torrents".

Definition nullTorrents : JsError := cannotRead "null" "torrents".

(** The [try] block of one iteration of [getTorrents]' loop.  Reading
    [response.torrents] throws a [TypeError] when the answer had no
    [arguments], and another when its [arguments] were [null]. *)
Definition fetchAttempt (attempt : nat) : M (list RawTorrent) :=
  response <- rpc "torrent-get" (TorrentGetArgs torrentGetFields) 0 ;;
  match response with
  | Js.Undefined => throw undefinedTorrents
  | Js.Null => throw nullTorrents
  | Js.Defined payload =>
      let torrents := map normalizeTorrent (Js.orArr (torrents payload) []) in
      (if (1 <? attempt)%nat
       then log Info (MsgConnectedOnAttempt attempt (List.length torrents))
       else log Info (MsgFetched (List.length torrents))) ;;
      ret torrents
  end.

(** How one iteration of the loop ends: the function returns, or the loop
    goes on with [attempt + 1] (by [continue] or by reaching the end of
    the [catch] block). *)
Inductive LoopStep :=
| LoopReturn (torrents : list RawTorrent)
| LoopNext.

(** The [catch] block of [getTorrents]. *)
Definition fetchCatch (attempt : nat) (err : JsError) : M LoopStep :=
  let message := message err in
  let rest : M LoopStep :=
    if (30 <=? attempt)%nat then throw err
    else (sleep 1000 ;; ret LoopNext) in
  if isConnectivityMessage message then
    if (attempt =? 1)%nat then
      log Info MsgConnecting ;; rest
    else if (attempt <? 30)%nat then
      sleep 1000 ;; ret LoopNext
    else if (attempt =? 30)%nat then
      log Err MsgConnectionFailed ;; rest
    else rest
  else rest.

Definition exhausted : JsError :=
  mkError "Failed to connect to Transmission after 30 attempts".

(** [for (let attempt = 1; attempt <= 30; attempt++) { ... }] followed by
    the closing [throw]: [remaining] counts the iterations left, so the
    loop is entered with [remaining = 30] and [attempt = 1]. *)
Fixpoint getTorrentsLoop (remaining attempt : nat) : M (list RawTorrent) :=
  match remaining with
  | 0 => throw exhausted
  | S remaining' =>
      step <- tryCatch
                (torrents <- fetchAttempt attempt ;; ret (LoopReturn torrents))
                (fetchCatch attempt) ;;
      match step with
      | LoopReturn torrents => ret torrents
      | LoopNext => getTorrentsLoop remaining' (S attempt)
      end
  end.

(** [TransmissionClient.getTorrents]. *)
Definition getTorrents : M (list RawTorrent) :=
  emit (EvCall CallGetTorrents) ;;
  getTorrentsLoop 30 1.

(** [TransmissionClient.removeTorrents]. *)
Definition removeTorrents (ids : list (Js.field Js.number))
           (deleteLocalData : bool) : M unit :=
  emit (EvCall (CallRemoveTorrents ids deleteLocalData)) ;;
  _ <- rpc "torrent-remove" (TorrentRemoveArgs ids deleteLocalData) 0 ;;
  ret tt.

(* ================================================================== *)
(** * The handler ([Handler])                                           *)
(* ================================================================== *)

(** [arr.filter(p)] where [p] may throw: elements are tested in order and
    the first exception ends the call. *)
Fixpoint filterThrowing {A : Type} (p : A -> Outcome bool) (l : list A)
  : Outcome (list A) :=
  match l with
  | [] => Returns []
  | x :: r =>
      match p x with
      | Throws e => Throws e
      | Returns keep =>
          match filterThrowing p r with
          | Throws e => Throws e
          | Returns r' => Returns (if keep then x :: r' else r')
          end
      end
  end.

(** [arr.map(f)] where [f] may throw: elements are mapped in order and
    the first exception ends the call. *)
Fixpoint mapThrowing {A B : Type} (f : A -> Outcome B) (l : list A)
  : Outcome (list B) :=
  match l with
  | [] => Returns []
  | x :: r =>
      match f x with
      | Throws e => Throws e
      | Returns y =>
          match mapThrowing f r with
          | Throws e => Throws e
          | Returns r' => Returns (y :: r')
          end
      end
  end.

Definition invalidUrl : JsError := mkError "Invalid URL".

Definition undefinedLength : JsError := cannotRead "undefined" "length".

Definition nullLength : JsError := cannotRead "null" "length".

Section Handler.

(** [String.prototype.toLowerCase]: the platform's lower-casing, which
    follows the Unicode case mappings. *)
Variable toLowerCase : string -> string.

(** [new URL(url).hostname]: the platform's URL parser, [None] where the
    constructor throws its [TypeError]. *)
Variable url_hostname : string -> option string.

Variable config : Config.

Definition isAllowedLabel (t : Torrent) : bool :=
  let label := toLowerCase (label t) in
  Js.arrIncludes (allowedLabels config) label.

(** The [for ... of] loop of [hasExcludedTracker]. *)
Fixpoint scanTrackerUrls (urls : list string) : Outcome bool :=
  match urls with
  | [] => Returns false
  | url :: rest =>
      match url_hostname url with
      | None => Throws invalidUrl
      | Some hostname =>
          let host := toLowerCase hostname in
          if existsb (fun t => Js.includes host t) (excludedTrackers config)
          then Returns true
          else scanTrackerUrls rest
      end
  end.

Definition hasExcludedTracker (t : Torrent) : Outcome bool :=
  if (List.length (excludedTrackers config) =? 0)%nat then Returns false
  else scanTrackerUrls (trackerUrls t).

(** The predicate of the second [filter] of [run]. *)
Definition notExcluded (t : Torrent) : Outcome bool :=
  match hasExcludedTracker t with
  | Returns b => Returns (negb b)
  | Throws e => Throws e
  end.

(** The two [filter] calls of [run]. *)
Definition eligibleOf (hydrated : list Torrent) : Outcome (list Torrent) :=
  let byLabel := filter isAllowedLabel hydrated in
  filterThrowing notExcluded byLabel.

Definition retryGetTorrents : M (list RawTorrent) := getTorrents.

Definition performRemoval (ids : list (Js.field Js.number)) : M unit :=
  if dryRun config then
    log Warn (MsgDryRunSkip (List.length ids))
  else
    removeTorrents ids true ;;
    log Info (MsgRemoved (List.length ids)).

Fixpoint logEach (msgs : list LogMsg) : M unit :=
  match msgs with
  | [] => ret tt
  | m :: r => log Info m ;; logEach r
  end.

(** The callback of [torrents.map] in [displayTorrentsSummary].  The
    row is kept as the torrent it shows; of what the callback computes,
    [t.name.length] is the one expression that can throw, when the
    daemon sent the torrent without a name. *)
Definition summaryRow (t : Torrent) : Outcome LogMsg :=
  match name t with
  | Js.Undefined => Throws undefinedLength
  | Js.Null => Throws nullLength
  | Js.Defined _ => Returns (MsgSummaryRow t)
  end.

(** [Handler.displayTorrentsSummary]: the rows are all built before the
    first line is logged. *)
Definition displayTorrentsSummary (torrents : list Torrent) : M unit :=
  if (List.length torrents =? 0)%nat then ret tt
  else
    rows <- lift (mapThrowing summaryRow torrents) ;;
    log Info MsgSummaryHeader ;;
    log Info MsgSummaryRule ;;
    logEach rows.

(** [Handler.run].  [hydrate] reads the clock once per torrent, inside
    one synchronous [map]; [nowSeconds] is that reading, taken to be the
    same second for the torrents of one run. *)
Definition run (nowSeconds : Js.number) : M unit :=
  torrents <-
    tryCatch
      (log Info MsgAttemptingFetch ;;
       torrents <- retryGetTorrents ;;
       log Info (MsgConnected (List.length torrents)) ;;
       ret torrents)
      (fun err =>
         log Err (MsgFailedToConnect (message err)) ;;
         throw err) ;;
  let hydrated := map (hydrate nowSeconds) torrents in
  first <- getIsFirstRun ;;
  (if first then
     displayTorrentsSummary hydrated ;;
     log Info MsgSeparator ;;
     setIsFirstRun false
   else ret tt) ;;
  let byLabel := filter isAllowedLabel hydrated in
  eligible <- lift (filterThrowing notExcluded byLabel) ;;
  log Info (MsgFiltering (List.length torrents) (List.length byLabel) (List.length eligible)) ;;
  let candidates := flat_map (evaluate config) eligible in
  if (List.length candidates =? 0)%nat then
    log Info MsgNoTorrents
  else
    log Info MsgSeparator ;;
    log Info (MsgFound (List.length candidates)) ;;
    logEach (map (fun c => MsgCandidate (reason c) (name (torrent c))) candidates) ;;
    performRemoval (map (fun c => id (torrent c)) candidates).

End Handler.

(** A parser for URLs of the shape [scheme://host], [scheme://host/...],
    [scheme://host:port...]: the fragment of the platform's parser the
    examples below run on.  A string without ["://"], or with nothing
    before or after it, is not a URL. *)
Fixpoint takeHost (s : string) : string :=
  match s with
  | EmptyString => EmptyString
  | String c r =>
      if (Ascii.eqb c "/" || Ascii.eqb c ":" || Ascii.eqb c "?" || Ascii.eqb c "#")%char
      then EmptyString
      else String c (takeHost r)
  end.

Fixpoint afterScheme (seenScheme : bool) (s : string) : option string :=
  match s with
  | EmptyString => None
  | String c r =>
      if String.prefix "://" s then
        if seenScheme then
          match takeHost (String.substring 3 (String.length s - 3) s) with
          | EmptyString => None
          | host => Some host
          end
        else None
      else if (Ascii.eqb c "/" || Ascii.eqb c "?" || Ascii.eqb c "#")%char then None
      else afterScheme true r
  end.

Definition simpleHostname (url : string) : option string :=
  afterScheme false url.

(** A lower-casing for the examples below: the letters A to Z are
    folded and every other byte is left as it is, which is what
    [String.prototype.toLowerCase] gives on a string of ASCII
    characters. *)
Definition lowerAsciiChar (c : ascii) : ascii :=
  let n := nat_of_ascii c in
  if ((65 <=? n)%nat && (n <=? 90)%nat)%bool then ascii_of_nat (n + 32) else c.

Fixpoint lowerAscii (s : string) : string :=
  match s with
  | EmptyString => EmptyString
  | String c r => String (lowerAsciiChar c) (lowerAscii r)
  end.

(* ================================================================== *)
(** * Sample data                                                       *)
(* ================================================================== *)

Module Sample.

(** The defaults of the README: ratio 2.0, dead retention 12 h, TTL
    120 h, labels radarr and sonarr. *)
Definition config (excluded : list string) (dry : bool) : Config :=
  {| allowedLabels := ["radarr"; "sonarr"];
     excludedTrackers := excluded;
     maxRatio := 2%float;
     deadRetentionHours := 12%float;
     maxAgeHours := 120%float;
     dryRun := dry |}.

Definition torrent (n : Js.number) (lbl : string) (urls : list string)
           (percent ratio age : Js.number) : Torrent :=
  {| id := Some n; name := Js.Defined "sample";
     percentDone := percent; uploadRatio := ratio; ageHours := age;
     label := lbl; downloadDir := "/downloads"; trackerUrls := urls;
     error := 0%float; errorString := "" |}.
Arguments torrent n%_float lbl urls (percent ratio age)%_float.

(** A torrent as the daemon reports it. *)
Definition wire (n : Js.number) (lbl : string) (urls : list string)
           (done ratio added : Js.number) : WireTorrent :=
  {| w_id := Some n; w_name := Js.Defined "sample";
     w_percentDone := Some done; w_uploadRatio := Some ratio;
     w_addedDate := Some added; w_downloadDir := Some "/downloads";
     w_labels := Some [lbl]; w_error := None; w_errorString := None;
     w_trackers :=
       Some (map (fun u => {| wk_announce := Some u; wk_id := None;
                              wk_scrape := None; wk_tier := None |}) urls) |}.
Arguments wire n%_float lbl urls (done ratio added)%_float.

Definition success (ts : list WireTorrent) : Response :=
  {| status := 200; statusText := "OK"; sessionHeader := None;
     body := BodyJson "success" (Js.Defined {| torrents := Some ts |}) |}.

Definition conflict (token : option string) : Response :=
  {| status := 409; statusText := "Conflict"; sessionHeader := token;
     body := BodyMalformed (mkError "Unexpected token < in JSON") |}.

Definition unauthorized : Response :=
  {| status := 401; statusText := "Unauthorized"; sessionHeader := None;
     body := BodyMalformed (mkError "Unexpected token < in JSON") |}.

(** What [fetch] rejects with when no connection can be made. *)
Definition unreachable : FetchOutcome :=
  FetchRejects (mkError "fetch failed").

(** The daemon that gives the listed outcomes, then [rest] for ever. *)
Definition script (outcomes : list FetchOutcome) (rest : FetchOutcome)
  : nat -> FetchOutcome :=
  fun n => nth n outcomes rest.

(** The daemon that cannot be reached for the first [n] requests. *)
Definition downFor (n : nat) (rest : FetchOutcome) : nat -> FetchOutcome :=
  fun i => if (i <? n)%nat then unreachable else rest.

(** The daemon that answers every request with the same list. *)
Definition answering (ts : list WireTorrent) : nat -> FetchOutcome :=
  fun _ => FetchResolves (success ts).

(** Complete, added at second 3600, ratio 3: over the ratio limit. *)
Definition overRatio : WireTorrent :=
  wire 1 "radarr" ["http://open.example.org/announce"] 1 3 3600.

(** A torrent over the ratio limit that the daemon lists without a
    name. *)
Definition nameless : WireTorrent :=
  {| w_id := Some 5%float; w_name := Js.Undefined;
     w_percentDone := Some 1%float; w_uploadRatio := Some 3%float;
     w_addedDate := Some 3600%float; w_downloadDir := Some "/downloads";
     w_labels := Some ["radarr"]; w_error := None; w_errorString := None;
     w_trackers := Some [] |}.

(** A torrent whose only tracker came without an [announce]. *)
Definition noAnnounce (lbl : string) : WireTorrent :=
  {| w_id := Some 2%float; w_name := Js.Defined "sample";
     w_percentDone := Some 1%float; w_uploadRatio := Some 0%float;
     w_addedDate := Some 3600%float; w_downloadDir := Some "/downloads";
     w_labels := Some [lbl]; w_error := None; w_errorString := None;
     w_trackers :=
       Some [{| wk_announce := None; wk_id := Some 0%float;
                wk_scrape := None; wk_tier := Some 0%float |}] |}.

(** A process that has just started and meets the given outcomes. *)
Definition world (d : nat -> FetchOutcome) : World :=
  {| sessionId := None; authHeader := None; isFirstRun := true;
     daemon := d; fetched := 0; trace := [] |}.

End Sample.

(* ================================================================== *)
(** * Reading worlds and traces                                         *)
(* ================================================================== *)

(** The request [rpc] builds in world [w]. *)
Definition requestOf (w : World) (method : string) (args : RpcArgs) : Request :=
  {| req_method := method; req_args := args;
     req_authorization := headerOf (authHeader w);
     req_session := headerOf (sessionId w) |}.

(** The world after [rpc method args retryCount] was entered in [w], sent
    its request and, when an answer came with a token, captured it. *)
Definition exchanged (w : World) (method : string) (args : RpcArgs)
           (retryCount : nat) (token : option string) : World :=
  {| sessionId := match token with Some s => Some s | None => sessionId w end;
     authHeader := authHeader w;
     isFirstRun := isFirstRun w;
     daemon := daemon w;
     fetched := S (fetched w);
     trace := trace w ++ [EvCall (CallRpc method args retryCount);
                          EvFetch (requestOf w method args)] |}.

(** What [rpc] makes of an answer whose status is not 409. *)
Definition answerOf (r : Response) : Outcome (Js.nullable Payload) :=
  if negb (ok r) then
    Throws (wrapRpcError
              (mkError ("API request failed: [" ++ Js.showNat (status r)
                        ++ "] " ++ statusText r)%string))
  else
    match body r with
    | BodyMalformed parseError => Throws (wrapRpcError parseError)
    | BodyJson result arguments =>
        if negb (String.eqb result "success") then
          Throws (wrapRpcError (mkError ("RPC error: " ++ result)%string))
        else Returns arguments
    end.

(** The world with more events on its trace. *)
Definition traced (w : World) (evs : list Event) : World :=
  {| sessionId := sessionId w; authHeader := authHeader w;
     isFirstRun := isFirstRun w; daemon := daemon w;
     fetched := fetched w; trace := trace w ++ evs |}.

(** The calls of [removeTorrents] on a trace, with their arguments. *)
Fixpoint removeCalls (tr : list Event)
  : list (list (Js.field Js.number) * bool) :=
  match tr with
  | [] => []
  | EvCall (CallRemoveTorrents ids deleteLocalData) :: r =>
      (ids, deleteLocalData) :: removeCalls r
  | _ :: r => removeCalls r
  end.

(** The HTTP requests on a trace. *)
Fixpoint requests (tr : list Event) : list Request :=
  match tr with
  | [] => []
  | EvFetch req :: r => req :: requests r
  | _ :: r => requests r
  end.

(** The delays awaited on a trace. *)
Fixpoint sleeps (tr : list Event) : list nat :=
  match tr with
  | [] => []
  | EvSleep ms :: r => ms :: sleeps r
  | _ :: r => sleeps r
  end.

(** The number of calls [rpc(method, args)] made with [retryCount = 0]:
    the attempts of [getTorrents]' loop. *)
Fixpoint attempts (tr : list Event) : nat :=
  match tr with
  | [] => 0
  | EvCall (CallRpc _ _ 0) :: r => S (attempts r)
  | _ :: r => attempts r
  end.

(** The log lines on a trace. *)
Fixpoint logged (tr : list Event) : list (LogLevel * LogMsg) :=
  match tr with
  | [] => []
  | EvLog level msg :: r => (level, msg) :: logged r
  | _ :: r => logged r
  end.

(** An event of a retransmission of [rpc(method, args)]: a request for
    the same call, or the entry of [rpc] with a [retryCount] above
    [retryCount]. *)
Definition retransmission (method : string) (args : RpcArgs) (retryCount : nat)
           (e : Event) : Prop :=
  match e with
  | EvFetch req => req_method req = method /\ req_args req = args
  | EvCall (CallRpc method' args' k) =>
      method' = method /\ args' = args /\ retryCount < k
  | _ => False
  end.

(** What the [catch] block of [getTorrents] puts on the trace when the
    loop goes on after a failed attempt, and when it rethrows. *)
Definition retryEvents (attempt : nat) (err : JsError) : list Event :=
  (if (isConnectivityMessage (message err) && (attempt =? 1)%nat)%bool
   then [EvLog Info MsgConnecting] else [])
  ++ [EvSleep 1000].

Definition rethrowEvents (attempt : nat) (err : JsError) : list Event :=
  if (isConnectivityMessage (message err) && (attempt =? 30)%nat)%bool
  then [EvLog Err MsgConnectionFailed] else [].

(** The torrents [getTorrents] returns on a payload. *)
Definition torrentsOf (payload : Payload) : list RawTorrent :=
  map normalizeTorrent (Js.orArr (torrents payload) []).

(** The line [getTorrents] logs on success. *)
Definition fetchedLine (attempt count : nat) : Event :=
  if (1 <? attempt)%nat
  then EvLog Info (MsgConnectedOnAttempt attempt count)
  else EvLog Info (MsgFetched count).

Definition torrentGet : RpcArgs := TorrentGetArgs torrentGetFields.

(** ** The exchanges of [getTorrents] with the daemon, in the words of
    the specification *)

(** The daemon's outcomes from request [n] on start with [outcomes]. *)
Definition answers (d : nat -> FetchOutcome) (n : nat)
           (outcomes : list FetchOutcome) : Prop :=
  forall i o, nth_error outcomes i = Some o -> d (n + i) = o.

(** A session negotiation: at most two answers, each a 409. *)
Definition negotiation (conflicts : list Response) : Prop :=
  List.length conflicts <= 2 /\ Forall (fun r => status r = 409) conflicts.

(** An attempt that fails for want of a connection: a negotiation (most
    often none), then a request that [fetch] rejects with an error whose
    message, as [getTorrents] sees it, passes the connectivity test. *)
Definition unreachableAttempt (a : list Response * JsError) : Prop :=
  negotiation (fst a)
  /\ isConnectivityMessage (message (wrapRpcError (snd a))) = true.

(** The outcomes the daemon gives during such an attempt. *)
Definition attemptOutcomes (a : list Response * JsError) : list FetchOutcome :=
  map FetchResolves (fst a) ++ [FetchRejects (snd a)].

(** A number as the client passes it on: the one sent, or 0 when none
    was sent or the one sent is falsy. *)
Definition sentNumber (sent : Js.field Js.number) (got : Js.number) : Prop :=
  match sent with
  | Some x => if Js.truthyNum x then got = x else got = 0%float
  | None => got = 0%float
  end.

(** A string as the client passes it on: the one sent, or the empty
    string when none was sent. *)
Definition sentString (sent : Js.field string) (got : string) : Prop :=
  match sent with
  | Some s => got = s
  | None => got = ""
  end.

(** A list as the client passes it on: the one sent, or the empty list
    when none was sent. *)
Definition sentList {A : Type} (sent : Js.field (list A)) : list A :=
  match sent with
  | Some l => l
  | None => []
  end.

Definition deliveredTracker (sent : WireTracker) (got : Tracker) : Prop :=
  sentString (wk_announce sent) (announce got)
  /\ sentNumber (wk_id sent) (tracker_id got)
  /\ sentString (wk_scrape sent) (scrape got)
  /\ sentNumber (wk_tier sent) (tier got).

(** The torrent [got] is the torrent [sent] of the daemon's answer, with
    the fields that were not sent defaulted. *)
Definition delivered (sent : WireTorrent) (got : RawTorrent) : Prop :=
  raw_id got = w_id sent
  /\ raw_name got = w_name sent
  /\ sentNumber (w_percentDone sent) (raw_percentDone got)
  /\ sentNumber (w_uploadRatio sent) (raw_uploadRatio got)
  /\ sentNumber (w_addedDate sent) (raw_addedDate got)
  /\ sentString (w_downloadDir sent) (raw_downloadDir got)
  /\ raw_labels got = sentList (w_labels sent)
  /\ sentNumber (w_error sent) (raw_error got)
  /\ sentString (w_errorString sent) (raw_errorString got)
  /\ Forall2 deliveredTracker (sentList (w_trackers sent)) (raw_trackers got).

(** The [torrent-remove] requests on a trace. *)
Definition removalRequests (tr : list Event) : list Request :=
  filter (fun req => String.eqb (req_method req) "torrent-remove") (requests tr).

(** ** The two filters, in the words of the specification *)

(** The lower-cased label is a member of the allow-list. *)
Definition labelAllowed (toLowerCase : string -> string)
           (config : Config) (t : Torrent) : Prop :=
  In (toLowerCase (label t)) (allowedLabels config).

(** Some announce URL has a hostname that contains, case-insensitively,
    some excluded-tracker token. *)
Definition hostExcluded (toLowerCase : string -> string)
           (url_hostname : string -> option string)
           (config : Config) (t : Torrent) : Prop :=
  exists url host token,
    In url (trackerUrls t)
    /\ url_hostname url = Some host
    /\ In token (excludedTrackers config)
    /\ Js.includes (toLowerCase host) token = true.

(** Some URL of the list has a hostname that contains,
    case-insensitively, some excluded-tracker token. *)
Definition hostMatches (toLowerCase : string -> string)
           (url_hostname : string -> option string)
           (config : Config) (urls : list string) : Prop :=
  exists url host token,
    In url urls
    /\ url_hostname url = Some host
    /\ In token (excludedTrackers config)
    /\ Js.includes (toLowerCase host) token = true.

(** The same two conditions as tests; a URL without a hostname matches no
    token. *)
Definition labelAllowedb (toLowerCase : string -> string)
           (config : Config) (t : Torrent) : bool :=
  existsb (String.eqb (toLowerCase (label t))) (allowedLabels config).

Definition hostExcludedb (toLowerCase : string -> string)
           (url_hostname : string -> option string)
           (config : Config) (t : Torrent) : bool :=
  existsb (fun url =>
             match url_hostname url with
             | Some host =>
                 existsb (fun token => Js.includes (toLowerCase host) token)
                         (excludedTrackers config)
             | None => false
             end)
          (trackerUrls t).

(** Every announce URL of the torrent is one the platform parses. *)
Definition parsable (url_hostname : string -> option string) (t : Torrent) : Prop :=
  forall url, In url (trackerUrls t) -> url_hostname url <> None.

(** ** The stages of [run] *)

(** The torrent came with a name. *)
Definition named (t : Torrent) : Prop := exists s, name t = Js.Defined s.

(** The error the first-run table ends with: the [TypeError] of the
    first torrent that came without a name, if there is one. *)
Fixpoint summaryError (hydrated : list Torrent) : option JsError :=
  match hydrated with
  | [] => None
  | t :: rest =>
      match name t with
      | Js.Undefined => Some undefinedLength
      | Js.Null => Some nullLength
      | Js.Defined _ => summaryError rest
      end
  end.

(** What the first run logs before filtering. *)
Definition summaryEvents (hydrated : list Torrent) : list Event :=
  (if (List.length hydrated =? 0)%nat then []
   else EvLog Info MsgSummaryHeader :: EvLog Info MsgSummaryRule
        :: map (fun t => EvLog Info (MsgSummaryRow t)) hydrated)
  ++ [EvLog Info MsgSeparator].

(** The world after the summary stage. *)
Definition afterSummary (w : World) (hydrated : list Torrent) : World :=
  if isFirstRun w then
    {| sessionId := sessionId w; authHeader := authHeader w;
       isFirstRun := false; daemon := daemon w;
       fetched := fetched w; trace := trace w ++ summaryEvents hydrated |}
  else w.

(** The lines [run] logs when it has candidates. *)
Definition candidateEvents (candidates : list RemovalCandidate) : list Event :=
  EvLog Info MsgSeparator :: EvLog Info (MsgFound (List.length candidates))
  :: map (fun c => EvLog Info (MsgCandidate (reason c) (name (torrent c))))
         candidates.

Definition candidateIds (candidates : list RemovalCandidate)
  : list (Js.field Js.number) :=
  map (fun c => id (torrent c)) candidates.

(** A held token is not dropped between [w] and [w']. *)
Definition keepsToken (w w' : World) : Prop :=
  sessionId w <> None -> sessionId w' <> None.

(** The lines of the first-run table among the log lines of a trace. *)
Definition summaryLine (msg : LogMsg) : bool :=
  match msg with
  | MsgSummaryHeader | MsgSummaryRule | MsgSummaryRow _ => true
  | _ => false
  end.

Definition summaryLines (tr : list Event) : list LogMsg :=
  filter summaryLine (map snd (logged tr)).

(* ================================================================== *)
(** * Configuration ([config.ts]) and credentials                       *)
(* ================================================================== *)

Record Auth := { username : string; password : string }.

(** [value.indexOf(c)] for a one-character [c]; [None] is JavaScript's
    [-1]. *)
Fixpoint indexOfChar (c : ascii) (s : string) : option nat :=
  match s with
  | EmptyString => None
  | String d r =>
      if Ascii.eqb d c then Some 0
      else match indexOfChar c r with
           | Some i => Some (S i)
           | None => None
           end
  end.

Definition authFormatError : JsError :=
  mkError "TRANSMISSION_AUTH must be in format: username:password".

(** [parseAuth] of [config.ts]: [value.substring(0, colonIndex)] and
    [value.substring(colonIndex + 1)]. *)
Definition parseAuth (value : string) : Outcome Auth :=
  match indexOfChar ":" value with
  | None => Throws authFormatError
  | Some colonIndex =>
      Returns
        {| username := String.substring 0 colonIndex value;
           password :=
             String.substring (colonIndex + 1)
               (String.length value - (colonIndex + 1)) value |}
  end.

(** [e.TRANSMISSION_AUTH ? parseAuth(e.TRANSMISSION_AUTH) : undefined]. *)
Definition loadAuth (env : Js.field string) : Outcome (option Auth) :=
  match env with
  | Some value =>
      if Js.truthyStr value then
        match parseAuth value with
        | Returns a => Returns (Some a)
        | Throws e => Throws e
        end
      else Returns None
  | None => Returns None
  end.

(** [TransmissionClient.getAuthHeader]; [toBase64] is the client's
    method of that name, Node's Base64 encoding of the UTF-8 bytes. *)
Definition getAuthHeaderOf (toBase64 : string -> string) (auth : option Auth)
  : option string :=
  match auth with
  | Some a =>
      if (Js.truthyStr (username a) || Js.truthyStr (password a))%bool then
        let credentials :=
          (Js.orStr (Some (username a)) "" ++ ":"
           ++ Js.orStr (Some (password a)) "")%string in
        Some ("Basic " ++ toBase64 credentials)%string
      else None
  | None => None
  end.

(** [s.split(",")]: the pieces between the separators, the empty ones
    included; the empty string gives one empty piece. *)
Fixpoint splitOn (sep : ascii) (s : string) : list string :=
  match s with
  | EmptyString => [EmptyString]
  | String c r =>
      if Ascii.eqb c sep then EmptyString :: splitOn sep r
      else match splitOn sep r with
           | piece :: pieces => String c piece :: pieces
           | [] => [String c EmptyString]
           end
  end.

(** The white space [trim] removes: the WhiteSpace and LineTerminator
    code points of ECMAScript.  Strings are held as UTF-8 bytes, so a
    code point is one, two or three bytes here:
    U+0009 to U+000D and U+0020 (one byte);
    U+00A0 (C2 A0);
    U+1680 (E1 9A 80), U+2000 to U+200A (E2 80 80 to E2 80 8A),
    U+2028 and U+2029 (E2 80 A8, E2 80 A9), U+202F (E2 80 AF),
    U+205F (E2 81 9F), U+3000 (E3 80 80) and U+FEFF (EF BB BF). *)
Definition isSpace1 (c : ascii) : bool :=
  let n := nat_of_ascii c in
  (((9 <=? n)%nat && (n <=? 13)%nat) || (n =? 32)%nat)%bool.

Definition isSpace2 (c1 c2 : ascii) : bool :=
  ((nat_of_ascii c1 =? 194)%nat && (nat_of_ascii c2 =? 160)%nat)%bool.

Definition isSpace3 (c1 c2 c3 : ascii) : bool :=
  let n1 := nat_of_ascii c1 in
  let n2 := nat_of_ascii c2 in
  let n3 := nat_of_ascii c3 in
  (((n1 =? 225) && (n2 =? 154) && (n3 =? 128))
   || ((n1 =? 226) && (n2 =? 128)
       && (((128 <=? n3) && (n3 <=? 138)) || (n3 =? 168) || (n3 =? 169)
           || (n3 =? 175)))
   || ((n1 =? 226) && (n2 =? 129) && (n3 =? 159))
   || ((n1 =? 227) && (n2 =? 128) && (n3 =? 128))
   || ((n1 =? 239) && (n2 =? 187) && (n3 =? 191)))%nat%bool.

(** The bytes without the white space they start with. *)
Fixpoint dropSpaces (s : list ascii) : list ascii :=
  match s with
  | [] => []
  | c1 :: r1 =>
      if isSpace1 c1 then dropSpaces r1
      else
        match r1 with
        | [] => s
        | c2 :: r2 =>
            if isSpace2 c1 c2 then dropSpaces r2
            else
              match r2 with
              | [] => s
              | c3 :: r3 =>
                  if isSpace3 c1 c2 c3 then dropSpaces r3 else s
              end
        end
  end.

(** The bytes, last one first, without the white space the string ends
    with. *)
Fixpoint dropSpacesBackwards (s : list ascii) : list ascii :=
  match s with
  | [] => []
  | c1 :: r1 =>
      if isSpace1 c1 then dropSpacesBackwards r1
      else
        match r1 with
        | [] => s
        | c2 :: r2 =>
            if isSpace2 c2 c1 then dropSpacesBackwards r2
            else
              match r2 with
              | [] => s
              | c3 :: r3 =>
                  if isSpace3 c3 c2 c1 then dropSpacesBackwards r3 else s
              end
        end
  end.

Definition trimStart (s : string) : string :=
  string_of_list_ascii (dropSpaces (list_ascii_of_string s)).

Definition trimEnd (s : string) : string :=
  string_of_list_ascii
    (rev (dropSpacesBackwards (rev (list_ascii_of_string s)))).

(** [s.trim()]. *)
Definition trim (s : string) : string := trimEnd (trimStart s).

(** The expression [loadConfig] applies to [ALLOWED_LABELS] and to
    [EXCLUDED_TRACKERS]:
    [value.split(",").map((s) => s.trim().toLowerCase()).filter(Boolean)]. *)
Definition parseCommaList (toLowerCase : string -> string) (value : string)
  : list string :=
  filter Js.truthyStr
         (map (fun s => toLowerCase (trim s)) (splitOn "," value)).

(** [e.DRY_RUN === "true" || e.DRY_RUN === "1"]. *)
Definition parseDryRun (env : Js.field string) : bool :=
  match env with
  | Some v => (String.eqb v "true" || String.eqb v "1")%bool
  | None => false
  end.

(** Unary [+] on an environment variable: [NaN] when it is unset,
    [toNumber] (the conversion of a string to a number) otherwise. *)
Definition unaryPlus (toNumber : string -> Js.number) (env : Js.field string)
  : Js.number :=
  match env with
  | Some v => toNumber v
  | None => nan
  end.

(** [loadConfig] of [config.ts], for the fields the handler reads.  The
    two lists are read with [.split] on the variable, which must then be
    set; the numbers are read with unary [+].  [toLowerCase] is the
    platform's [String.prototype.toLowerCase]. *)
Definition loadConfig (toLowerCase : string -> string)
           (toNumber : string -> Js.number)
           (allowed excluded : string) (ratio dead age dry : Js.field string)
  : Config :=
  {| allowedLabels := parseCommaList toLowerCase allowed;
     excludedTrackers := parseCommaList toLowerCase excluded;
     maxRatio := unaryPlus toNumber ratio;
     deadRetentionHours := unaryPlus toNumber dead;
     maxAgeHours := unaryPlus toNumber age;
     dryRun := parseDryRun dry |}.

(** [parseNum] of the other configuration module: the value read, or the
    fallback when the variable is unset or empty, refused unless it is a
    number above zero.  [toNumber] is [Number(value)]. *)
Definition parseNum (toNumber : string -> Js.number) (value : Js.field string)
           (fallback : Js.number) : Outcome Js.number :=
  let n :=
    match value with
    | Some v => if Js.truthyStr v then toNumber v else fallback
    | None => fallback
    end in
  if (Js.isNaN n || PrimFloat.leb n 0)%bool then
    Throws (mkError ("Invalid number: "
                     ++ match value with Some v => v | None => "undefined" end)%string)
  else Returns n.

(** The conversion of a string to a number, on the strings of the
    samples; anything else is taken not to be a number. *)
Definition sampleNumber (s : string) : Js.number :=
  if String.eqb s "2.0" then 2%float
  else if String.eqb s "12" then 12%float
  else if String.eqb s "120" then 120%float
  else nan.

(** ** Words for strings *)

(** The character does not occur in the string. *)
Fixpoint lacks (c : ascii) (s : string) : Prop :=
  match s with
  | EmptyString => True
  | String d r => d <> c /\ lacks c r
  end.

(** The string is made of slashes only. *)
Fixpoint slashes (s : string) : Prop :=
  match s with
  | EmptyString => True
  | String d r => d = "/"%char /\ slashes r
  end.

(* ================================================================== *)
(** * Properties                                                        *)
(* ================================================================== *)

Example basename_radarr : basename "/downloads/radarr/" = "radarr".
Proof. reflexivity. Qed.

Example lower_mixed : lowerAscii "RaDarr-4K" = "radarr-4k".
Proof. reflexivity. Qed.


Example simpleHostname_ex :
  simpleHostname "http://Tracker.Example.org:6969/announce" = Some "Tracker.Example.org"
  /\ simpleHostname "" = None /\ simpleHostname "udp://t.co" = Some "t.co"
  /\ simpleHostname "not a url" = None.
Proof. repeat split; reflexivity. Qed.

(* ------------------------------------------------------------------ *)
(** ** Facts about JavaScript numbers                                   *)
(* ------------------------------------------------------------------ *)

Module JsFacts.

Lemma SFcompare_swap (a b : spec_float) :
  SFcompare b a = option_map CompOpp (SFcompare a b).
Proof.
  destruct a as [sa|sa| |sa ma ea], b as [sb|sb| |sb mb eb]; cbn;
    try reflexivity;
    try (destruct sa; reflexivity);
    try (destruct sb; reflexivity);
    try (destruct sa, sb; reflexivity).
  destruct sa, sb; try reflexivity;
    rewrite (Z.compare_antisym ea eb);
    destruct (ea ?= eb)%Z; cbn; try reflexivity;
    change (PosDef.Pos.compare_cont Eq mb ma) with (Pos.compare mb ma);
    change (PosDef.Pos.compare_cont Eq ma mb) with (Pos.compare ma mb);
    rewrite (Pos.compare_antisym ma mb); reflexivity.
Qed.

Lemma SFcompare_defined (a b : spec_float) :
  a <> S754_nan -> b <> S754_nan -> SFcompare a b <> None.
Proof.
  destruct a, b; cbn; congruence.
Qed.

Lemma not_nan_spec (x : float) :
  Js.isNaN x = false -> Prim2SF x <> S754_nan.
Proof.
  unfold Js.isNaN, PrimFloat.is_nan. rewrite FloatAxioms.eqb_spec.
  intros H E. rewrite E in H. discriminate H.
Qed.

(** On numbers that are not [NaN], [!(a < b)] is [a >= b]. *)
Lemma not_lt_is_ge (a b : float) :
  Js.isNaN a = false -> Js.isNaN b = false ->
  Js.lt a b = negb (Js.ge a b).
Proof.
  intros Ha Hb. unfold Js.lt, Js.ge.
  rewrite ltb_spec, leb_spec. unfold SFltb, SFleb.
  rewrite (SFcompare_swap (Prim2SF a) (Prim2SF b)).
  pose proof (SFcompare_defined _ _ (not_nan_spec a Ha) (not_nan_spec b Hb)) as D.
  destruct (SFcompare (Prim2SF a) (Prim2SF b)) as [[ | | ]|]; cbn;
    congruence.
Qed.

(** A comparison with [NaN] is false. *)
Lemma lt_nan_r (a : float) : Js.lt a nan = false.
Proof.
  unfold Js.lt. rewrite ltb_spec. unfold SFltb.
  rewrite (SFcompare_swap (Prim2SF nan) (Prim2SF a)).
  reflexivity.
Qed.

Lemma ge_nan_r (a : float) : Js.ge a nan = false.
Proof.
  unfold Js.ge. rewrite leb_spec. reflexivity.
Qed.





(** What [x || 0] evaluates to is never [NaN]. *)
Lemma orNum_zero_not_nan (v : Js.field Js.number) :
  Js.isNaN (Js.orNum v 0%float) = false.
Proof.
  unfold Js.orNum. destruct v as [a|]; [|reflexivity].
  unfold Js.truthyNum.
  destruct (PrimFloat.eqb a 0); cbn; [reflexivity|].
  destruct (Js.isNaN a) eqn:E; cbn; [reflexivity|exact E].
Qed.

(** [x || 0] applied twice is [x || 0]. *)
Lemma orNum_zero_idem (v : Js.field Js.number) :
  Js.orNum (Some (Js.orNum v 0%float)) 0%float = Js.orNum v 0%float.
Proof.
  unfold Js.orNum at 1.
  destruct (Js.truthyNum (Js.orNum v 0%float)) eqn:E; [reflexivity|].
  unfold Js.orNum in *. destruct v as [a|]; [|reflexivity].
  destruct (Js.truthyNum a) eqn:Ta; [congruence|reflexivity].
Qed.

End JsFacts.

(* ------------------------------------------------------------------ *)
(** ** The rule engine                                                  *)
(* ------------------------------------------------------------------ *)

Section RuleEngine.

Variable config : Config.

Lemma checkRatioRule_reason t c :
  checkRatioRule config t = Some c -> c = {| torrent := t; reason := Ratio |}.
Proof. unfold checkRatioRule. destruct (_ || _); congruence. Qed.

Lemma checkDeadRule_reason t c :
  checkDeadRule config t = Some c -> c = {| torrent := t; reason := Dead |}.
Proof. unfold checkDeadRule. cbv zeta. destruct (_ || _); congruence. Qed.

Lemma checkTtlRule_reason t c :
  checkTtlRule config t = Some c -> c = {| torrent := t; reason := Ttl |}.
Proof. unfold checkTtlRule. destruct (Js.lt _ _); congruence. Qed.

Lemma evaluate_at_most_one t : (List.length (evaluate config t) <= 1)%nat.
Proof.
  unfold evaluate. cbv zeta.
  destruct (Js.orElse _ _); cbn; lia.
Qed.

Lemma candidates_bounded (eligible : list Torrent) :
  (List.length (flat_map (evaluate config) eligible) <= List.length eligible)%nat.
Proof.
  induction eligible as [|t r IH]; cbn; [lia|].
  rewrite length_app. pose proof (evaluate_at_most_one t). lia.
Qed.

Lemma evaluate_torrent t c : In c (evaluate config t) -> torrent c = t.
Proof.
  unfold evaluate, Js.orElse. cbv zeta.
  destruct (checkRatioRule config t) as [r|] eqn:R.
  - apply checkRatioRule_reason in R. cbn. intros [<-|[]]. now subst.
  - destruct (checkDeadRule config t) as [d|] eqn:D.
    + apply checkDeadRule_reason in D. cbn. intros [<-|[]]. now subst.
    + destruct (checkTtlRule config t) as [x|] eqn:X; cbn; [|tauto].
      apply checkTtlRule_reason in X. intros [<-|[]]. now subst.
Qed.

End RuleEngine.

(** C1. [evaluate] yields at most one candidate for a torrent, so a run
    yields at most one candidate per eligible torrent.  When the ratio
    rule matches, the reason is [Ratio] and no other rule is called;
    when it does not and the dead rule matches, the reason is [Dead] and
    the TTL rule is not called; the TTL rule decides only when the two
    others did not match.  Recording the calls does not change the
    result. *)
Theorem evaluate_first_match_wins :
  forall (config : Config) (t : Torrent),
    let ratio := checkRatioRule config t in
    let dead := checkDeadRule config t in
    let ttl := checkTtlRule config t in
    (List.length (evaluate config t) <= 1)%nat
    /\ (forall eligible,
          (List.length (flat_map (evaluate config) eligible)
           <= List.length eligible)%nat)
    /\ (ratio <> None ->
        evaluate config t = [{| torrent := t; reason := Ratio |}]
        /\ snd (evaluateConsulting config t) = [Ratio])
    /\ (ratio = None -> dead <> None ->
        evaluate config t = [{| torrent := t; reason := Dead |}]
        /\ snd (evaluateConsulting config t) = [Ratio; Dead])
    /\ (ratio = None -> dead = None -> ttl <> None ->
        evaluate config t = [{| torrent := t; reason := Ttl |}]
        /\ snd (evaluateConsulting config t) = [Ratio; Dead; Ttl])
    /\ (ratio = None -> dead = None -> ttl = None ->
        evaluate config t = [])
    /\ fst (evaluateConsulting config t) = evaluate config t.
Proof.
  intros config t ratio dead ttl.
  split; [apply evaluate_at_most_one|].
  split; [apply candidates_bounded|].
  unfold evaluate, evaluateConsulting, orElseConsulting, consult, Js.orElse.
  fold ratio dead ttl.
  pose proof (checkRatioRule_reason config t) as R.
  pose proof (checkDeadRule_reason config t) as D.
  pose proof (checkTtlRule_reason config t) as X.
  fold ratio in R. fold dead in D. fold ttl in X.
  destruct ratio as [r|]; [rewrite (R r eq_refl)|];
    (destruct dead as [d|]; [rewrite (D d eq_refl)|]);
    (destruct ttl as [x|]; [rewrite (X x eq_refl)|]);
    cbn; repeat split; intros; congruence.
Qed.

(** The three rules all match on this torrent (ratio 3 with threshold 2,
    40 % done and 200 h old): the reason reported is the ratio. *)
Lemma evaluate_first_match_wins_witness :
  evaluate (Sample.config [] false)
           (Sample.torrent 1 "radarr" [] 40 3 200)
  = [{| torrent := Sample.torrent 1 "radarr" [] 40 3 200; reason := Ratio |}]
  /\ snd (evaluateConsulting (Sample.config [] false)
                             (Sample.torrent 1 "radarr" [] 40 3 200))
     = [Ratio].
Proof.
  apply (evaluate_first_match_wins (Sample.config [] false)
           (Sample.torrent 1 "radarr" [] 40 3 200)).
  vm_compute. discriminate.
Defined.

(** The [-1] test of the ratio rule needs no assumption on the numbers. *)
Lemma checkRatioRule_sentinel config t :
  Js.strictEq (uploadRatio t) (-1)%float = true ->
  checkRatioRule config t = None.
Proof. unfold checkRatioRule. intros ->. reflexivity. Qed.




(** The ratio a hydrated torrent carries is never [NaN]. *)
Lemma hydrate_ratio_not_nan now raw :
  Js.isNaN (uploadRatio (hydrate now raw)) = false.
Proof. exact (JsFacts.orNum_zero_not_nan (Some (raw_uploadRatio raw))). Qed.

(** Against a threshold that is [NaN] the comparison [<] is false, so
    the rule matches every ratio but [-1]. *)
Lemma checkRatioRule_nan_threshold config t :
  maxRatio config = nan ->
  Js.strictEq (uploadRatio t) (-1)%float = false ->
  checkRatioRule config t = Some {| torrent := t; reason := Ratio |}
  /\ Js.ge (uploadRatio t) (maxRatio config) = false.
Proof.
  intros Hm Hs. unfold checkRatioRule.
  rewrite Hs, Hm, JsFacts.lt_nan_r, JsFacts.ge_nan_r. split; reflexivity.
Qed.

(** C9. The two [|| 0] defaultings, at fetch and at hydration, leave a
    reported ratio of [-1] as it is, and the ratio rule then returns
    [null] whatever the threshold; a ratio that is absent, [null] or [0]
    arrives as [0]. *)
Theorem defaulting_preserves_sentinel :
  forall (nowSeconds : Js.number) (w : WireTorrent) (config : Config),
    let t := hydrate nowSeconds (normalizeTorrent w) in
    (w_uploadRatio w = Some (-1)%float ->
     uploadRatio t = (-1)%float /\ checkRatioRule config t = None)
    /\ (w_uploadRatio w = None -> uploadRatio t = 0%float)
    /\ (w_uploadRatio w = Some 0%float -> uploadRatio t = 0%float)
    /\ uploadRatio t = Js.orNum (w_uploadRatio w) 0%float.
Proof.
  intros nowSeconds w config t.
  assert (E : uploadRatio t = Js.orNum (w_uploadRatio w) 0%float).
  { exact (JsFacts.orNum_zero_idem (w_uploadRatio w)). }
  split; [|split; [|split]]; try exact E.
  - intros Hw. rewrite Hw in E. split; [exact E|].
    apply checkRatioRule_sentinel. rewrite E. reflexivity.
  - intros Hw. rewrite Hw in E. exact E.
  - intros Hw. rewrite Hw in E. exact E.
Qed.

(* ------------------------------------------------------------------ *)
(** ** One call of [rpc]                                                *)
(* ------------------------------------------------------------------ *)

Lemma exchanged_traced w method args retryCount token :
  exchanged w method args retryCount token
  = {| sessionId := match token with Some s => Some s | None => sessionId w end;
       authHeader := authHeader w; isFirstRun := isFirstRun w;
       daemon := daemon w; fetched := S (fetched w);
       trace := (trace w ++ [EvCall (CallRpc method args retryCount)])
                ++ [EvFetch (requestOf w method args)] |}.
Proof. unfold exchanged. rewrite <- app_assoc. reflexivity. Qed.

(** [rpc], unfolded once and read by what the daemon answers. *)
Lemma rpc_by_answer method args retryCount w :
  rpc method args retryCount w =
  match daemon w (fetched w) with
  | FetchRejects err =>
      (Throws (wrapRpcError err), exchanged w method args retryCount None)
  | FetchResolves r =>
      let w' := exchanged w method args retryCount (headerOf (sessionHeader r)) in
      if (status r =? 409)%nat then
        if (2 <=? retryCount)%nat
        then (Throws (wrapRpcError negotiationFailed), w')
        else rpc method args (retryCount + 1) w'
      else (answerOf r, w')
  end.
Proof.
  rewrite rpc_equation_1.
  unfold bind at 1, emit, rpcTry, bind, getAuthHeader, getSessionId,
    tryCatch, fetch, throw, ret, setSessionId.
  cbn [daemon fetched trace sessionId authHeader isFirstRun].
  destruct (daemon w (fetched w)) as [err|r].
  - rewrite exchanged_traced. reflexivity.
  - cbv zeta. rewrite !exchanged_traced.
    unfold requestOf.
    destruct (Nat.leb_spec 2 retryCount) as [L|L];
      destruct (le_lt_dec 2 retryCount) as [L'|L']; try lia;
      destruct (status r =? 409)%nat eqn:S409; cbn [orb];
      unfold answerOf;
      destruct (sessionHeader r) as [hdr|]; cbn [headerOf];
      try destruct (Js.truthyStr hdr);
      cbn [daemon fetched trace sessionId authHeader isFirstRun];
      try reflexivity;
      (destruct (ok r); cbn [negb]; [|reflexivity]);
      (destruct (body r) as [pe|res arg]; [reflexivity|]);
      (destruct (String.eqb res "success"); reflexivity).
Qed.

Lemma retransmission_weaken method args k k' e :
  k' <= k -> retransmission method args k e -> retransmission method args k' e.
Proof.
  intros Hk. destruct e as [[m a j| |]| | |]; cbn; try tauto.
  intros (-> & -> & Hj). repeat split. lia.
Qed.

(** What a call of [rpc] leaves unchanged, how many requests it sends and
    what it puts on the trace: its own entry and request, then only
    retransmissions of the same call. *)
Lemma rpc_frame method args retryCount w :
  let w' := snd (rpc method args retryCount w) in
  daemon w' = daemon w
  /\ authHeader w' = authHeader w
  /\ isFirstRun w' = isFirstRun w
  /\ fetched w < fetched w' <= fetched w + Nat.max 1 (3 - retryCount)
  /\ exists evs,
       trace w' = trace w ++ EvCall (CallRpc method args retryCount)
                           :: EvFetch (requestOf w method args) :: evs
       /\ Forall (retransmission method args retryCount) evs.
Proof.
  remember (3 - retryCount) as n eqn:En.
  revert retryCount w En.
  induction n as [|n IH]; intros retryCount w En; cbv zeta;
    rewrite rpc_by_answer;
    (destruct (daemon w (fetched w)) as [err|r];
     [cbn; repeat split; try lia; exists []; split; [reflexivity|constructor]|]);
    cbv zeta;
    (destruct (status r =? 409)%nat;
     [|cbn; repeat split; try lia; exists []; split; [reflexivity|constructor]]);
    (destruct (Nat.leb_spec 2 retryCount) as [L|L];
     [cbn; repeat split; try lia; exists []; split; [reflexivity|constructor]|]).
  - lia.
  - specialize (IH (retryCount + 1)
                   (exchanged w method args retryCount (headerOf (sessionHeader r)))
                   ltac:(lia)).
    cbv zeta in IH.
    destruct IH as (Hd & Ha & Hf & Hn & evs & Ht & Hev).
    set (w' := snd (rpc method args (retryCount + 1) _)) in *.
    cbn [daemon authHeader isFirstRun fetched trace exchanged] in *.
    repeat split; try assumption; try lia.
    eexists. split.
    + rewrite Ht, <- app_assoc. cbn [app]. reflexivity.
    + constructor; [cbn; repeat split; lia|].
      constructor; [cbn; split; reflexivity|].
      eapply Forall_impl; [|exact Hev].
      intros e. apply retransmission_weaken. lia.
Qed.

(** The errors of [rpc]. *)
Lemma rpc_error_shape :
  forall (method : string) (args : RpcArgs) (retryCount : nat)
         (w : World) (e : JsError) (w' : World),
    rpc method args retryCount w = (Throws e, w') ->
    exists inner,
      e = wrapRpcError inner
      /\ message e
         = ("Transmission RPC call failed: " ++ message inner)%string
      /\ (daemon w (fetched w' - 1) = FetchRejects inner
          \/ exists r,
               daemon w (fetched w' - 1) = FetchResolves r
               /\ ((status r = 409 /\ inner = negotiationFailed)
                   \/ (status r <> 409 /\ ok r = false
                       /\ inner = mkError ("API request failed: ["
                                           ++ Js.showNat (status r) ++ "] "
                                           ++ statusText r)%string)
                   \/ (ok r = true /\ body r = BodyMalformed inner)
                   \/ (exists result arguments,
                         ok r = true
                         /\ body r = BodyJson result arguments
                         /\ result <> "success"
                         /\ inner = mkError ("RPC error: " ++ result)%string))).
Proof.
  intros method args retryCount.
  remember (3 - retryCount) as n eqn:En. revert retryCount En.
  assert (A : forall r e, status r <> 409 -> answerOf r = Throws e ->
              exists inner,
                e = wrapRpcError inner
                /\ ((status r <> 409 /\ ok r = false
                     /\ inner = mkError ("API request failed: ["
                                         ++ Js.showNat (status r) ++ "] "
                                         ++ statusText r)%string)
                    \/ (ok r = true /\ body r = BodyMalformed inner)
                    \/ (exists result arguments,
                          ok r = true
                          /\ body r = BodyJson result arguments
                          /\ result <> "success"
                          /\ inner = mkError ("RPC error: " ++ result)%string))).
  { intros r e Hs. unfold answerOf.
    destruct (ok r); cbn [negb].
    - destruct (body r) as [pe|res arg].
      + intros [= <-]. exists pe. auto.
      + destruct (String.eqb_spec res "success") as [->|N]; cbn [negb];
          [discriminate|].
        intros [= <-]. eexists. split; [reflexivity|].
        right. right. exists res, arg. auto.
    - intros [= <-]. eexists. split; [reflexivity|]. left. auto. }
  assert (B : forall w r e m a rc tok,
              daemon w (fetched w) = FetchResolves r ->
              status r <> 409 -> answerOf r = Throws e ->
              exists inner,
                e = wrapRpcError inner
                /\ message e
                   = ("Transmission RPC call failed: " ++ message inner)%string
                /\ (daemon w (fetched (exchanged w m a rc tok) - 1)
                    = FetchRejects inner
                    \/ exists r0,
                         daemon w (fetched (exchanged w m a rc tok) - 1)
                         = FetchResolves r0
                         /\ ((status r0 = 409 /\ inner = negotiationFailed)
                             \/ (status r0 <> 409 /\ ok r0 = false
                                 /\ inner = mkError ("API request failed: ["
                                                     ++ Js.showNat (status r0) ++ "] "
                                                     ++ statusText r0)%string)
                             \/ (ok r0 = true /\ body r0 = BodyMalformed inner)
                             \/ (exists result arguments,
                                   ok r0 = true
                                   /\ body r0 = BodyJson result arguments
                                   /\ result <> "success"
                                   /\ inner = mkError ("RPC error: " ++ result)%string)))).
  { intros w r e m a rc tok D Hs Ha.
    destruct (A r e Hs Ha) as (inner & -> & K).
    exists inner. split; [reflexivity|]. split; [reflexivity|].
    right. exists r. cbn [exchanged fetched].
    rewrite Nat.sub_1_r. cbn [Nat.pred]. split; [exact D|]. right. exact K. }
  induction n as [|n IH]; intros retryCount En w e w' H;
    rewrite rpc_by_answer in H;
    destruct (daemon w (fetched w)) as [err|r] eqn:D.
  - injection H as <- <-. exists err. split; [reflexivity|].
    split; [reflexivity|]. left. cbn [exchanged fetched].
    rewrite Nat.sub_1_r. exact D.
  - cbv zeta in H.
    destruct (Nat.eqb_spec (status r) 409) as [S409|S409].
    + destruct (Nat.leb_spec 2 retryCount); [|lia].
      injection H as <- <-. exists negotiationFailed.
      split; [reflexivity|]. split; [reflexivity|].
      right. exists r. cbn [exchanged fetched].
      rewrite Nat.sub_1_r. cbn [Nat.pred]. auto.
    + injection H as Ha <-. eapply B; eassumption.
  - injection H as <- <-. exists err. split; [reflexivity|].
    split; [reflexivity|]. left. cbn [exchanged fetched].
    rewrite Nat.sub_1_r. exact D.
  - cbv zeta in H.
    destruct (Nat.eqb_spec (status r) 409) as [S409|S409].
    + destruct (Nat.leb_spec 2 retryCount).
      * injection H as <- <-. exists negotiationFailed.
        split; [reflexivity|]. split; [reflexivity|].
        right. exists r. cbn [exchanged fetched].
        rewrite Nat.sub_1_r. cbn [Nat.pred]. auto.
      * apply IH in H; [|lia]. cbn [exchanged fetched daemon] in H. exact H.
    + injection H as Ha <-. eapply B; eassumption.
Qed.

Lemma removeCalls_app a b : removeCalls (a ++ b) = removeCalls a ++ removeCalls b.
Proof.
  induction a as [|[[m x k| |ids d]| | |] a IH]; cbn; rewrite ?IH; reflexivity.
Qed.

Lemma sleeps_app a b : sleeps (a ++ b) = sleeps a ++ sleeps b.
Proof.
  induction a as [|[c| |ms|] a IH]; cbn; rewrite ?IH; reflexivity.
Qed.

Lemma attempts_app a b : attempts (a ++ b) = attempts a + attempts b.
Proof.
  induction a as [|[[m x [|k]| |ids d]| | |] a IH]; cbn; rewrite ?IH; reflexivity.
Qed.

Lemma requests_app a b : requests (a ++ b) = requests a ++ requests b.
Proof.
  induction a as [|[c|req| |] a IH]; cbn; rewrite ?IH; reflexivity.
Qed.

(** The requests a call of [rpc] puts on the trace are as many as the
    daemon's outcomes it consumes. *)
Lemma rpc_requests_count method args retryCount w :
  exists evs,
    trace (snd (rpc method args retryCount w)) = trace w ++ evs
    /\ List.length (requests evs)
       = fetched (snd (rpc method args retryCount w)) - fetched w.
Proof.
  remember (3 - retryCount) as n eqn:En. revert retryCount w En.
  assert (B : forall w rc tok,
              exists evs,
                trace (exchanged w method args rc tok) = trace w ++ evs
                /\ List.length (requests evs)
                   = fetched (exchanged w method args rc tok) - fetched w).
  { intros w rc tok. eexists. split; [reflexivity|].
    cbn [exchanged fetched requests List.length]. lia. }
  induction n as [|n IH]; intros retryCount w En;
    rewrite rpc_by_answer;
    (destruct (daemon w (fetched w)) as [err|r]; [apply B|]);
    cbv zeta;
    (destruct (status r =? 409)%nat; [|apply B]);
    (destruct (Nat.leb_spec 2 retryCount); [apply B|]).
  - lia.
  - destruct (IH (retryCount + 1)
                 (exchanged w method args retryCount (headerOf (sessionHeader r)))
                 ltac:(lia)) as (evs & Ht & Hl).
    pose proof (rpc_frame method args (retryCount + 1)
                  (exchanged w method args retryCount (headerOf (sessionHeader r))))
      as F. cbv zeta in F. destruct F as (_ & _ & _ & Fn & _).
    cbn [exchanged trace fetched] in *.
    eexists. rewrite Ht, <- app_assoc. split; [reflexivity|].
    rewrite requests_app, length_app, Hl.
    cbn [requests List.length]. lia.
Qed.

Lemma retransmissions_quiet method args k evs :
  Forall (retransmission method args k) evs ->
  removeCalls evs = [] /\ sleeps evs = [] /\ attempts evs = 0
  /\ logged evs = []
  /\ Forall (fun req => req_method req = method /\ req_args req = args)
            (requests evs).
Proof.
  induction 1 as [|e evs He _ (IH1 & IH2 & IH3 & IH4 & IH5)]; cbn.
  - repeat split; constructor.
  - destruct e as [[m a [|j]| |]| | |]; cbn in He; try tauto;
      try (destruct He as (_ & _ & Hj); lia);
      repeat split; try assumption.
    constructor; assumption.
Qed.

Lemma headerOf_token tok : tok <> "" -> headerOf (Some tok) = Some tok.
Proof. destruct tok; [congruence|reflexivity]. Qed.

Lemma negotiationFailed_not_connectivity :
  isConnectivityMessage (message (wrapRpcError negotiationFailed)) = false.
Proof. vm_compute. reflexivity. Qed.

(** C4. A call of [rpc] sends its request with the token the client
    holds.  When the answer is a 409 and fewer than two retransmissions
    were made, the token of the answer (if it has one, a non-empty
    string) is stored and the
    same call is made again, with [retryCount + 1], from the world that
    holds the new token; at [retryCount >= 2] the 409 ends the call with
    the negotiation error, whose message is not a connectivity message.
    So three 409 answers in a row end a call after three requests, and no
    call sends more than three.  A token on an answer of any status is
    stored: it is what the next request carries. *)
Theorem rpc_session_negotiation :
  forall (method : string) (args : RpcArgs) (w : World),
    (forall rc, exists evs,
        trace (snd (rpc method args rc w))
        = trace w ++ EvCall (CallRpc method args rc)
                  :: EvFetch (requestOf w method args) :: evs
        /\ Forall (retransmission method args rc) evs)
    /\ req_session (requestOf w method args) = headerOf (sessionId w)
    /\ (forall rc r,
          daemon w (fetched w) = FetchResolves r -> status r = 409 -> rc < 2 ->
          rpc method args rc w
          = rpc method args (rc + 1)
                (exchanged w method args rc (headerOf (sessionHeader r))))
    /\ (forall rc r tok method' args',
          sessionHeader r = Some tok -> tok <> "" ->
          let w' := exchanged w method args rc (headerOf (sessionHeader r)) in
          sessionId w' = Some tok
          /\ req_session (requestOf w' method' args') = Some tok)
    /\ (forall rc r,
          daemon w (fetched w) = FetchResolves r -> status r = 409 -> 2 <= rc ->
          rpc method args rc w
          = (Throws (wrapRpcError negotiationFailed),
             exchanged w method args rc (headerOf (sessionHeader r))))
    /\ isConnectivityMessage (message (wrapRpcError negotiationFailed)) = false
    /\ (forall r0 r1 r2,
          daemon w (fetched w) = FetchResolves r0 -> status r0 = 409 ->
          daemon w (fetched w + 1) = FetchResolves r1 -> status r1 = 409 ->
          daemon w (fetched w + 2) = FetchResolves r2 -> status r2 = 409 ->
          fst (rpc method args 0 w) = Throws (wrapRpcError negotiationFailed)
          /\ fetched (snd (rpc method args 0 w)) = fetched w + 3)
    /\ fetched (snd (rpc method args 0 w)) <= fetched w + 3
    /\ (forall rc r tok,
          daemon w (fetched w) = FetchResolves r -> status r <> 409 ->
          sessionHeader r = Some tok -> tok <> "" ->
          sessionId (snd (rpc method args rc w)) = Some tok).
Proof.
  intros method args w.
  split.
  { intros rc. pose proof (rpc_frame method args rc w) as F. cbv zeta in F.
    destruct F as (_ & _ & _ & _ & F). exact F. }
  split; [reflexivity|].
  split.
  { intros rc r Hd Hs Hrc. rewrite rpc_by_answer at 1. rewrite Hd. cbv zeta.
    rewrite Hs. cbn [Nat.eqb].
    destruct (Nat.leb_spec 2 rc); [lia|reflexivity]. }
  split.
  { intros rc r tok method' args' Hh Ht. cbv zeta. rewrite Hh.
    rewrite (headerOf_token tok Ht). cbn. split; [reflexivity|].
    apply headerOf_token. exact Ht. }
  split.
  { intros rc r Hd Hs Hrc. rewrite rpc_by_answer. rewrite Hd. cbv zeta.
    rewrite Hs. cbn [Nat.eqb].
    destruct (Nat.leb_spec 2 rc); [reflexivity|lia]. }
  split; [apply negotiationFailed_not_connectivity|].
  split.
  { intros r0 r1 r2 H0 S0 H1 S1 H2 S2.
    replace (fetched w + 1) with (S (fetched w)) in H1 by lia.
    replace (fetched w + 2) with (S (S (fetched w))) in H2 by lia.
    rewrite rpc_by_answer, H0. cbv zeta. rewrite S0. cbn [Nat.eqb Nat.leb Nat.add].
    rewrite rpc_by_answer. cbn [daemon fetched exchanged].
    rewrite H1. cbv zeta. rewrite S1. cbn [Nat.eqb Nat.leb Nat.add].
    rewrite rpc_by_answer. cbn [daemon fetched exchanged].
    rewrite H2. cbv zeta. rewrite S2. cbn [Nat.eqb Nat.leb].
    cbn [fst snd fetched exchanged]. split; [reflexivity|lia]. }
  split.
  { pose proof (rpc_frame method args 0 w) as F. cbv zeta in F.
    destruct F as (_ & _ & _ & F & _). cbn in F. lia. }
  intros rc r tok Hd Hs Hh Ht. rewrite rpc_by_answer, Hd. cbv zeta.
  destruct (Nat.eqb_spec (status r) 409) as [E|_]; [contradiction|].
  cbn [snd exchanged sessionId]. rewrite Hh, (headerOf_token tok Ht).
  reflexivity.
Qed.

(** The scenario of the specification: a 409 with a fresh token, then
    success.  The call is made again from the world that holds the token,
    it returns the payload, and the second request carries the token, as
    does the request of the next call. *)
Lemma rpc_session_negotiation_witness :
  let w := Sample.world
             (Sample.script [FetchResolves (Sample.conflict (Some "tok"))]
                            (FetchResolves (Sample.success []))) in
  rpc "torrent-get" torrentGet 0 w
  = rpc "torrent-get" torrentGet 1
        (exchanged w "torrent-get" torrentGet 0 (Some "tok"))
  /\ fst (rpc "torrent-get" torrentGet 0 w)
     = Returns (Js.Defined {| torrents := Some [] |})
  /\ map req_session (requests (trace (snd (rpc "torrent-get" torrentGet 0 w))))
     = [None; Some "tok"]
  /\ map req_session
         (requests (trace (snd (removeTorrents [Some 7%float] true
                                  (snd (rpc "torrent-get" torrentGet 0 w))))))
     = [None; Some "tok"; Some "tok"].
Proof.
  cbv zeta. split.
  - refine (proj1 (proj2 (proj2
      (rpc_session_negotiation "torrent-get" torrentGet
         (Sample.world
            (Sample.script [FetchResolves (Sample.conflict (Some "tok"))]
                           (FetchResolves (Sample.success []))))))) 0
      (Sample.conflict (Some "tok")) _ _ _).
    + reflexivity.
    + reflexivity.
    + lia.
  - vm_compute. repeat split; reflexivity.
Defined.

(* ------------------------------------------------------------------ *)
(** ** The retry loop of [getTorrents]                                  *)
(* ------------------------------------------------------------------ *)

Lemma traced_nil w : traced w [] = w.
Proof. destruct w. unfold traced. cbn. rewrite app_nil_r. reflexivity. Qed.

Lemma traced_traced w a b : traced (traced w a) b = traced w (a ++ b).
Proof. unfold traced. cbn. rewrite app_assoc. reflexivity. Qed.

(** One attempt, read by what [rpc] gives. *)
Lemma fetchAttempt_by_rpc attempt w :
  fetchAttempt attempt w =
  match rpc "torrent-get" torrentGet 0 w with
  | (Throws e, w') => (Throws e, w')
  | (Returns Js.Undefined, w') => (Throws undefinedTorrents, w')
  | (Returns Js.Null, w') => (Throws nullTorrents, w')
  | (Returns (Js.Defined payload), w') =>
      (Returns (torrentsOf payload),
       traced w' [fetchedLine attempt (List.length (torrentsOf payload))])
  end.
Proof.
  unfold fetchAttempt, bind, torrentGet.
  destruct (rpc _ _ 0 w) as [[[| |payload]|e] w']; try reflexivity.
  unfold fetchedLine, torrentsOf.
  destruct (1 <? attempt)%nat; reflexivity.
Qed.

(** One iteration of the loop, read by what the attempt gives: every
    error is handled the same way but for the lines logged. *)
Lemma getTorrentsLoop_step remaining attempt w :
  getTorrentsLoop (S remaining) attempt w =
  match fetchAttempt attempt w with
  | (Returns torrents, w') => (Returns torrents, w')
  | (Throws e, w') =>
      if (30 <=? attempt)%nat
      then (Throws e, traced w' (rethrowEvents attempt e))
      else getTorrentsLoop remaining (S attempt) (traced w' (retryEvents attempt e))
  end.
Proof.
  cbn [getTorrentsLoop]. unfold bind at 1, tryCatch, bind at 1.
  destruct (fetchAttempt attempt w) as [[torrents|e] w']; [reflexivity|].
  unfold fetchCatch, rethrowEvents, retryEvents.
  destruct (isConnectivityMessage (message e)); cbn [andb].
  - destruct (Nat.eqb_spec attempt 1) as [->|N1].
    + cbn. unfold traced. rewrite <- app_assoc. reflexivity.
    + destruct (Nat.ltb_spec attempt 30) as [L|L].
      * destruct (Nat.leb_spec 30 attempt); [lia|].
        destruct (Nat.eqb_spec attempt 30); [lia|]. reflexivity.
      * destruct (Nat.leb_spec 30 attempt); [|lia].
        destruct (Nat.eqb_spec attempt 30) as [->|N30].
        -- cbn. reflexivity.
        -- cbn. rewrite traced_nil. reflexivity.
  - destruct (Nat.leb_spec 30 attempt).
    + cbn. rewrite traced_nil. reflexivity.
    + reflexivity.
Qed.

Lemma removalRequests_app a b :
  removalRequests (a ++ b) = removalRequests a ++ removalRequests b.
Proof. unfold removalRequests. rewrite requests_app. apply filter_app. Qed.

Lemma removalRequests_torrent_get args k evs :
  Forall (retransmission "torrent-get" args k) evs ->
  removalRequests evs = [].
Proof.
  intros H. apply retransmissions_quiet in H.
  destruct H as (_ & _ & _ & _ & H). unfold removalRequests.
  induction H as [|req reqs (Hm & _) _ IH]; [reflexivity|].
  cbn. rewrite Hm. exact IH.
Qed.

(** What one attempt leaves unchanged and adds to the trace: one call of
    [rpc] with [retryCount = 0], no delay, no removal. *)
Lemma fetchAttempt_frame attempt w :
  let w' := snd (fetchAttempt attempt w) in
  daemon w' = daemon w
  /\ authHeader w' = authHeader w
  /\ isFirstRun w' = isFirstRun w
  /\ fetched w < fetched w' <= fetched w + 3
  /\ exists evs,
       trace w' = trace w ++ evs
       /\ attempts evs = 1 /\ sleeps evs = [] /\ removeCalls evs = []
       /\ removalRequests evs = [].
Proof.
  cbv zeta. rewrite fetchAttempt_by_rpc.
  pose proof (rpc_frame "torrent-get" torrentGet 0 w) as F. cbv zeta in F.
  destruct F as (Hd & Ha & Hf & Hn & evs & Ht & Hev).
  pose proof (removalRequests_torrent_get _ _ _ Hev) as Q4.
  apply retransmissions_quiet in Hev.
  destruct Hev as (Q1 & Q2 & Q3 & _).
  cbn [Nat.sub Nat.max] in Hn.
  assert (Q : forall tail,
             attempts tail = 0 -> sleeps tail = [] -> removeCalls tail = [] ->
             removalRequests tail = [] ->
             let all := (EvCall (CallRpc "torrent-get" torrentGet 0)
                         :: EvFetch (requestOf w "torrent-get" torrentGet) :: evs)
                        ++ tail in
             attempts all = 1 /\ sleeps all = [] /\ removeCalls all = []
             /\ removalRequests all = []).
  { intros tail T1 T2 T3 T4. cbv zeta.
    rewrite attempts_app, sleeps_app, removeCalls_app, removalRequests_app.
    rewrite T1, T2, T3, T4.
    change (removalRequests (EvCall (CallRpc "torrent-get" torrentGet 0)
                             :: EvFetch (requestOf w "torrent-get" torrentGet) :: evs))
      with (removalRequests evs).
    cbn. rewrite Q1, Q2, Q3, Q4. repeat split. }
  destruct (rpc "torrent-get" torrentGet 0 w) as [[[| |payload]|e] w'];
    cbn [snd fst] in *; cbn [traced daemon authHeader isFirstRun fetched trace];
    repeat (split; [assumption || lia|]).
  - eexists. split; [exact Ht|].
    specialize (Q [] eq_refl eq_refl eq_refl eq_refl). cbv zeta in Q.
    rewrite app_nil_r in Q. exact Q.
  - eexists. split; [exact Ht|].
    specialize (Q [] eq_refl eq_refl eq_refl eq_refl). cbv zeta in Q.
    rewrite app_nil_r in Q. exact Q.
  - eexists. rewrite Ht, <- app_assoc. split; [reflexivity|].
    apply Q;
      unfold fetchedLine; destruct (1 <? attempt)%nat; reflexivity.
  - eexists. split; [exact Ht|].
    specialize (Q [] eq_refl eq_refl eq_refl eq_refl). cbv zeta in Q.
    rewrite app_nil_r in Q. exact Q.
Qed.

Lemma rethrowEvents_quiet attempt e :
  attempts (rethrowEvents attempt e) = 0
  /\ sleeps (rethrowEvents attempt e) = []
  /\ removeCalls (rethrowEvents attempt e) = []
  /\ removalRequests (rethrowEvents attempt e) = [].
Proof. unfold rethrowEvents. destruct (_ && _)%bool; repeat split. Qed.

Lemma retryEvents_quiet attempt e :
  attempts (retryEvents attempt e) = 0
  /\ sleeps (retryEvents attempt e) = [1000]
  /\ removeCalls (retryEvents attempt e) = []
  /\ removalRequests (retryEvents attempt e) = [].
Proof. unfold retryEvents. destruct (_ && _)%bool; repeat split. Qed.

(** The loop with [remaining] iterations left makes at most [remaining]
    attempts, every delay it awaits is 1000 ms, and it removes nothing. *)
Lemma getTorrentsLoop_frame remaining :
  forall attempt w,
    let w' := snd (getTorrentsLoop remaining attempt w) in
    daemon w' = daemon w
    /\ authHeader w' = authHeader w
    /\ isFirstRun w' = isFirstRun w
    /\ exists evs,
         trace w' = trace w ++ evs
         /\ attempts evs <= remaining
         /\ Forall (eq 1000) (sleeps evs)
         /\ removeCalls evs = []
         /\ removalRequests evs = [].
Proof.
  induction remaining as [|remaining IH]; intros attempt w; cbv zeta.
  - cbn. repeat split. exists []. rewrite app_nil_r. repeat split; auto.
  - rewrite getTorrentsLoop_step.
    pose proof (fetchAttempt_frame attempt w) as F. cbv zeta in F.
    destruct F as (Hd & Ha & Hf & _ & evs & Ht & A1 & A2 & A3 & A4).
    destruct (fetchAttempt attempt w) as [[torrents|e] w1]; cbn [snd] in *.
    + repeat (split; [assumption|]). exists evs.
      rewrite A1, A2, A3, A4. repeat split; auto; lia.
    + destruct (30 <=? attempt)%nat.
      * cbn [snd traced daemon authHeader isFirstRun trace].
        repeat (split; [assumption|]).
        destruct (rethrowEvents_quiet attempt e) as (R1 & R2 & R3 & R4).
        exists (evs ++ rethrowEvents attempt e).
        rewrite Ht, <- app_assoc, attempts_app, sleeps_app, removeCalls_app,
          removalRequests_app.
        rewrite A1, A2, A3, A4, R1, R2, R3, R4. repeat split; auto; lia.
      * specialize (IH (S attempt) (traced w1 (retryEvents attempt e))).
        cbv zeta in IH.
        destruct IH as (Id & Ia & If & evs' & It & I1 & I2 & I3 & I4).
        cbn [traced daemon authHeader isFirstRun trace] in *.
        repeat (split; [congruence|]).
        destruct (retryEvents_quiet attempt e) as (R1 & R2 & R3 & R4).
        exists (evs ++ retryEvents attempt e ++ evs').
        rewrite It, Ht, <- !app_assoc. split; [reflexivity|].
        rewrite !attempts_app, !sleeps_app, !removeCalls_app,
          !removalRequests_app.
        rewrite A1, A2, A3, A4, R1, R2, R3, R4, I3, I4. cbn.
        repeat split; auto; try lia.
Qed.

Lemma getTorrents_by_loop w :
  getTorrents w = getTorrentsLoop 30 1 (traced w [EvCall CallGetTorrents]).
Proof. reflexivity. Qed.

Lemma answers_app d n a b :
  answers d n (a ++ b) -> answers d n a /\ answers d (n + List.length a) b.
Proof.
  intros H. split; intros i o Hi.
  - apply H. rewrite nth_error_app1; [exact Hi|].
    apply nth_error_Some. congruence.
  - rewrite <- Nat.add_assoc. apply H. rewrite nth_error_app2 by lia.
    replace (List.length a + i - List.length a) with i by lia. exact Hi.
Qed.

(** A call of [rpc] that meets a negotiation and then an outcome that is
    not a 409: it ends with what that outcome gives, after one request
    for each. *)
Lemma rpc_negotiated method args conflicts final :
  forall retryCount w,
    retryCount + List.length conflicts <= 2 ->
    Forall (fun r => status r = 409) conflicts ->
    (forall r, final = FetchResolves r -> status r <> 409) ->
    answers (daemon w) (fetched w) (map FetchResolves conflicts ++ [final]) ->
    fst (rpc method args retryCount w)
    = match final with
      | FetchRejects e => Throws (wrapRpcError e)
      | FetchResolves r => answerOf r
      end
    /\ fetched (snd (rpc method args retryCount w))
       = fetched w + List.length conflicts + 1.
Proof.
  induction conflicts as [|c conflicts IH]; intros rc w Hrc Hc Hf Ha.
  - pose proof (Ha 0 final eq_refl) as H0. rewrite Nat.add_0_r in H0.
    rewrite rpc_by_answer, H0. destruct final as [e|r].
    + cbn [fst snd exchanged fetched List.length]. split; [reflexivity|lia].
    + cbv zeta.
      destruct (Nat.eqb_spec (status r) 409) as [E|_];
        [exfalso; apply (Hf r eq_refl E)|].
      cbn [fst snd exchanged fetched List.length]. split; [reflexivity|lia].
  - inversion Hc as [|? ? H409 Hc']; subst.
    pose proof (Ha 0 (FetchResolves c) eq_refl) as H0. rewrite Nat.add_0_r in H0.
    cbn [List.length] in Hrc.
    rewrite rpc_by_answer, H0. cbv zeta. rewrite H409, Nat.eqb_refl.
    destruct (Nat.leb_spec 2 rc); [lia|].
    destruct (IH (rc + 1)
                 (exchanged w method args rc (headerOf (sessionHeader c))))
      as (I1 & I2); [lia|exact Hc'|exact Hf| |].
    { intros i o Hi. cbn [exchanged daemon fetched].
      rewrite <- (Ha (S i) o Hi). f_equal. lia. }
    cbn [exchanged fetched] in I2. split; [exact I1|].
    rewrite I2. cbn [List.length]. lia.
Qed.

(** What one attempt puts on the trace: one entry of [rpc], no delay,
    and one request for each outcome of the daemon it consumes. *)
Lemma fetchAttempt_requests attempt w :
  exists evs,
    trace (snd (fetchAttempt attempt w)) = trace w ++ evs
    /\ attempts evs = 1 /\ sleeps evs = []
    /\ List.length (requests evs)
       = fetched (snd (fetchAttempt attempt w)) - fetched w.
Proof.
  pose proof (fetchAttempt_frame attempt w) as F. cbv zeta in F.
  destruct F as (_ & _ & _ & _ & evs & Ht & A1 & A2 & _).
  exists evs. split; [exact Ht|]. split; [exact A1|]. split; [exact A2|].
  rewrite fetchAttempt_by_rpc in *.
  destruct (rpc_requests_count "torrent-get" torrentGet 0 w) as (revs & Hr & Hl).
  destruct (rpc "torrent-get" torrentGet 0 w) as [[[| |payload]|e] w'];
    cbn [snd traced trace fetched] in *;
    rewrite Hr in Ht; try rewrite <- app_assoc in Ht;
    apply app_inv_head in Ht; subst evs;
    rewrite ?requests_app, ?length_app; cbn [requests List.length];
    try (unfold fetchedLine; destruct (1 <? attempt)%nat;
         cbn [requests List.length]);
    lia.
Qed.

(** An attempt that meets a negotiation and then a rejected request. *)
Lemma fetchAttempt_unreachable attempt w conflicts e :
  negotiation conflicts ->
  answers (daemon w) (fetched w) (map FetchResolves conflicts ++ [FetchRejects e]) ->
  fst (fetchAttempt attempt w) = Throws (wrapRpcError e)
  /\ fetched (snd (fetchAttempt attempt w)) = fetched w + List.length conflicts + 1.
Proof.
  intros (Hl & Hc) Ha.
  destruct (rpc_negotiated "torrent-get" torrentGet conflicts (FetchRejects e)
              0 w Hl Hc ltac:(discriminate) Ha) as (R1 & R2).
  rewrite fetchAttempt_by_rpc.
  destruct (rpc "torrent-get" torrentGet 0 w) as [[[| |payload]|e'] w'];
    cbn [fst snd] in *; try discriminate.
  injection R1 as ->. split; [reflexivity|exact R2].
Qed.

(** An attempt that meets a negotiation and then a success. *)
Lemma fetchAttempt_succeeds attempt w conflicts r sent :
  negotiation conflicts ->
  ok r = true ->
  body r = BodyJson "success" (Js.Defined {| torrents := sent |}) ->
  answers (daemon w) (fetched w) (map FetchResolves conflicts ++ [FetchResolves r]) ->
  fst (fetchAttempt attempt w) = Returns (map normalizeTorrent (sentList sent))
  /\ fetched (snd (fetchAttempt attempt w)) = fetched w + List.length conflicts + 1.
Proof.
  intros (Hl & Hc) Hok Hb Ha.
  assert (H409 : forall r', FetchResolves r = FetchResolves r' -> status r' <> 409).
  { intros r' [= <-] E. unfold ok in Hok. rewrite E in Hok. discriminate Hok. }
  destruct (rpc_negotiated "torrent-get" torrentGet conflicts (FetchResolves r)
              0 w Hl Hc H409 Ha) as (R1 & R2).
  assert (A : answerOf r = Returns (Js.Defined {| torrents := sent |})).
  { unfold answerOf. rewrite Hok, Hb. reflexivity. }
  rewrite A in R1.
  rewrite fetchAttempt_by_rpc.
  destruct (rpc "torrent-get" torrentGet 0 w) as [[[| |payload]|e'] w'];
    cbn [fst snd] in *; try discriminate.
  injection R1 as ->. cbn [traced fetched]. split; [|exact R2].
  unfold torrentsOf. cbn [torrents]. destruct sent; reflexivity.
Qed.

(** Attempts that fail in a row, below the bound of 30: the loop makes
    them all, awaits 1000 ms after each and is then at the attempt that
    follows, with as many iterations less to go. *)
Lemma getTorrentsLoop_unreachable failed :
  forall remaining attempt w,
    Forall (fun a => negotiation (fst a)) failed ->
    answers (daemon w) (fetched w) (flat_map attemptOutcomes failed) ->
    attempt + List.length failed <= 30 ->
    exists wj,
      getTorrentsLoop (List.length failed + remaining) attempt w
      = getTorrentsLoop remaining (attempt + List.length failed) wj
      /\ daemon wj = daemon w
      /\ fetched wj = fetched w + List.length (flat_map attemptOutcomes failed)
      /\ exists evs,
           trace wj = trace w ++ evs
           /\ attempts evs = List.length failed
           /\ sleeps evs = repeat 1000 (List.length failed)
           /\ List.length (requests evs)
              = List.length (flat_map attemptOutcomes failed).
Proof.
  induction failed as [|a failed IH]; intros remaining attempt w Hn Ha Hbound.
  - exists w. cbn [List.length Nat.add flat_map]. rewrite !Nat.add_0_r.
    repeat split. exists []. rewrite app_nil_r. repeat split.
  - inversion Hn as [|? ? Hna Hn']; subst.
    cbn [flat_map] in Ha. apply answers_app in Ha. destruct Ha as (Ha1 & Ha2).
    cbn [List.length] in Hbound.
    destruct (fetchAttempt_unreachable attempt w (fst a) (snd a) Hna Ha1)
      as (F1 & F2).
    destruct (fetchAttempt_requests attempt w) as (evs1 & Ht1 & A1 & A2 & A3).
    pose proof (fetchAttempt_frame attempt w) as F. cbv zeta in F.
    destruct F as (Hd & _).
    cbn [List.length Nat.add]. rewrite getTorrentsLoop_step.
    destruct (fetchAttempt attempt w) as [[torrents|e] w1];
      cbn [fst snd] in *; [discriminate|].
    injection F1 as ->.
    destruct (Nat.leb_spec 30 attempt); [lia|].
    set (w2 := traced w1 (retryEvents attempt (wrapRpcError (snd a)))).
    destruct (IH remaining (S attempt) w2)
      as (wj & Hl & Hdj & Hfj & evs & Ht & B1 & B2 & B3); [exact Hn'| |lia|].
    { subst w2. cbn [traced daemon fetched]. rewrite Hd, F2.
      replace (fetched w + List.length (fst a) + 1)
        with (fetched w + List.length (attemptOutcomes a)); [exact Ha2|].
      unfold attemptOutcomes. rewrite length_app, length_map.
      cbn [List.length]. lia. }
    exists wj. subst w2. cbn [traced daemon fetched trace] in *.
    replace (attempt + S (List.length failed))
      with (S attempt + List.length failed) by lia.
    split; [exact Hl|]. split; [congruence|].
    cbn [flat_map]. rewrite length_app.
    assert (La : List.length (attemptOutcomes a) = List.length (fst a) + 1).
    { unfold attemptOutcomes. rewrite length_app, length_map. reflexivity. }
    split; [lia|].
    destruct (retryEvents_quiet attempt (wrapRpcError (snd a))) as (R1 & R2 & _).
    exists (evs1 ++ retryEvents attempt (wrapRpcError (snd a)) ++ evs).
    rewrite Ht, Ht1, <- !app_assoc. split; [reflexivity|].
    rewrite !attempts_app, !sleeps_app, !requests_app, !length_app.
    rewrite A1, A2, A3, R1, R2, B1, B2, B3. cbn [app repeat Nat.add].
    split; [reflexivity|]. split; [reflexivity|].
    assert (L0 : List.length (requests (retryEvents attempt (wrapRpcError (snd a))))
                 = 0).
    { unfold retryEvents. destruct (_ && _)%bool; reflexivity. }
    rewrite L0. lia.
Qed.

(** What [getTorrents] builds from the torrents of an answer is these
    torrents, in order, with the fields that were not sent defaulted. *)
Lemma normalizeTorrent_delivered sent :
  Forall2 delivered sent (map normalizeTorrent sent).
Proof.
  assert (N : forall v, sentNumber v (Js.orNum v 0%float)).
  { intros [x|]; cbn; [destruct (Js.truthyNum x)|]; reflexivity. }
  assert (S : forall v, sentString v (Js.orStr v "")).
  { intros [[|c s]|]; reflexivity. }
  assert (L : forall A (v : Js.field (list A)), Js.orArr v [] = sentList v).
  { intros A [l|]; reflexivity. }
  induction sent as [|t sent IH]; cbn [map]; constructor; [|exact IH].
  unfold delivered, normalizeTorrent.
  cbn [raw_id raw_name raw_percentDone raw_uploadRatio raw_addedDate
       raw_downloadDir raw_labels raw_error raw_errorString raw_trackers].
  rewrite !L.
  repeat (split; [reflexivity || apply N || apply S|]).
  induction (sentList (w_trackers t)) as [|tr trs IHt]; cbn [map]; constructor;
    [|exact IHt].
  unfold deliveredTracker, normalizeTracker. cbn [announce tracker_id scrape tier].
  repeat split; apply N || apply S.
Qed.

(** C5. The daemon cannot be reached for a number of attempts: during
    each, after at most two 409 answers, a request meets a connectivity
    failure.  When fewer than 30 attempts fail so and the next one is
    answered with a success, after a session negotiation or without
    one, [getTorrents] returns the torrents of that answer, in order,
    the fields that were not sent defaulted; it has made one attempt
    more than failed and awaited 1000 ms after each failed one.  When 30
    attempts fail so, it throws the error of the 30th, after 30 attempts
    and 29 delays.  Whatever the daemon does, [getTorrents] makes at
    most 30 attempts and awaits only delays of 1000 ms. *)
Theorem getTorrents_connectivity_retry :
  forall (w : World),
    (forall (failed : list (list Response * JsError))
            (conflicts : list Response) (r : Response)
            (sent : Js.field (list WireTorrent)),
        List.length failed < 30 ->
        Forall unreachableAttempt failed ->
        negotiation conflicts ->
        ok r = true ->
        body r = BodyJson "success" (Js.Defined {| torrents := sent |}) ->
        answers (daemon w) (fetched w)
                (flat_map attemptOutcomes failed
                 ++ map FetchResolves conflicts ++ [FetchResolves r]) ->
        exists got w' evs,
          getTorrents w = (Returns got, w')
          /\ Forall2 delivered (sentList sent) got
          /\ trace w' = trace w ++ evs
          /\ attempts evs = List.length failed + 1
          /\ sleeps evs = repeat 1000 (List.length failed)
          /\ List.length (requests evs)
             = List.length (flat_map attemptOutcomes failed)
               + List.length conflicts + 1)
    /\ (forall (failed : list (list Response * JsError))
               (last : list Response * JsError),
          List.length failed = 29 ->
          Forall unreachableAttempt (failed ++ [last]) ->
          answers (daemon w) (fetched w)
                  (flat_map attemptOutcomes (failed ++ [last])) ->
          exists w' evs,
            getTorrents w = (Throws (wrapRpcError (snd last)), w')
            /\ trace w' = trace w ++ evs
            /\ attempts evs = 30
            /\ sleeps evs = repeat 1000 29
            /\ List.length (requests evs)
               = List.length (flat_map attemptOutcomes (failed ++ [last])))
    /\ (exists evs,
          trace (snd (getTorrents w)) = trace w ++ evs
          /\ attempts evs <= 30
          /\ Forall (eq 1000) (sleeps evs)).
Proof.
  intros w. rewrite getTorrents_by_loop.
  set (w0 := traced w [EvCall CallGetTorrents]).
  assert (Hneg : forall l, Forall unreachableAttempt l ->
                           Forall (fun a => negotiation (fst a)) l).
  { intros l. apply Forall_impl. intros a (H & _). exact H. }
  split; [|split].
  - intros failed conflicts r sent Hj Hfail Hc Hok Hb Ha.
    apply answers_app in Ha. destruct Ha as (Ha1 & Ha2).
    destruct (getTorrentsLoop_unreachable failed (30 - List.length failed) 1 w0
                (Hneg _ Hfail) Ha1 ltac:(lia))
      as (wj & Hl & Hd & Hf & evs & Ht & A1 & A2 & A3).
    replace (List.length failed + (30 - List.length failed)) with 30 in Hl by lia.
    rewrite Hl.
    destruct (30 - List.length failed) as [|remaining] eqn:E; [lia|].
    rewrite getTorrentsLoop_step.
    destruct (fetchAttempt_succeeds (1 + List.length failed) wj conflicts r sent
                Hc Hok Hb) as (F1 & F2).
    { rewrite Hd, Hf. exact Ha2. }
    destruct (fetchAttempt_requests (1 + List.length failed) wj)
      as (evs1 & Ht1 & B1 & B2 & B3).
    destruct (fetchAttempt (1 + List.length failed) wj) as [[got|e] w1];
      cbn [fst snd] in *; [|discriminate].
    injection F1 as ->.
    exists (map normalizeTorrent (sentList sent)), w1,
      (EvCall CallGetTorrents :: evs ++ evs1).
    split; [reflexivity|]. split; [apply normalizeTorrent_delivered|].
    split.
    { rewrite Ht1, Ht. subst w0. cbn [traced trace].
      rewrite <- !app_assoc. reflexivity. }
    cbn [attempts sleeps requests].
    rewrite attempts_app, sleeps_app, requests_app, length_app.
    rewrite A1, A2, A3, B1, B2, B3, app_nil_r.
    split; [reflexivity|]. split; [reflexivity|]. lia.
  - intros failed last H29 Hfail Ha.
    rewrite flat_map_app in Ha. cbn [flat_map] in Ha. rewrite app_nil_r in Ha.
    pose proof Ha as Hall.
    apply answers_app in Ha. destruct Ha as (Ha1 & Ha2).
    apply Forall_app in Hfail. destruct Hfail as (Hfail & Hlast).
    inversion Hlast as [|? ? (Hnl & Hcl) _]; subst.
    destruct (getTorrentsLoop_unreachable failed 1 1 w0 (Hneg _ Hfail) Ha1
                ltac:(lia))
      as (wj & Hl & Hd & Hf & evs & Ht & A1 & A2 & A3).
    rewrite H29 in Hl. change (29 + 1) with 30 in Hl. rewrite Hl.
    change (1 + 29) with 30. rewrite getTorrentsLoop_step.
    destruct (fetchAttempt_unreachable 30 wj (fst last) (snd last) Hnl)
      as (F1 & F2).
    { rewrite Hd, Hf. exact Ha2. }
    destruct (fetchAttempt_requests 30 wj) as (evs1 & Ht1 & B1 & B2 & B3).
    destruct (fetchAttempt 30 wj) as [[got|e] w1];
      cbn [fst snd] in *; [discriminate|].
    injection F1 as ->.
    cbn [Nat.leb].
    exists (traced w1 (rethrowEvents 30 (wrapRpcError (snd last)))),
      (EvCall CallGetTorrents
       :: evs ++ evs1 ++ rethrowEvents 30 (wrapRpcError (snd last))).
    split; [reflexivity|].
    split.
    { cbn [traced trace]. rewrite Ht1, Ht. subst w0. cbn [traced trace].
      rewrite <- !app_assoc. reflexivity. }
    cbn [attempts sleeps requests].
    rewrite !attempts_app, !sleeps_app, !requests_app, !length_app.
    destruct (rethrowEvents_quiet 30 (wrapRpcError (snd last))) as (R1 & R2 & _).
    assert (L0 : List.length (requests (rethrowEvents 30 (wrapRpcError (snd last))))
                 = 0).
    { unfold rethrowEvents. destruct (_ && _)%bool; reflexivity. }
    rewrite A1, A2, A3, B1, B2, B3, R1, R2, L0, H29, flat_map_app, length_app.
    cbn [flat_map]. rewrite app_nil_r.
    assert (La : List.length (attemptOutcomes last) = List.length (fst last) + 1).
    { unfold attemptOutcomes. rewrite length_app, length_map. reflexivity. }
    rewrite app_nil_r, La.
    split; [reflexivity|]. split; [reflexivity|]. lia.
  - pose proof (getTorrentsLoop_frame 30 1 w0) as F. cbv zeta in F.
    destruct F as (_ & _ & _ & evs & Ht & A1 & A2 & _).
    exists (EvCall CallGetTorrents :: evs).
    rewrite Ht. subst w0. cbn [traced trace]. rewrite <- app_assoc.
    split; [reflexivity|]. cbn. split; assumption.
Qed.

(** The start of a process next to a daemon that is still coming up: two
    attempts find nothing listening; the third meets a 409 with a session
    token, then the list, which holds one torrent sent without
    [error], [errorString] and tracker fields. *)
Lemma getTorrents_connectivity_retry_witness :
  let w := Sample.world
             (Sample.script
                [Sample.unreachable; Sample.unreachable;
                 FetchResolves (Sample.conflict (Some "tok"))]
                (FetchResolves
                   (Sample.success
                      [Sample.wire 1 "radarr" ["http://open.example.org/announce"]
                                   1 2 3600]))) in
  exists w' evs,
    getTorrents w
    = (Returns
         [{| raw_id := Some 1%float; raw_name := Js.Defined "sample";
             raw_percentDone := 1%float; raw_uploadRatio := 2%float;
             raw_addedDate := 3600%float; raw_downloadDir := "/downloads";
             raw_labels := ["radarr"]; raw_error := 0%float;
             raw_errorString := "";
             raw_trackers :=
               [{| announce := "http://open.example.org/announce";
                   tracker_id := 0%float; scrape := ""; tier := 0%float |}] |}],
       w')
    /\ trace w' = trace w ++ evs
    /\ attempts evs = 3
    /\ sleeps evs = [1000; 1000]
    /\ List.length (requests evs) = 4.
Proof.
  cbv zeta.
  destruct (proj1 (getTorrents_connectivity_retry
                     (Sample.world
                        (Sample.script
                           [Sample.unreachable; Sample.unreachable;
                            FetchResolves (Sample.conflict (Some "tok"))]
                           (FetchResolves
                              (Sample.success
                                 [Sample.wire 1 "radarr"
                                    ["http://open.example.org/announce"]
                                    1 2 3600])))))
              [([], mkError "fetch failed"); ([], mkError "fetch failed")]
              [Sample.conflict (Some "tok")]
              (Sample.success
                 [Sample.wire 1 "radarr" ["http://open.example.org/announce"]
                              1 2 3600])
              (Some [Sample.wire 1 "radarr" ["http://open.example.org/announce"]
                                 1 2 3600]))
    as (got & w' & evs & Hget & _ & Ht & Ha & Hs & Hr).
  - cbn. lia.
  - repeat constructor; cbn; lia.
  - split; [cbn; lia|]. repeat constructor.
  - reflexivity.
  - reflexivity.
  - intros [|[|[|[|[|i]]]]] o Hi; cbn in Hi; try discriminate;
      injection Hi as <-; reflexivity.
  - exists w', evs.
    split; [|split; [exact Ht|split; [exact Ha|split; [exact Hs|exact Hr]]]].
    rewrite Hget. f_equal.
    assert (V : fst (getTorrents
                       (Sample.world
                          (Sample.script
                             [Sample.unreachable; Sample.unreachable;
                              FetchResolves (Sample.conflict (Some "tok"))]
                             (FetchResolves
                                (Sample.success
                                   [Sample.wire 1 "radarr"
                                      ["http://open.example.org/announce"]
                                      1 2 3600])))))
                = Returns
                    [{| raw_id := Some 1%float; raw_name := Js.Defined "sample";
                        raw_percentDone := 1%float; raw_uploadRatio := 2%float;
                        raw_addedDate := 3600%float; raw_downloadDir := "/downloads";
                        raw_labels := ["radarr"]; raw_error := 0%float;
                        raw_errorString := "";
                        raw_trackers :=
                          [{| announce := "http://open.example.org/announce";
                              tracker_id := 0%float; scrape := "";
                              tier := 0%float |}] |}])
      by (vm_compute; reflexivity).
    rewrite Hget in V. exact V.
Defined.

(** Below the 30th attempt the [catch] block never rethrows: whatever the
    error, connectivity or not, the loop awaits 1000 ms and makes the next
    attempt. *)
Lemma getTorrentsLoop_retries_every_error remaining attempt w e w1 :
  fetchAttempt attempt w = (Throws e, w1) ->
  attempt < 30 ->
  getTorrentsLoop (S remaining) attempt w
  = getTorrentsLoop remaining (S attempt) (traced w1 (retryEvents attempt e))
  /\ sleeps (retryEvents attempt e) = [1000].
Proof.
  intros Hf Ha. rewrite getTorrentsLoop_step, Hf.
  destruct (Nat.leb_spec 30 attempt); [lia|].
  split; [reflexivity|apply retryEvents_quiet].
Qed.

(** C3, on the code.  The daemon answers the first request with 401
    Unauthorized and the second with a success.  The first attempt throws
    an error whose message is not a connectivity message, and
    [getTorrents] does not throw it: it awaits 1000 ms, makes a second
    attempt and returns its (empty) list.  Against a daemon that always
    answers 401, [getTorrents] makes 30 attempts with 29 delays before it
    throws. *)
Theorem getTorrents_retries_unauthorized :
  let w := Sample.world
             (Sample.script [FetchResolves Sample.unauthorized]
                            (FetchResolves (Sample.success []))) in
  let denied := Sample.world (fun _ => FetchResolves Sample.unauthorized) in
  let err :=
    mkError "Transmission RPC call failed: API request failed: [401] Unauthorized" in
  fst (fetchAttempt 1 w) = Throws err
  /\ isConnectivityMessage (message err) = false
  /\ fst (getTorrents w) = Returns []
  /\ attempts (trace (snd (getTorrents w))) = 2
  /\ sleeps (trace (snd (getTorrents w))) = [1000]
  /\ fst (getTorrents denied) = Throws err
  /\ attempts (trace (snd (getTorrents denied))) = 30
  /\ sleeps (trace (snd (getTorrents denied))) = repeat 1000 29.
Proof. vm_compute. repeat split; reflexivity. Qed.

(* ------------------------------------------------------------------ *)
(** ** Eligibility                                                      *)
(* ------------------------------------------------------------------ *)

Lemma prefix_app needle s :
  String.prefix needle s = true <-> exists post, s = (needle ++ post)%string.
Proof.
  revert s. induction needle as [|c needle IH]; intros s.
  - split; [intros _; exists s; reflexivity|intros _; destruct s; reflexivity].
  - destruct s as [|d s]; cbn.
    + split; [discriminate|intros (post & H); discriminate].
    + destruct (ascii_dec c d) as [->|N].
      * rewrite IH. split; intros (post & H); exists post; congruence.
      * split; [discriminate|]. intros (post & H). congruence.
Qed.

(** [s.includes(needle)] holds exactly when [needle] occurs in [s]. *)
Lemma includes_occurs s needle :
  Js.includes s needle = true
  <-> exists pre post, s = (pre ++ needle ++ post)%string.
Proof.
  induction s as [|c s IH].
  - cbn [Js.includes]. rewrite orb_false_r, prefix_app. split.
    + intros (post & H). exists EmptyString, post. exact H.
    + intros ([|d pre] & post & H); [exists post; exact H|discriminate].
  - cbn [Js.includes]. rewrite orb_true_iff, IH, prefix_app. split.
    + intros [(post & H)|(pre & post & H)].
      * exists EmptyString, post. exact H.
      * exists (String c pre), post. cbn. congruence.
    + intros ([|d pre] & post & H).
      * left. exists post. exact H.
      * right. exists pre, post. cbn in H. congruence.
Qed.

Section Eligibility.

Variable toLowerCase : string -> string.
Variable url_hostname : string -> option string.
Variable config : Config.

Lemma isAllowedLabel_spec t :
  isAllowedLabel toLowerCase config t = true <-> labelAllowed toLowerCase config t.
Proof.
  unfold isAllowedLabel, Js.arrIncludes, labelAllowed.
  rewrite existsb_exists. split.
  - intros (x & Hx & E). apply String.eqb_eq in E. now subst.
  - intros H. eexists. split; [exact H|]. apply String.eqb_refl.
Qed.

Lemma hostExcludedb_spec t :
  hostExcludedb toLowerCase url_hostname config t = true
  <-> hostExcluded toLowerCase url_hostname config t.
Proof.
  unfold hostExcludedb, hostExcluded. rewrite existsb_exists. split.
  - intros (url & Hu & H). destruct (url_hostname url) as [host|] eqn:E;
      [|discriminate].
    apply existsb_exists in H. destruct H as (token & Ht & Hi).
    exists url, host, token. auto.
  - intros (url & host & token & Hu & E & Ht & Hi).
    exists url. split; [exact Hu|]. rewrite E.
    apply existsb_exists. exists token. auto.
Qed.

(** The loop over the URLs: when it returns, it returns the answer of
    the specification. *)
Lemma scanTrackerUrls_returns urls b :
  scanTrackerUrls toLowerCase url_hostname config urls = Returns b ->
  b = existsb (fun url =>
                 match url_hostname url with
                 | Some host =>
                     existsb (fun token => Js.includes (toLowerCase host) token)
                             (excludedTrackers config)
                 | None => false
                 end) urls.
Proof.
  induction urls as [|url urls IH]; cbn.
  - congruence.
  - destruct (url_hostname url) as [host|]; [|discriminate].
    destruct (existsb _ (excludedTrackers config)); cbn; [congruence|exact IH].
Qed.

Lemma scanTrackerUrls_total urls :
  (forall url, In url urls -> url_hostname url <> None) ->
  exists b, scanTrackerUrls toLowerCase url_hostname config urls = Returns b.
Proof.
  induction urls as [|url urls IH]; cbn; intros H.
  - eauto.
  - destruct (url_hostname url) as [host|] eqn:E.
    + destruct (existsb _ (excludedTrackers config)); eauto.
    + exfalso. apply (H url); auto.
Qed.

Lemma scanTrackerUrls_throws urls e :
  scanTrackerUrls toLowerCase url_hostname config urls = Throws e -> e = invalidUrl.
Proof.
  induction urls as [|url urls IH]; cbn; [discriminate|].
  destruct (url_hostname url) as [host|]; [|congruence].
  destruct (existsb _ (excludedTrackers config)); [discriminate|exact IH].
Qed.

Lemma hasExcludedTracker_returns t b :
  hasExcludedTracker toLowerCase url_hostname config t = Returns b ->
  b = hostExcludedb toLowerCase url_hostname config t.
Proof.
  unfold hasExcludedTracker, hostExcludedb.
  destruct (excludedTrackers config) as [|token tokens] eqn:E; cbn [List.length Nat.eqb].
  - intros [= <-]. symmetry. apply not_true_is_false. intros H.
    apply existsb_exists in H. destruct H as (url & _ & H).
    destruct (url_hostname url); discriminate.
  - rewrite <- E. apply scanTrackerUrls_returns.
Qed.

Lemma hasExcludedTracker_no_tokens t :
  excludedTrackers config = [] ->
  hasExcludedTracker toLowerCase url_hostname config t = Returns false.
Proof. unfold hasExcludedTracker. intros ->. reflexivity. Qed.

Lemma hasExcludedTracker_total t :
  excludedTrackers config = [] \/ parsable url_hostname t ->
  exists b, hasExcludedTracker toLowerCase url_hostname config t = Returns b.
Proof.
  intros [E|P].
  - rewrite (hasExcludedTracker_no_tokens t E). eauto.
  - unfold hasExcludedTracker. destruct (_ =? 0)%nat; [eauto|].
    apply scanTrackerUrls_total. exact P.
Qed.

Lemma hasExcludedTracker_throws t e :
  hasExcludedTracker toLowerCase url_hostname config t = Throws e -> e = invalidUrl.
Proof.
  unfold hasExcludedTracker. destruct (_ =? 0)%nat; [discriminate|].
  apply scanTrackerUrls_throws.
Qed.

Lemma filterThrowing_returns (l l' : list Torrent) :
  filterThrowing (notExcluded toLowerCase url_hostname config) l = Returns l' ->
  l' = filter (fun t => negb (hostExcludedb toLowerCase url_hostname config t)) l.
Proof.
  revert l'. induction l as [|t l IH]; cbn; intros l'.
  - congruence.
  - unfold notExcluded at 1.
    destruct (hasExcludedTracker toLowerCase url_hostname config t) as [b|e] eqn:E;
      [|discriminate].
    apply hasExcludedTracker_returns in E. subst b.
    destruct (filterThrowing _ l) as [r|e]; [|discriminate].
    rewrite <- (IH r eq_refl).
    destruct (hostExcludedb toLowerCase url_hostname config t); cbn; congruence.
Qed.

Lemma filterThrowing_total (l : list Torrent) :
  (forall t, In t l ->
             excludedTrackers config = [] \/ parsable url_hostname t) ->
  exists l', filterThrowing (notExcluded toLowerCase url_hostname config) l = Returns l'.
Proof.
  induction l as [|t l IH]; cbn; intros H; [eauto|].
  destruct (hasExcludedTracker_total t (H t (or_introl eq_refl))) as (b & E).
  unfold notExcluded at 1. rewrite E.
  destruct IH as (r & ->); [intros; apply H; auto|]. eauto.
Qed.

Lemma filterThrowing_throws (l : list Torrent) t e :
  In t l ->
  hasExcludedTracker toLowerCase url_hostname config t = Throws e ->
  filterThrowing (notExcluded toLowerCase url_hostname config) l = Throws invalidUrl.
Proof.
  induction l as [|x l IH]; cbn; [tauto|].
  intros [->|Hin] Ht.
  - unfold notExcluded at 1. rewrite Ht.
    apply hasExcludedTracker_throws in Ht. now subst.
  - unfold notExcluded at 1.
    destruct (hasExcludedTracker toLowerCase url_hostname config x) as [b|e'] eqn:E.
    + rewrite (IH Hin Ht). reflexivity.
    + apply hasExcludedTracker_throws in E. now subst.
Qed.

Lemma filter_filter_and {A} (p q : A -> bool) (l : list A) :
  filter q (filter p l) = filter (fun x => p x && q x) l.
Proof.
  induction l as [|x l IH]; cbn; [reflexivity|].
  destruct (p x); cbn; [destruct (q x)|]; rewrite IH; reflexivity.
Qed.

Lemma hostMatches_spec urls :
  existsb (fun url =>
             match url_hostname url with
             | Some host =>
                 existsb (fun token => Js.includes (toLowerCase host) token)
                         (excludedTrackers config)
             | None => false
             end) urls = true
  <-> hostMatches toLowerCase url_hostname config urls.
Proof.
  unfold hostMatches. rewrite existsb_exists. split.
  - intros (url & Hu & H). destruct (url_hostname url) as [host|] eqn:E;
      [|discriminate].
    apply existsb_exists in H. destruct H as (token & Ht & Hi).
    exists url, host, token. auto.
  - intros (url & host & token & Hu & E & Ht & Hi).
    exists url. split; [exact Hu|]. rewrite E.
    apply existsb_exists. exists token. auto.
Qed.

(** The loop over the URLs, past URLs that parse: it has returned [true]
    when one of them matched, and goes on otherwise. *)
Lemma scanTrackerUrls_prefix before rest :
  (forall u, In u before -> url_hostname u <> None) ->
  scanTrackerUrls toLowerCase url_hostname config (before ++ rest)
  = if existsb (fun url =>
                  match url_hostname url with
                  | Some host =>
                      existsb (fun token => Js.includes (toLowerCase host) token)
                              (excludedTrackers config)
                  | None => false
                  end) before
    then Returns true
    else scanTrackerUrls toLowerCase url_hostname config rest.
Proof.
  induction before as [|u before IH]; intros H; [reflexivity|].
  cbn [app scanTrackerUrls existsb].
  destruct (url_hostname u) as [host|] eqn:E.
  - destruct (existsb _ (excludedTrackers config)); cbn [orb]; [reflexivity|].
    apply IH. intros; apply H; right; assumption.
  - exfalso. apply (H u); [left; reflexivity|exact E].
Qed.

(** The loop throws only at a URL that does not parse, reached past URLs
    that parse and match no token. *)
Lemma scanTrackerUrls_throws_inv urls e :
  scanTrackerUrls toLowerCase url_hostname config urls = Throws e ->
  e = invalidUrl
  /\ exists before url after,
       urls = before ++ url :: after
       /\ url_hostname url = None
       /\ (forall u, In u before -> url_hostname u <> None)
       /\ ~ hostMatches toLowerCase url_hostname config before.
Proof.
  induction urls as [|u urls IH]; cbn [scanTrackerUrls]; [discriminate|].
  destruct (url_hostname u) as [host|] eqn:E.
  - destruct (existsb _ (excludedTrackers config)) eqn:X; [discriminate|].
    intros H. destruct (IH H) as (-> & before & url & after & -> & Hu & Hb & Hn).
    split; [reflexivity|]. exists (u :: before), url, after.
    split; [reflexivity|]. split; [exact Hu|]. split.
    + intros v [<-|Hv]; [congruence|auto].
    + intros (v & h & tok & [<-|Hv] & Hh & Ht & Hi).
      * rewrite E in Hh. injection Hh as <-.
        assert (C : existsb (fun token => Js.includes (toLowerCase host) token)
                            (excludedTrackers config) = true)
          by (apply existsb_exists; eauto).
        congruence.
      * apply Hn. exists v, h, tok. auto.
  - intros [= <-]. split; [reflexivity|]. exists [], u, urls.
    split; [reflexivity|]. split; [exact E|]. split.
    + intros v [].
    + intros (v & h & tok & [] & _).
Qed.

(** The second filter, when the check returns on every torrent. *)
Lemma filterThrowing_checked (l : list Torrent) :
  (forall t, In t l ->
             exists b, hasExcludedTracker toLowerCase url_hostname config t = Returns b) ->
  filterThrowing (notExcluded toLowerCase url_hostname config) l
  = Returns (filter (fun t => negb (hostExcludedb toLowerCase url_hostname config t)) l).
Proof.
  induction l as [|t l IH]; intros H; cbn [filterThrowing filter]; [reflexivity|].
  destruct (H t (or_introl eq_refl)) as (b & E).
  unfold notExcluded at 1. rewrite E.
  rewrite IH by (intros; apply H; right; assumption).
  apply hasExcludedTracker_returns in E. subst b.
  destruct (hostExcludedb toLowerCase url_hostname config t); reflexivity.
Qed.

Lemma filterThrowing_throws_inv (l : list Torrent) :
  forall e,
    filterThrowing (notExcluded toLowerCase url_hostname config) l = Throws e ->
    exists t, In t l /\ hasExcludedTracker toLowerCase url_hostname config t = Throws e.
Proof.
  induction l as [|x l IH]; intros e; cbn [filterThrowing]; [discriminate|].
  unfold notExcluded at 1.
  destruct (hasExcludedTracker toLowerCase url_hostname config x) as [b|e'] eqn:E.
  - destruct (filterThrowing _ l) as [r|e''] eqn:F; [discriminate|].
    intros [= <-]. destruct (IH e'' eq_refl) as (t & Hin & Ht).
    exists t. split; [right; exact Hin|exact Ht].
  - intros [= <-]. exists x. split; [left; reflexivity|exact E].
Qed.

(** The two filters, when the check returns on every torrent that passes
    the first. *)
Lemma eligibleOf_checked (hydrated : list Torrent) :
  (forall t, In t hydrated -> labelAllowed toLowerCase config t ->
             exists b, hasExcludedTracker toLowerCase url_hostname config t = Returns b) ->
  eligibleOf toLowerCase url_hostname config hydrated
  = Returns (filter (fun t => labelAllowedb toLowerCase config t
                              && negb (hostExcludedb toLowerCase url_hostname config t))
                    hydrated).
Proof.
  intros H. unfold eligibleOf. rewrite filterThrowing_checked.
  - rewrite filter_filter_and. reflexivity.
  - intros t Ht. apply filter_In in Ht. destruct Ht as (Hin & Hl).
    apply (H t Hin). apply isAllowedLabel_spec. exact Hl.
Qed.

Lemma eligibleOf_throws_inv (hydrated : list Torrent) e :
  eligibleOf toLowerCase url_hostname config hydrated = Throws e ->
  exists t, In t hydrated /\ labelAllowed toLowerCase config t
            /\ hasExcludedTracker toLowerCase url_hostname config t = Throws e.
Proof.
  unfold eligibleOf. intros H. apply filterThrowing_throws_inv in H.
  destruct H as (t & Hin & Ht). apply filter_In in Hin. destruct Hin as (Hin & Hl).
  exists t. split; [exact Hin|]. split; [apply isAllowedLabel_spec; exact Hl|exact Ht].
Qed.

End Eligibility.

Lemma filterThrowing_no_tokens toLowerCase url_hostname config (l : list Torrent) :
  excludedTrackers config = [] ->
  filterThrowing (notExcluded toLowerCase url_hostname config) l = Returns l.
Proof.
  intros E. induction l as [|t l IH]; cbn; [reflexivity|].
  unfold notExcluded at 1.
  rewrite (hasExcludedTracker_no_tokens toLowerCase url_hostname config t E), IH.
  reflexivity.
Qed.

(* ------------------------------------------------------------------ *)
(** ** A run                                                            *)
(* ------------------------------------------------------------------ *)

Lemma logEach_traced msgs w :
  logEach msgs w = (Returns tt, traced w (map (EvLog Info) msgs)).
Proof.
  revert w. induction msgs as [|m msgs IH]; intros w; cbn [logEach map].
  - unfold ret. rewrite traced_nil. reflexivity.
  - unfold bind, log, emit. rewrite IH. unfold traced. cbn.
    rewrite <- app_assoc. reflexivity.
Qed.

(** [removeTorrents], read by what [rpc] gives. *)
Lemma removeTorrents_by_rpc ids deleteLocalData w :
  removeTorrents ids deleteLocalData w =
  match rpc "torrent-remove" (TorrentRemoveArgs ids deleteLocalData) 0
            (traced w [EvCall (CallRemoveTorrents ids deleteLocalData)]) with
  | (Returns _, w') => (Returns tt, w')
  | (Throws e, w') => (Throws e, w')
  end.
Proof.
  unfold removeTorrents, bind, emit, ret.
  change {| sessionId := sessionId w; authHeader := authHeader w;
            isFirstRun := isFirstRun w; daemon := daemon w;
            fetched := fetched w;
            trace := trace w ++ [EvCall (CallRemoveTorrents ids deleteLocalData)] |}
    with (traced w [EvCall (CallRemoveTorrents ids deleteLocalData)]).
  destruct (rpc _ _ 0 _) as [[r|e] w']; reflexivity.
Qed.

(** [performRemoval], by the dry-run flag. *)
Lemma performRemoval_by_flag config ids w :
  performRemoval config ids w =
  if dryRun config then
    (Returns tt, traced w [EvLog Warn (MsgDryRunSkip (List.length ids))])
  else
    match removeTorrents ids true w with
    | (Returns _, w') =>
        (Returns tt, traced w' [EvLog Info (MsgRemoved (List.length ids))])
    | (Throws e, w') => (Throws e, w')
    end.
Proof.
  unfold performRemoval. destruct (dryRun config); [reflexivity|].
  unfold bind. destruct (removeTorrents ids true w) as [[[]|e] w']; reflexivity.
Qed.

(** The rows of the first-run table: all of them, or the error of the
    first torrent without a name. *)
Lemma mapThrowing_summaryRow hydrated :
  mapThrowing summaryRow hydrated
  = match summaryError hydrated with
    | Some e => Throws e
    | None => Returns (map MsgSummaryRow hydrated)
    end.
Proof.
  induction hydrated as [|t rest IH]; [reflexivity|].
  cbn [mapThrowing summaryError map]. unfold summaryRow at 1.
  destruct (name t); try reflexivity.
  rewrite IH. destruct (summaryError rest); reflexivity.
Qed.

Lemma summaryError_named hydrated :
  summaryError hydrated = None <-> Forall named hydrated.
Proof.
  induction hydrated as [|t rest IH]; cbn [summaryError].
  - split; [constructor|reflexivity].
  - destruct (name t) as [| |s] eqn:E.
    + split; [discriminate|]. intros H. inversion H as [|? ? (s & Hs) _].
      congruence.
    + split; [discriminate|]. intros H. inversion H as [|? ? (s & Hs) _].
      congruence.
    + rewrite IH. split.
      * intros H. constructor; [exists s; exact E|exact H].
      * intros H. inversion H. assumption.
Qed.

(** [run], stage by stage. *)
Lemma run_by_stages toLowerCase url_hostname config nowSeconds w :
  run toLowerCase url_hostname config nowSeconds w =
  match getTorrents (traced w [EvLog Info MsgAttemptingFetch]) with
  | (Throws e, w1) =>
      (Throws e, traced w1 [EvLog Err (MsgFailedToConnect (message e))])
  | (Returns torrents, w1) =>
      let hydrated := map (hydrate nowSeconds) torrents in
      let connected :=
        traced w1 [EvLog Info (MsgConnected (List.length torrents))] in
      match (if isFirstRun w1 then summaryError hydrated else None) with
      | Some e => (Throws e, connected)
      | None =>
          let w2 := afterSummary connected hydrated in
          match eligibleOf toLowerCase url_hostname config hydrated with
          | Throws e => (Throws e, w2)
          | Returns eligible =>
              let candidates := flat_map (evaluate config) eligible in
              let w3 :=
                traced w2
                  [EvLog Info
                     (MsgFiltering (List.length torrents)
                        (List.length (filter (isAllowedLabel toLowerCase config) hydrated))
                        (List.length eligible))] in
              if (List.length candidates =? 0)%nat then
                (Returns tt, traced w3 [EvLog Info MsgNoTorrents])
              else
                performRemoval config (candidateIds candidates)
                               (traced w3 (candidateEvents candidates))
          end
      end
  end.
Proof.
  unfold run, retryGetTorrents.
  unfold bind at 1, tryCatch, bind at 1, log at 1, emit at 1.
  change {| sessionId := sessionId w; authHeader := authHeader w;
            isFirstRun := isFirstRun w; daemon := daemon w;
            fetched := fetched w;
            trace := trace w ++ [EvLog Info MsgAttemptingFetch] |}
    with (traced w [EvLog Info MsgAttemptingFetch]).
  unfold bind at 1.
  destruct (getTorrents _) as [[torrents|e] w1]; [|reflexivity].
  cbv zeta. unfold eligibleOf.
  unfold bind at 1. cbn [log emit ret].
  unfold bind at 1, getIsFirstRun. cbn [isFirstRun].
  assert (S : forall hydrated w',
             (if isFirstRun w' then
                (bind (displayTorrentsSummary hydrated)
                      (fun _ => bind (log Info MsgSeparator)
                                     (fun _ => setIsFirstRun false)))
              else ret tt) w'
             = match (if isFirstRun w' then summaryError hydrated else None) with
               | Some e => (Throws e, w')
               | None => (Returns tt, afterSummary w' hydrated)
               end).
  { intros hydrated w'. unfold afterSummary, summaryEvents.
    destruct (isFirstRun w'); [|reflexivity].
    unfold displayTorrentsSummary.
    destruct hydrated as [|t0 rest0] eqn:Eh; [reflexivity|].
    rewrite <- Eh. replace (List.length hydrated =? 0)%nat with false
      by (subst hydrated; reflexivity).
    unfold bind at 1 2, lift. rewrite mapThrowing_summaryRow.
    destruct (summaryError hydrated); [reflexivity|].
    unfold bind, log, emit, ret, setIsFirstRun. cbn.
    rewrite logEach_traced, map_map. unfold traced. cbn.
    rewrite <- !app_assoc. reflexivity. }
  unfold bind at 1.
  match goal with
  | |- context [(if isFirstRun w1 then ?a else ?b) ?x] =>
      change ((if isFirstRun w1 then a else b) x)
        with ((if isFirstRun x then a else b) x)
  end.
  rewrite S.
  change {| sessionId := sessionId w1; authHeader := authHeader w1;
            isFirstRun := isFirstRun w1; daemon := daemon w1;
            fetched := fetched w1;
            trace := trace w1
                     ++ [EvLog Info (MsgConnected (List.length torrents))] |}
    with (traced w1 [EvLog Info (MsgConnected (List.length torrents))]).
  cbn [isFirstRun traced].
  destruct (if isFirstRun w1
            then summaryError (map (hydrate nowSeconds) torrents)
            else None) as [e|]; [reflexivity|].
  unfold bind at 1, lift.
  destruct (filterThrowing (notExcluded toLowerCase url_hostname config)
              (filter (isAllowedLabel toLowerCase config) (map (hydrate nowSeconds) torrents)))
    as [eligible|e]; [|reflexivity].
  unfold bind at 1, log at 1, emit at 1.
  destruct (List.length (flat_map (evaluate config) eligible) =? 0)%nat.
  - reflexivity.
  - unfold bind at 1, log at 1, emit at 1.
    unfold bind at 1, log at 1, emit at 1.
    unfold bind at 1. rewrite logEach_traced.
    unfold candidateEvents, candidateIds.
    f_equal. unfold traced. cbn.
    rewrite map_map, <- !app_assoc. reflexivity.
Qed.

Lemma only_logs_quiet evs :
  Forall (fun e => match e with EvLog _ _ => True | _ => False end) evs ->
  removeCalls evs = [] /\ removalRequests evs = [].
Proof.
  induction 1 as [|e evs He _ (IH1 & IH2)]; [auto|].
  destruct e; try contradiction. auto.
Qed.

Lemma summaryEvents_quiet hydrated :
  removeCalls (summaryEvents hydrated) = []
  /\ removalRequests (summaryEvents hydrated) = [].
Proof.
  apply only_logs_quiet. unfold summaryEvents.
  apply Forall_app. split; [|repeat constructor].
  destruct (_ =? 0)%nat; [constructor|].
  repeat constructor. apply Forall_map, Forall_forall. intros; exact I.
Qed.

Lemma candidateEvents_quiet candidates :
  removeCalls (candidateEvents candidates) = []
  /\ removalRequests (candidateEvents candidates) = [].
Proof.
  apply only_logs_quiet. unfold candidateEvents.
  repeat constructor. apply Forall_map, Forall_forall. intros; exact I.
Qed.

Lemma afterSummary_trace w hydrated :
  exists evs,
    trace (afterSummary w hydrated) = trace w ++ evs
    /\ removeCalls evs = [] /\ removalRequests evs = [].
Proof.
  unfold afterSummary. destruct (isFirstRun w).
  - exists (summaryEvents hydrated). cbn.
    destruct (summaryEvents_quiet hydrated). auto.
  - exists []. rewrite app_nil_r. auto.
Qed.

(** [getTorrents] removes nothing. *)
Lemma getTorrents_frame w :
  exists evs,
    trace (snd (getTorrents w)) = trace w ++ evs
    /\ removeCalls evs = [] /\ removalRequests evs = [].
Proof.
  rewrite getTorrents_by_loop.
  pose proof (getTorrentsLoop_frame 30 1 (traced w [EvCall CallGetTorrents])) as F.
  cbv zeta in F. destruct F as (_ & _ & _ & evs & Ht & _ & _ & A3 & A4).
  exists (EvCall CallGetTorrents :: evs). rewrite Ht. cbn [traced trace].
  rewrite <- app_assoc. split; [reflexivity|]. split; [exact A3|exact A4].
Qed.

Lemma getTorrents_keeps_flag w :
  isFirstRun (snd (getTorrents w)) = isFirstRun w.
Proof.
  rewrite getTorrents_by_loop.
  pose proof (getTorrentsLoop_frame 30 1 (traced w [EvCall CallGetTorrents])) as F.
  cbv zeta in F. destruct F as (_ & _ & F & _). exact F.
Qed.

(** The first-run table is drawn, or is not due: the run is not the
    first of the process, or every fetched torrent has a name. *)
Lemma summary_returns w torrents w1 hydrated :
  getTorrents (traced w [EvLog Info MsgAttemptingFetch]) = (Returns torrents, w1) ->
  (isFirstRun w = true -> Forall named hydrated) ->
  (if isFirstRun w1 then summaryError hydrated else None) = None.
Proof.
  intros Hg Hn.
  pose proof (getTorrents_keeps_flag (traced w [EvLog Info MsgAttemptingFetch])) as F.
  rewrite Hg in F. cbn [snd traced isFirstRun] in F. rewrite F.
  destruct (isFirstRun w); [|reflexivity].
  apply summaryError_named. apply Hn. reflexivity.
Qed.

(** The first-run table throws: the run is the first and some fetched
    torrent has no name. *)
Lemma summary_throws w torrents w1 hydrated e :
  getTorrents (traced w [EvLog Info MsgAttemptingFetch]) = (Returns torrents, w1) ->
  isFirstRun w = true ->
  summaryError hydrated = Some e ->
  (if isFirstRun w1 then summaryError hydrated else None) = Some e.
Proof.
  intros Hg Hf He.
  pose proof (getTorrents_keeps_flag (traced w [EvLog Info MsgAttemptingFetch])) as F.
  rewrite Hg in F. cbn [snd traced isFirstRun] in F. rewrite F, Hf. exact He.
Qed.

(** The events of a run up to the fetch's success line remove nothing. *)
Lemma run_connected_quiet w torrents w1 :
  getTorrents (traced w [EvLog Info MsgAttemptingFetch]) = (Returns torrents, w1) ->
  exists evs,
    trace (traced w1 [EvLog Info (MsgConnected (List.length torrents))])
    = trace w ++ evs
    /\ removeCalls evs = [] /\ removalRequests evs = [].
Proof.
  intros Hg.
  destruct (getTorrents_frame (traced w [EvLog Info MsgAttemptingFetch]))
    as (evs1 & H1 & Q1 & Q1').
  rewrite Hg in H1. cbn [snd traced trace] in *. rewrite H1, <- !app_assoc.
  eexists. split; [reflexivity|].
  rewrite !removeCalls_app, !removalRequests_app, Q1, Q1'.
  split; reflexivity.
Qed.

(** The events of a run up to the end of filtering remove nothing. *)
Lemma run_prefix_quiet w torrents w1 hydrated line :
  getTorrents (traced w [EvLog Info MsgAttemptingFetch]) = (Returns torrents, w1) ->
  exists evs,
    trace (traced
             (afterSummary
                (traced w1 [EvLog Info (MsgConnected (List.length torrents))])
                hydrated)
             [EvLog Info line])
    = trace w ++ evs
    /\ removeCalls evs = [] /\ removalRequests evs = [].
Proof.
  intros Hg.
  destruct (getTorrents_frame (traced w [EvLog Info MsgAttemptingFetch]))
    as (evs1 & H1 & Q1 & Q1').
  rewrite Hg in H1. cbn [snd traced trace] in H1.
  destruct (afterSummary_trace
              (traced w1 [EvLog Info (MsgConnected (List.length torrents))])
              hydrated) as (evs2 & H2 & Q2 & Q2').
  cbn [traced trace] in *. rewrite H2, H1, <- !app_assoc.
  eexists. split; [reflexivity|].
  rewrite !removeCalls_app, !removalRequests_app, Q1, Q1', Q2, Q2'.
  split; reflexivity.
Qed.

Lemma removal_requests_carry args evs :
  Forall (retransmission "torrent-remove" args 0) evs ->
  Forall (fun req => req_args req = args) (removalRequests evs)
  /\ removeCalls evs = [].
Proof.
  intros H. apply retransmissions_quiet in H.
  destruct H as (Q & _ & _ & _ & H). split; [|exact Q].
  unfold removalRequests. apply Forall_forall. intros req Hin.
  apply filter_In in Hin. destruct Hin as (Hin & _).
  rewrite Forall_forall in H. apply (H req Hin).
Qed.

(** C10. A run that reaches the rule engine (its fetch succeeded, the
    table of the first run was drawn or was not due, its filters
    returned) and whose rule engine yields no candidate returns
    normally; its last log line is the "no torrents to remove" one, and
    nothing else it put on the trace is a call of [removeTorrents] or a
    [torrent-remove] request.  The dry-run flag plays no part. *)
Theorem run_without_candidates_removes_nothing :
  forall (toLowerCase : string -> string)
         (url_hostname : string -> option string) (config : Config)
         (nowSeconds : Js.number) (w : World)
         (torrents : list RawTorrent) (w1 : World) (eligible : list Torrent),
    getTorrents (traced w [EvLog Info MsgAttemptingFetch])
    = (Returns torrents, w1) ->
    (isFirstRun w = true ->
     Forall named (map (hydrate nowSeconds) torrents)) ->
    eligibleOf toLowerCase url_hostname config (map (hydrate nowSeconds) torrents)
    = Returns eligible ->
    flat_map (evaluate config) eligible = [] ->
    exists w' evs,
      run toLowerCase url_hostname config nowSeconds w = (Returns tt, w')
      /\ trace w' = trace w ++ evs ++ [EvLog Info MsgNoTorrents]
      /\ removeCalls evs = []
      /\ removalRequests evs = [].
Proof.
  intros toLowerCase url_hostname config nowSeconds w torrents w1 eligible Hg Hn He Hc.
  rewrite run_by_stages, Hg. cbv zeta.
  rewrite (summary_returns w torrents w1 _ Hg Hn), He, Hc.
  cbn [List.length Nat.eqb].
  edestruct (run_prefix_quiet w torrents w1) as (evs & Ht & Q1 & Q2);
    [exact Hg|].
  eexists. exists evs. split; [reflexivity|].
  cbn [traced trace] in *. rewrite Ht, <- app_assoc. auto.
Qed.

(** One torrent, complete, one hour old, ratio 0.5, and the dry-run flag
    off: the run ends without a removal. *)
Lemma run_without_candidates_removes_nothing_witness :
  exists w' evs,
    run lowerAscii simpleHostname (Sample.config [] false) 7200%float
        (Sample.world
           (fun _ => FetchResolves
                       (Sample.success
                          [Sample.wire 1 "radarr"
                             ["http://open.example.org/announce"] 1 0.5 3600])))
    = (Returns tt, w')
    /\ trace w'
       = trace (Sample.world
                  (fun _ => FetchResolves
                              (Sample.success
                                 [Sample.wire 1 "radarr"
                                    ["http://open.example.org/announce"] 1 0.5 3600])))
         ++ evs ++ [EvLog Info MsgNoTorrents]
    /\ removeCalls evs = []
    /\ removalRequests evs = [].
Proof.
  eapply run_without_candidates_removes_nothing.
  - lazy. reflexivity.
  - intros _. repeat constructor. exists "sample". reflexivity.
  - lazy. reflexivity.
  - lazy. reflexivity.
Defined.

(** C7. A run that reaches the rule engine (its fetch succeeded, the
    table of the first run was drawn or was not due, its filters
    returned) and whose rule engine yields at least one candidate: with
    the dry-run flag on, it returns after logging the candidates and the
    skipped removal, and nothing it put on the trace is a call of
    [removeTorrents] or a [torrent-remove] request; with the flag off,
    it calls [removeTorrents] exactly once, with the ids of the
    candidates, in order, and [deleteLocalData = true], and every
    [torrent-remove] request it sends (there is at least one) carries
    these arguments. *)
Theorem run_with_candidates_removes_once :
  forall (toLowerCase : string -> string)
         (url_hostname : string -> option string) (config : Config)
         (nowSeconds : Js.number) (w : World)
         (torrents : list RawTorrent) (w1 : World) (eligible : list Torrent),
    getTorrents (traced w [EvLog Info MsgAttemptingFetch])
    = (Returns torrents, w1) ->
    (isFirstRun w = true ->
     Forall named (map (hydrate nowSeconds) torrents)) ->
    eligibleOf toLowerCase url_hostname config (map (hydrate nowSeconds) torrents)
    = Returns eligible ->
    let candidates := flat_map (evaluate config) eligible in
    1 <= List.length candidates ->
    exists evs,
      trace (snd (run toLowerCase url_hostname config nowSeconds w)) = trace w ++ evs
      /\ (dryRun config = true ->
          fst (run toLowerCase url_hostname config nowSeconds w) = Returns tt
          /\ removeCalls evs = []
          /\ removalRequests evs = []
          /\ In (EvLog Warn (MsgDryRunSkip (List.length candidates))) evs
          /\ forall c, In c candidates ->
                       In (EvLog Info (MsgCandidate (reason c) (name (torrent c))))
                          evs)
      /\ (dryRun config = false ->
          removeCalls evs = [(candidateIds candidates, true)]
          /\ removalRequests evs <> []
          /\ Forall (fun req =>
                       req_args req
                       = TorrentRemoveArgs (candidateIds candidates) true)
                    (removalRequests evs)).
Proof.
  intros toLowerCase url_hostname config nowSeconds w torrents w1 eligible Hg Hnamed He
    candidates Hn.
  rewrite run_by_stages, Hg. cbv zeta.
  rewrite (summary_returns w torrents w1 _ Hg Hnamed), He. fold candidates.
  destruct (Nat.eqb_spec (List.length candidates) 0) as [E|_]; [lia|].
  edestruct (run_prefix_quiet w torrents w1) as (evs & Ht & Q1 & Q2);
    [exact Hg|].
  destruct (candidateEvents_quiet candidates) as (C1 & C2).
  rewrite performRemoval_by_flag.
  assert (L : List.length (candidateIds candidates) = List.length candidates)
    by apply length_map.
  rewrite L.
  destruct (dryRun config).
  - cbn [fst snd traced trace] in *. rewrite Ht, <- !app_assoc.
    eexists. split; [reflexivity|].
    split; [|discriminate]. intros _.
    rewrite !removeCalls_app, !removalRequests_app, Q1, Q2, C1, C2.
    repeat split.
    + rewrite !in_app_iff. right. right. left. reflexivity.
    + intros c Hc. rewrite !in_app_iff. right. left.
      unfold candidateEvents. right. right.
      apply (in_map (fun c => EvLog Info (MsgCandidate (reason c) (name (torrent c))))).
      exact Hc.
  - rewrite removeTorrents_by_rpc.
    match goal with
    | |- context [rpc ?m ?a 0 ?x] =>
        pose proof (rpc_frame m a 0 x) as F; cbv zeta in F;
        destruct F as (_ & _ & _ & _ & revs & Hr & Hev);
        destruct (rpc m a 0 x) as [[r|e] w'] eqn:Er
    end;
      cbn [fst snd traced trace] in *;
      destruct (removal_requests_carry _ _ Hev) as (V1 & V2).
    + rewrite Hr, Ht, <- !app_assoc. cbn [app].
      eexists. split; [reflexivity|].
      split; [discriminate|]. intros _.
      rewrite !removeCalls_app, !removalRequests_app, Q1, Q2, C1, C2.
      cbn [app removeCalls].
      rewrite !removeCalls_app. cbn [removeCalls]. rewrite V2.
      split; [reflexivity|].
      unfold removalRequests at 1 2. cbn [requests filter req_method requestOf].
      cbn [String.eqb Ascii.eqb Bool.eqb].
      rewrite requests_app, filter_app.
      fold (removalRequests revs). cbn [requests filter app].
      rewrite app_nil_r.
      split; [discriminate|].
      constructor; [reflexivity|exact V1].
    + rewrite Hr, Ht, <- !app_assoc. cbn [app].
      eexists. split; [reflexivity|].
      split; [discriminate|]. intros _.
      rewrite !removeCalls_app, !removalRequests_app, Q1, Q2, C1, C2.
      cbn [app removeCalls]. rewrite V2.
      split; [reflexivity|].
      unfold removalRequests at 1 2. cbn [requests filter req_method requestOf].
      cbn [String.eqb Ascii.eqb Bool.eqb].
      fold (removalRequests revs).
      split; [discriminate|].
      constructor; [reflexivity|exact V1].
Qed.

(** One torrent over the ratio limit and the dry-run flag off: one call
    of [removeTorrents], with the id of that torrent and
    [deleteLocalData = true]. *)
Lemma run_with_candidates_removes_once_witness :
  exists evs,
    trace (snd (run lowerAscii simpleHostname (Sample.config [] false) 7200%float
                    (Sample.world (Sample.answering [Sample.overRatio]))))
    = trace (Sample.world (Sample.answering [Sample.overRatio])) ++ evs
    /\ removeCalls evs = [([Some 1%float], true)]
    /\ removalRequests evs <> []
    /\ Forall (fun req => req_args req = TorrentRemoveArgs [Some 1%float] true)
              (removalRequests evs).
Proof.
  destruct (run_with_candidates_removes_once lowerAscii simpleHostname
              (Sample.config [] false) 7200%float
              (Sample.world (Sample.answering [Sample.overRatio]))
              (map normalizeTorrent [Sample.overRatio])
              (snd (getTorrents
                      (traced (Sample.world (Sample.answering [Sample.overRatio]))
                              [EvLog Info MsgAttemptingFetch])))
              (map (hydrate 7200%float) (map normalizeTorrent [Sample.overRatio])))
    as (evs & Ht & _ & Hoff).
  - vm_compute. reflexivity.
  - intros _. repeat constructor. exists "sample". reflexivity.
  - vm_compute. reflexivity.
  - vm_compute. lia.
  - exists evs. split; [exact Ht|]. apply Hoff. reflexivity.
Defined.

(* ------------------------------------------------------------------ *)
(** ** Announce URLs that do not parse                                  *)
(* ------------------------------------------------------------------ *)

Lemma run_summary_quiet w torrents w1 hydrated :
  getTorrents (traced w [EvLog Info MsgAttemptingFetch]) = (Returns torrents, w1) ->
  exists evs,
    trace (afterSummary
             (traced w1 [EvLog Info (MsgConnected (List.length torrents))])
             hydrated)
    = trace w ++ evs
    /\ removeCalls evs = [] /\ removalRequests evs = [].
Proof.
  intros Hg.
  destruct (getTorrents_frame (traced w [EvLog Info MsgAttemptingFetch]))
    as (evs1 & H1 & Q1 & Q1').
  rewrite Hg in H1. cbn [snd traced trace] in H1.
  destruct (afterSummary_trace
              (traced w1 [EvLog Info (MsgConnected (List.length torrents))])
              hydrated) as (evs2 & H2 & Q2 & Q2').
  cbn [traced trace] in *. rewrite H2, H1, <- !app_assoc.
  eexists. split; [reflexivity|].
  rewrite !removeCalls_app, !removalRequests_app, Q1, Q1', Q2, Q2'.
  split; reflexivity.
Qed.

(** A torrent reported with ratio [-1]: the hydrated ratio is [-1] and
    the ratio rule does not match. *)
Lemma defaulting_preserves_sentinel_witness :
  uploadRatio (hydrate 7200%float
                 (normalizeTorrent (Sample.wire 1 "radarr" [] 1 (-1) 3600)))
  = (-1)%float
  /\ checkRatioRule (Sample.config [] false)
       (hydrate 7200%float
          (normalizeTorrent (Sample.wire 1 "radarr" [] 1 (-1) 3600)))
     = None.
Proof.
  apply (defaulting_preserves_sentinel 7200%float
           (Sample.wire 1 "radarr" [] 1 (-1) 3600) (Sample.config [] false)).
  reflexivity.
Defined.

(* ================================================================== *)
(** * Further properties of the rule engine                             *)
(* ================================================================== *)




(** A torrent the daemon reports complete ([percentDone] 1) is hydrated to
    100 % and is never a candidate for the reason [Dead], however old it
    is; one reported without [percentDone] is hydrated to 0 % and the dead
    rule matches it as soon as its age reaches [deadRetentionHours]. *)
Theorem complete_torrent_never_dead :
  forall (config : Config) (nowSeconds : Js.number) (w : WireTorrent),
    let t := hydrate nowSeconds (normalizeTorrent w) in
    (w_percentDone w = Some 1%float ->
     percentDone t = 100%float
     /\ checkDeadRule config t = None
     /\ forall c, In c (evaluate config t) -> reason c <> Dead)
    /\ (w_percentDone w = None ->
        Js.ge (ageHours t) (deadRetentionHours config) = true ->
        percentDone t = 0%float
        /\ checkDeadRule config t = Some {| torrent := t; reason := Dead |}).
Proof.
  intros config nowSeconds w t.
  assert (P : percentDone t
              = (Js.orNum (Some (Js.orNum (w_percentDone w) 0%float)) 0%float
                 * 100)%float) by reflexivity.
  clearbody t.
  split.
  - intros Hw. rewrite Hw in P. cbn in P.
    assert (D : checkDeadRule config t = None).
    { unfold checkDeadRule. cbv zeta. rewrite P. reflexivity. }
    split; [exact P|]. split; [exact D|].
    intros c Hc. unfold evaluate, Js.orElse in Hc. cbv zeta in Hc. rewrite D in Hc.
    destruct (checkRatioRule config t) as [r|] eqn:R.
    + apply checkRatioRule_reason in R. destruct Hc as [<-|[]]. subst r.
      discriminate.
    + destruct (checkTtlRule config t) as [x|] eqn:X; [|contradiction].
      apply checkTtlRule_reason in X. destruct Hc as [<-|[]]. subst x.
      discriminate.
  - intros Hw Hage. rewrite Hw in P. cbn in P. split; [exact P|].
    unfold checkDeadRule. cbv zeta. rewrite P, Hage. reflexivity.
Qed.

Lemma complete_torrent_never_dead_witness :
  percentDone (hydrate 720000%float
                 (normalizeTorrent (Sample.wire 1 "radarr" [] 1 0 0)))
  = 100%float
  /\ checkDeadRule (Sample.config [] false)
       (hydrate 720000%float
          (normalizeTorrent (Sample.wire 1 "radarr" [] 1 0 0)))
     = None
  /\ forall c,
       In c (evaluate (Sample.config [] false)
               (hydrate 720000%float
                  (normalizeTorrent (Sample.wire 1 "radarr" [] 1 0 0)))) ->
       reason c <> Dead.
Proof.
  apply (complete_torrent_never_dead (Sample.config [] false) 720000%float
           (Sample.wire 1 "radarr" [] 1 0 0)).
  reflexivity.
Defined.

(* ================================================================== *)
(** * Further properties of the RPC client                              *)
(* ================================================================== *)

Lemma answerOf_returns r p :
  answerOf r = Returns p -> ok r = true /\ body r = BodyJson "success" p.
Proof.
  unfold answerOf. destruct (ok r); cbn [negb]; [|discriminate].
  destruct (body r) as [pe|res arg]; [discriminate|].
  destruct (String.eqb_spec res "success") as [->|N]; cbn [negb];
    [|discriminate].
  intros [= ->]. split; reflexivity.
Qed.

(** [rpc] returns a payload only from an answer whose status is in
    200..299 and whose JSON result is "success": that answer is the last
    one of the call, its [arguments] are what is returned, and every
    answer of the call before it was a 409. *)
Theorem rpc_returns_only_success :
  forall (method : string) (args : RpcArgs) (retryCount : nat)
         (w : World) (p : Js.nullable Payload) (w' : World),
    rpc method args retryCount w = (Returns p, w') ->
    fetched w < fetched w'
    /\ (exists r,
          daemon w (fetched w' - 1) = FetchResolves r
          /\ ok r = true
          /\ body r = BodyJson "success" p)
    /\ (forall i, fetched w <= i < fetched w' - 1 ->
                  exists r, daemon w i = FetchResolves r /\ status r = 409).
Proof.
  intros method args retryCount.
  remember (3 - retryCount) as n eqn:En. revert retryCount En.
  induction n as [|n IH]; intros retryCount En w p w' H;
    rewrite rpc_by_answer in H;
    destruct (daemon w (fetched w)) as [err|r] eqn:D; try discriminate;
    cbv zeta in H;
    destruct (Nat.eqb_spec (status r) 409) as [S409|S409].
  - destruct (Nat.leb_spec 2 retryCount); [discriminate|lia].
  - injection H as Ha <-. cbn [exchanged fetched].
    apply answerOf_returns in Ha. destruct Ha as (Hok & Hb).
    rewrite Nat.sub_1_r. cbn [Nat.pred].
    split; [lia|]. split; [exists r; auto|]. intros i Hi. lia.
  - destruct (Nat.leb_spec 2 retryCount); [discriminate|].
    apply IH in H; [|lia].
    cbn [exchanged fetched daemon] in H.
    destruct H as (Hf & (r' & Hd & Hok & Hb) & Hprev).
    split; [lia|]. split; [exists r'; auto|].
    intros i Hi. destruct (Nat.eq_dec i (fetched w)) as [->|Ni].
    + exists r. auto.
    + apply Hprev. lia.
  - injection H as Ha <-. cbn [exchanged fetched].
    apply answerOf_returns in Ha. destruct Ha as (Hok & Hb).
    rewrite Nat.sub_1_r. cbn [Nat.pred].
    split; [lia|]. split; [exists r; auto|]. intros i Hi. lia.
Qed.

(** A 409 with a token, then a success that carries a list. *)
Lemma rpc_returns_only_success_witness :
  let w := Sample.world
             (Sample.script [FetchResolves (Sample.conflict (Some "tok"))]
                            (FetchResolves (Sample.success []))) in
  exists r,
    daemon w (fetched (snd (rpc "torrent-get" torrentGet 0 w)) - 1)
    = FetchResolves r
    /\ ok r = true
    /\ body r = BodyJson "success" (Js.Defined {| torrents := Some [] |}).
Proof.
  cbv zeta.
  refine (proj1 (proj2 (rpc_returns_only_success "torrent-get" torrentGet 0
    (Sample.world
       (Sample.script [FetchResolves (Sample.conflict (Some "tok"))]
                      (FetchResolves (Sample.success []))))
    (Js.Defined {| torrents := Some [] |})
    (snd (rpc "torrent-get" torrentGet 0
            (Sample.world
               (Sample.script [FetchResolves (Sample.conflict (Some "tok"))]
                              (FetchResolves (Sample.success []))))))
    _))).
  vm_compute. reflexivity.
Defined.

(** Every error [rpc] throws was built by its [catch] block, once: its
    message is "Transmission RPC call failed: " followed by the message of
    the error caught, and that error is the rejection of the last
    [fetch], the negotiation failure after a 409, the report of a status
    outside 200..299, the rejection of [response.json()] or the report of
    a result that is not "success". *)
Theorem rpc_throws_wrapped :
  forall (method : string) (args : RpcArgs) (retryCount : nat)
         (w : World) (e : JsError) (w' : World),
    rpc method args retryCount w = (Throws e, w') ->
    exists inner,
      e = wrapRpcError inner
      /\ message e
         = ("Transmission RPC call failed: " ++ message inner)%string
      /\ (daemon w (fetched w' - 1) = FetchRejects inner
          \/ exists r,
               daemon w (fetched w' - 1) = FetchResolves r
               /\ ((status r = 409 /\ inner = negotiationFailed)
                   \/ (status r <> 409 /\ ok r = false
                       /\ inner = mkError ("API request failed: ["
                                           ++ Js.showNat (status r) ++ "] "
                                           ++ statusText r)%string)
                   \/ (ok r = true /\ body r = BodyMalformed inner)
                   \/ (exists result arguments,
                         ok r = true
                         /\ body r = BodyJson result arguments
                         /\ result <> "success"
                         /\ inner = mkError ("RPC error: " ++ result)%string))).
Proof. exact rpc_error_shape. Qed.

(** The daemon answers 401: the error is the wrapped status report. *)
Lemma rpc_throws_wrapped_witness :
  exists inner,
    mkError "Transmission RPC call failed: API request failed: [401] Unauthorized"
    = wrapRpcError inner
    /\ message
         (mkError "Transmission RPC call failed: API request failed: [401] Unauthorized")
       = ("Transmission RPC call failed: " ++ message inner)%string.
Proof.
  destruct (rpc_throws_wrapped "torrent-get" torrentGet 0
              (Sample.world (fun _ => FetchResolves Sample.unauthorized))
              (mkError "Transmission RPC call failed: API request failed: [401] Unauthorized")
              (snd (rpc "torrent-get" torrentGet 0
                      (Sample.world (fun _ => FetchResolves Sample.unauthorized)))))
    as (inner & H1 & H2 & _).
  - vm_compute. reflexivity.
  - exists inner. split; [exact H1|exact H2].
Defined.

Lemma headerOf_some v tok : headerOf v = Some tok -> v = Some tok /\ tok <> "".
Proof.
  destruct v as [[|c s]|]; cbn; try discriminate.
  intros [= <-]. split; [reflexivity|discriminate].
Qed.

(** The session token [rpc] leaves in the client is the one held before
    the call or a non-empty token that an answer of this call carried in
    its header; a token that is held is never dropped. *)
Theorem rpc_token_from_daemon :
  forall (method : string) (args : RpcArgs) (retryCount : nat) (w : World),
    let w' := snd (rpc method args retryCount w) in
    (sessionId w' = sessionId w
     \/ exists i r tok,
          fetched w <= i < fetched w'
          /\ daemon w i = FetchResolves r
          /\ sessionHeader r = Some tok
          /\ tok <> ""
          /\ sessionId w' = Some tok)
    /\ (sessionId w <> None -> sessionId w' <> None).
Proof.
  intros method args retryCount.
  remember (3 - retryCount) as n eqn:En. revert retryCount En.
  assert (X : forall w r rc,
              daemon w (fetched w) = FetchResolves r ->
              let w1 := exchanged w method args rc (headerOf (sessionHeader r)) in
              (sessionId w1 = sessionId w
               \/ exists i r0 tok,
                    fetched w <= i < fetched w1
                    /\ daemon w i = FetchResolves r0
                    /\ sessionHeader r0 = Some tok
                    /\ tok <> ""
                    /\ sessionId w1 = Some tok)
              /\ (sessionId w <> None -> sessionId w1 <> None)).
  { intros w r rc D. cbv zeta. cbn [exchanged sessionId fetched].
    destruct (headerOf (sessionHeader r)) as [tok|] eqn:H.
    - apply headerOf_some in H. destruct H as (H & Hne).
      split; [|discriminate]. right. exists (fetched w), r, tok.
      repeat split; auto.
    - split; [left; reflexivity|auto]. }
  induction n as [|n IH]; intros retryCount En w; cbv zeta;
    rewrite rpc_by_answer;
    destruct (daemon w (fetched w)) as [err|r] eqn:D;
    try (cbn; split; [left; reflexivity|auto]; fail);
    cbv zeta;
    (destruct (status r =? 409)%nat; [|cbn [snd]; apply X; exact D]);
    (destruct (Nat.leb_spec 2 retryCount); [cbn [snd]; apply X; exact D|]).
  - lia.
  - destruct (X w r retryCount D) as (X1 & X2). cbv zeta in X1, X2.
    set (w1 := exchanged w method args retryCount (headerOf (sessionHeader r))) in *.
    destruct (IH (retryCount + 1) ltac:(lia) w1) as (I1 & I2).
    pose proof (rpc_frame method args (retryCount + 1) w1) as F. cbv zeta in F.
    destruct F as (_ & _ & _ & Fn & _).
    set (w' := snd (rpc method args (retryCount + 1) w1)) in *.
    assert (F1 : fetched w1 = S (fetched w)) by reflexivity.
    assert (D1 : daemon w1 = daemon w) by reflexivity.
    split; [|auto].
    destruct I1 as [I1|(i & r0 & tok & Hi & Hd & Hh & Hne & Hs)].
    + rewrite I1. destruct X1 as [X1|(i & r0 & tok & Hi & Hd & Hh & Hne & Hs)].
      * left. exact X1.
      * right. exists i, r0, tok. repeat split; auto; lia.
    + right. exists i, r0, tok. rewrite D1 in Hd. repeat split; auto; lia.
Qed.

(* ------------------------------------------------------------------ *)
(** ** The whole of [getTorrents]                                       *)
(* ------------------------------------------------------------------ *)

(** The loop entered at [attempt] with the iterations that remain up to
    attempt 30: it makes at least one attempt, it awaits 1000 ms after
    each attempt but the last one it makes, and when it throws it has
    made them all and the error is the one the 30th attempt threw. *)
Lemma getTorrentsLoop_exhausts remaining :
  forall attempt w,
    attempt + remaining = 31 -> 1 <= remaining ->
    exists evs,
      trace (snd (getTorrentsLoop remaining attempt w)) = trace w ++ evs
      /\ 1 <= attempts evs <= remaining
      /\ sleeps evs = repeat 1000 (attempts evs - 1)
      /\ forall e,
           fst (getTorrentsLoop remaining attempt w) = Throws e ->
           attempts evs = remaining
           /\ (e = undefinedTorrents \/ e = nullTorrents
               \/ exists inner, e = wrapRpcError inner).
Proof.
  induction remaining as [|remaining IH]; intros attempt w Hsum Hrem; [lia|].
  rewrite getTorrentsLoop_step.
  pose proof (fetchAttempt_frame attempt w) as F. cbv zeta in F.
  destruct F as (_ & _ & _ & _ & evs & Ht & A1 & A2 & _).
  destruct (fetchAttempt attempt w) as [[torrents|e] w1] eqn:Ef; cbn [snd fst] in *.
  - exists evs. rewrite A1, A2.
    split; [exact Ht|]. split; [lia|]. split; [reflexivity|].
    intros e; discriminate.
  - destruct (Nat.leb_spec 30 attempt) as [L|L].
    + assert (attempt = 30) by lia. subst attempt.
      destruct (rethrowEvents_quiet 30 e) as (R1 & R2 & _).
      exists (evs ++ rethrowEvents 30 e). cbn [snd fst traced trace].
      rewrite Ht, <- app_assoc, attempts_app, sleeps_app, A1, A2, R1, R2.
      split; [reflexivity|]. split; [lia|]. split; [reflexivity|].
      intros e' [= <-]. split; [lia|].
      rewrite fetchAttempt_by_rpc in Ef.
      destruct (rpc "torrent-get" torrentGet 0 w) as [[[| |payload]|e0] w0] eqn:Er;
        try discriminate.
      * injection Ef as <- _. left. reflexivity.
      * injection Ef as <- _. right. left. reflexivity.
      * injection Ef as <- _. right. right.
        destruct (rpc_error_shape _ _ _ _ _ _ Er) as (inner & -> & _).
        exists inner. reflexivity.
    + destruct (IH (S attempt) (traced w1 (retryEvents attempt e)))
        as (evs' & It & (I1 & I1') & I2 & I3); [lia|lia|].
      destruct (retryEvents_quiet attempt e) as (R1 & R2 & _).
      exists (evs ++ retryEvents attempt e ++ evs').
      rewrite It. cbn [traced trace]. rewrite Ht, <- !app_assoc.
      rewrite !attempts_app, !sleeps_app, A1, A2, R1, R2, I2.
      cbn [app Nat.add].
      split; [reflexivity|]. split; [lia|]. split.
      * destruct (attempts evs') as [|k]; [lia|].
        cbn. rewrite Nat.sub_0_r. reflexivity.
      * intros e' He'. destruct (I3 e' He') as (I4 & I5). split; [lia|exact I5].
Qed.

(** [getTorrents] makes between 1 and 30 attempts and awaits 1000 ms
    once for each attempt but the last and at no other time, so at most
    29 s in all.  It throws only after 30 attempts, and what it throws is
    an error an attempt threw (one that [rpc] built, or the [TypeError]
    of reading [torrents] of an answer whose [arguments] are absent or
    [null]): the error of the [throw] that follows the loop is never
    thrown. *)
Theorem getTorrents_attempts_and_delays :
  forall (w : World),
    exists evs,
      trace (snd (getTorrents w)) = trace w ++ evs
      /\ 1 <= attempts evs <= 30
      /\ sleeps evs = repeat 1000 (attempts evs - 1)
      /\ list_sum (sleeps evs) <= 29 * 1000
      /\ forall e,
           fst (getTorrents w) = Throws e ->
           attempts evs = 30
           /\ (e = undefinedTorrents \/ e = nullTorrents
               \/ exists inner, e = wrapRpcError inner)
           /\ e <> exhausted.
Proof.
  intros w. rewrite getTorrents_by_loop.
  destruct (getTorrentsLoop_exhausts 30 1 (traced w [EvCall CallGetTorrents]))
    as (evs & Ht & Ha & Hs & He); [reflexivity|lia|].
  exists (EvCall CallGetTorrents :: evs).
  rewrite Ht. cbn [traced trace]. rewrite <- app_assoc.
  split; [reflexivity|]. cbn [attempts sleeps].
  split; [exact Ha|]. split; [exact Hs|]. split.
  2:{ intros e Hthrow. destruct (He e Hthrow) as (H30 & Hshape).
      split; [exact H30|]. split; [exact Hshape|].
      destruct Hshape as [->|[->|(inner & ->)]]; discriminate. }
  rewrite Hs.
  assert (S : forall k, list_sum (repeat 1000 k) = 1000 * k).
  { induction k as [|k IHk]; [reflexivity|].
    change (list_sum (repeat 1000 (S k)))
      with (1000 + list_sum (repeat 1000 k)).
    rewrite IHk. lia. }
  rewrite S. lia.
Qed.

(** [removeTorrents] is one call of [rpc]: one entry on the trace with
    the ids and the flag given, no delay awaited, between one and three
    requests, each a [torrent-remove] with these arguments.  A request
    that is rejected is not sent again: the call throws the wrapped
    error after that one request. *)
Theorem removeTorrents_is_not_retried :
  forall (ids : list (Js.field Js.number)) (deleteLocalData : bool) (w : World),
    exists evs,
      trace (snd (removeTorrents ids deleteLocalData w)) = trace w ++ evs
      /\ removeCalls evs = [(ids, deleteLocalData)]
      /\ sleeps evs = []
      /\ attempts evs = 1
      /\ 1 <= List.length (requests evs) <= 3
      /\ Forall (fun req =>
                   req_method req = "torrent-remove"
                   /\ req_args req = TorrentRemoveArgs ids deleteLocalData)
                (requests evs)
      /\ (forall e,
            daemon w (fetched w) = FetchRejects e ->
            fst (removeTorrents ids deleteLocalData w) = Throws (wrapRpcError e)
            /\ List.length (requests evs) = 1).
Proof.
  intros ids deleteLocalData w. rewrite removeTorrents_by_rpc.
  set (w0 := traced w [EvCall (CallRemoveTorrents ids deleteLocalData)]).
  set (args := TorrentRemoveArgs ids deleteLocalData).
  pose proof (rpc_frame "torrent-remove" args 0 w0) as F. cbv zeta in F.
  destruct F as (_ & _ & _ & Fn & revs & Hr & Hev).
  destruct (rpc_requests_count "torrent-remove" args 0 w0) as (cevs & Hc & Hl).
  rewrite Hr in Hc. apply app_inv_head in Hc. subst cevs.
  pose proof (retransmissions_quiet _ _ _ _ Hev) as (Q1 & Q2 & Q3 & _ & Q5).
  assert (E : forall e, daemon w (fetched w) = FetchRejects e ->
              rpc "torrent-remove" args 0 w0
              = (Throws (wrapRpcError e), exchanged w0 "torrent-remove" args 0 None)).
  { intros e He. rewrite rpc_by_answer.
    change (daemon w0 (fetched w0)) with (daemon w (fetched w)).
    rewrite He. reflexivity. }
  exists (EvCall (CallRemoveTorrents ids deleteLocalData)
          :: EvCall (CallRpc "torrent-remove" args 0)
          :: EvFetch (requestOf w0 "torrent-remove" args) :: revs).
  assert (T : trace (snd (rpc "torrent-remove" args 0 w0))
              = trace w ++ EvCall (CallRemoveTorrents ids deleteLocalData)
                :: EvCall (CallRpc "torrent-remove" args 0)
                :: EvFetch (requestOf w0 "torrent-remove" args) :: revs).
  { rewrite Hr. subst w0. cbn [traced trace]. rewrite <- app_assoc. reflexivity. }
  cbn [Nat.sub Nat.max] in Fn.
  cbn [requests List.length] in Hl.
  split.
  { destruct (rpc "torrent-remove" args 0 w0) as [[r|e] w']; exact T. }
  cbn [removeCalls sleeps attempts requests List.length].
  rewrite Q1, Q2, Q3.
  split; [reflexivity|]. split; [reflexivity|]. split; [reflexivity|].
  split; [lia|]. split.
  { constructor; [split; reflexivity|exact Q5]. }
  intros e He. rewrite (E e He). split; [reflexivity|].
  rewrite (E e He) in Hl. cbn [snd exchanged fetched] in Hl. lia.
Qed.

(* ================================================================== *)
(** * Further properties of a run                                       *)
(* ================================================================== *)

(** What [performRemoval] puts on the trace. *)
Lemma performRemoval_trace config ids w :
  exists evs,
    trace (snd (performRemoval config ids w)) = trace w ++ evs
    /\ removeCalls evs = (if dryRun config then [] else [(ids, true)])
    /\ (dryRun config = true -> removalRequests evs = []).
Proof.
  rewrite performRemoval_by_flag. destruct (dryRun config).
  - eexists. split; [reflexivity|]. split; [reflexivity|]. reflexivity.
  - rewrite removeTorrents_by_rpc.
    match goal with
    | |- context [rpc ?m ?a 0 ?x] =>
        pose proof (rpc_frame m a 0 x) as F; cbv zeta in F;
        destruct F as (_ & _ & _ & _ & revs & Hr & Hev);
        destruct (rpc m a 0 x) as [[r|e] w']
    end;
      cbn [snd traced trace] in *;
      destruct (removal_requests_carry _ _ Hev) as (_ & V2);
      rewrite Hr, <- !app_assoc; cbn [app];
      eexists; (split; [reflexivity|]);
      (split; [|discriminate]);
      cbn [removeCalls]; rewrite ?removeCalls_app, V2; reflexivity.
Qed.

(** The members of the eligible list. *)
Lemma eligibleOf_members toLowerCase url_hostname config hydrated eligible t :
  eligibleOf toLowerCase url_hostname config hydrated = Returns eligible ->
  In t eligible ->
  In t hydrated /\ labelAllowed toLowerCase config t /\ ~ hostExcluded toLowerCase url_hostname config t.
Proof.
  unfold eligibleOf. intros H Hin.
  apply filterThrowing_returns in H. subst eligible.
  apply filter_In in Hin. destruct Hin as (Hin & Hn).
  apply filter_In in Hin. destruct Hin as (Hin & Hl).
  split; [exact Hin|]. split; [apply isAllowedLabel_spec; exact Hl|].
  intros Hx. apply hostExcludedb_spec in Hx. rewrite Hx in Hn. discriminate.
Qed.

Lemma evaluate_singleton config t c :
  In c (evaluate config t) -> evaluate config t = [c] /\ torrent c = t.
Proof.
  intros H. split; [|apply (evaluate_torrent config t c H)].
  pose proof (evaluate_at_most_one config t) as L.
  destruct (evaluate config t) as [|x [|y l]]; cbn in *; try lia; try tauto.
  destruct H as [->|[]]. reflexivity.
Qed.

(** Whatever the daemon answers, a run calls [removeTorrents] at most
    once.  With the dry-run flag on it never calls it and sends no
    [torrent-remove] request.  When it does call it, the fetch had
    succeeded, the filters had returned, the flag is [true] and the ids
    are those of the candidates, in order; and every candidate is a
    fetched torrent whose label is allowed, none of whose announce
    hostnames contains an excluded token, and for which [evaluate] gives
    this candidate. *)
Theorem run_removes_only_candidates :
  forall (toLowerCase : string -> string)
         (url_hostname : string -> option string) (config : Config)
         (nowSeconds : Js.number) (w : World),
    exists evs,
      trace (snd (run toLowerCase url_hostname config nowSeconds w)) = trace w ++ evs
      /\ (dryRun config = true ->
          removeCalls evs = [] /\ removalRequests evs = [])
      /\ (removeCalls evs = []
          \/ exists torrents w1 eligible,
               getTorrents (traced w [EvLog Info MsgAttemptingFetch])
               = (Returns torrents, w1)
               /\ eligibleOf toLowerCase url_hostname config (map (hydrate nowSeconds) torrents)
                  = Returns eligible
               /\ dryRun config = false
               /\ removeCalls evs
                  = [(candidateIds (flat_map (evaluate config) eligible), true)]
               /\ forall c,
                    In c (flat_map (evaluate config) eligible) ->
                    In (torrent c) (map (hydrate nowSeconds) torrents)
                    /\ labelAllowed toLowerCase config (torrent c)
                    /\ ~ hostExcluded toLowerCase url_hostname config (torrent c)
                    /\ evaluate config (torrent c) = [c]).
Proof.
  intros toLowerCase url_hostname config nowSeconds w. rewrite run_by_stages.
  destruct (getTorrents (traced w [EvLog Info MsgAttemptingFetch]))
    as [[torrents|e] w1] eqn:Hg.
  - cbv zeta.
    destruct (if isFirstRun w1
              then summaryError (map (hydrate nowSeconds) torrents)
              else None) as [e|].
    { destruct (run_connected_quiet w torrents w1 Hg) as (evs & Ht & Q1 & Q2).
      exists evs. cbn [snd]. auto. }
    destruct (eligibleOf toLowerCase url_hostname config (map (hydrate nowSeconds) torrents))
      as [eligible|e] eqn:He.
    + destruct (run_prefix_quiet w torrents w1 (map (hydrate nowSeconds) torrents)
                  (MsgFiltering (List.length torrents)
                     (List.length
                        (filter (isAllowedLabel toLowerCase config)
                           (map (hydrate nowSeconds) torrents)))
                     (List.length eligible)) Hg) as (evs & Ht & Q1 & Q2).
      match type of Ht with
      | trace ?x = _ => set (w3 := x) in *
      end.
      destruct (List.length (flat_map (evaluate config) eligible) =? 0)%nat.
      * cbn [snd traced trace]. rewrite Ht, <- app_assoc.
        eexists. split; [reflexivity|].
        rewrite removeCalls_app, removalRequests_app, Q1, Q2. auto.
      * destruct (performRemoval_trace config
                    (candidateIds (flat_map (evaluate config) eligible))
                    (traced w3
                       (candidateEvents (flat_map (evaluate config) eligible))))
          as (pevs & Hp & P1 & P2).
        destruct (candidateEvents_quiet (flat_map (evaluate config) eligible))
          as (C1 & C2).
        cbn [traced trace] in Hp. rewrite Hp, Ht, <- !app_assoc.
        eexists. split; [reflexivity|].
        rewrite !removeCalls_app, !removalRequests_app, Q1, Q2, C1, C2, P1.
        cbn [app]. split.
        { intros Hdry. rewrite Hdry. split; [reflexivity|exact (P2 Hdry)]. }
        destruct (dryRun config); [left; reflexivity|].
        right. exists torrents, w1, eligible.
        split; [reflexivity|]. split; [exact He|]. split; [reflexivity|].
        split; [reflexivity|].
        intros c Hc. apply in_flat_map in Hc. destruct Hc as (t & Hin & Hc).
        destruct (evaluate_singleton config t c Hc) as (Hev & Ht').
        rewrite Ht'.
        destruct (eligibleOf_members _ _ _ _ _ t He Hin) as (M1 & M2 & M3).
        auto.
    + destruct (run_summary_quiet w torrents w1 (map (hydrate nowSeconds) torrents) Hg)
        as (evs & Ht & Q1 & Q2).
      exists evs. cbn [snd]. auto.
  - destruct (getTorrents_frame (traced w [EvLog Info MsgAttemptingFetch]))
      as (evs & Ht & Q1 & Q2).
    rewrite Hg in Ht. cbn [snd traced trace] in *.
    rewrite Ht, <- !app_assoc. eexists. split; [reflexivity|].
    rewrite !removeCalls_app, !removalRequests_app, Q1, Q2. auto.
Qed.

(** A run whose fetch throws: the run throws the same error after
    logging its message, removes nothing and leaves the first-run flag
    as it was, so the summary is still due. *)
Theorem run_propagates_fetch_error :
  forall (toLowerCase : string -> string)
         (url_hostname : string -> option string) (config : Config)
         (nowSeconds : Js.number) (w : World) (e : JsError) (w1 : World),
    getTorrents (traced w [EvLog Info MsgAttemptingFetch]) = (Throws e, w1) ->
    exists w' evs,
      run toLowerCase url_hostname config nowSeconds w = (Throws e, w')
      /\ trace w' = trace w ++ evs ++ [EvLog Err (MsgFailedToConnect (message e))]
      /\ removeCalls evs = []
      /\ removalRequests evs = []
      /\ isFirstRun w' = isFirstRun w.
Proof.
  intros toLowerCase url_hostname config nowSeconds w e w1 Hg.
  rewrite run_by_stages, Hg.
  destruct (getTorrents_frame (traced w [EvLog Info MsgAttemptingFetch]))
    as (evs & Ht & Q1 & Q2).
  pose proof (getTorrentsLoop_frame 30 1
                (traced (traced w [EvLog Info MsgAttemptingFetch])
                        [EvCall CallGetTorrents])) as F.
  cbv zeta in F. rewrite <- getTorrents_by_loop in F.
  destruct F as (_ & _ & Hf & _).
  rewrite Hg in Ht, Hf. cbn [snd traced trace isFirstRun] in *.
  eexists. exists (EvLog Info MsgAttemptingFetch :: evs).
  split; [reflexivity|]. cbn [traced trace isFirstRun].
  rewrite Ht, <- !app_assoc. cbn [app].
  split; [reflexivity|]. auto.
Qed.

(** The daemon cannot be reached at all. *)
Lemma run_propagates_fetch_error_witness :
  exists w' evs,
    run lowerAscii simpleHostname (Sample.config [] false) 7200%float
        (Sample.world (fun _ => Sample.unreachable))
    = (Throws (mkError "Transmission RPC call failed: fetch failed"), w')
    /\ trace w'
       = trace (Sample.world (fun _ => Sample.unreachable)) ++ evs
         ++ [EvLog Err (MsgFailedToConnect
                          (message (mkError "Transmission RPC call failed: fetch failed")))]
    /\ removeCalls evs = []
    /\ removalRequests evs = []
    /\ isFirstRun w' = isFirstRun (Sample.world (fun _ => Sample.unreachable)).
Proof.
  eapply run_propagates_fetch_error.
  vm_compute. reflexivity.
Defined.

Lemma keepsToken_trans w1 w2 w3 :
  keepsToken w1 w2 -> keepsToken w2 w3 -> keepsToken w1 w3.
Proof. unfold keepsToken. auto. Qed.

Lemma rpc_keeps_token method args retryCount w :
  keepsToken w (snd (rpc method args retryCount w)).
Proof.
  remember (3 - retryCount) as n eqn:En. revert retryCount w En.
  assert (X : forall w rc tok, keepsToken w (exchanged w method args rc tok)).
  { intros w rc [tok|]; unfold keepsToken; cbn; [discriminate|auto]. }
  induction n as [|n IH]; intros retryCount w En;
    rewrite rpc_by_answer;
    (destruct (daemon w (fetched w)) as [err|r]; [apply X|]);
    cbv zeta;
    (destruct (status r =? 409)%nat; [|apply X]);
    (destruct (Nat.leb_spec 2 retryCount); [apply X|]).
  - lia.
  - eapply keepsToken_trans; [apply X|]. apply IH. lia.
Qed.

Lemma logged_app a b : logged (a ++ b) = logged a ++ logged b.
Proof.
  induction a as [|[c|req|ms|l m] a IH]; cbn; rewrite ?IH; reflexivity.
Qed.

Lemma summaryLines_app a b :
  summaryLines (a ++ b) = summaryLines a ++ summaryLines b.
Proof. unfold summaryLines. rewrite logged_app, map_app. apply filter_app. Qed.

Lemma summaryLines_call c l : summaryLines (EvCall c :: l) = summaryLines l.
Proof. reflexivity. Qed.

Lemma summaryLines_fetch req l : summaryLines (EvFetch req :: l) = summaryLines l.
Proof. reflexivity. Qed.

Lemma summaryLines_sleep ms l : summaryLines (EvSleep ms :: l) = summaryLines l.
Proof. reflexivity. Qed.

Lemma summaryLines_log level msg l :
  summaryLines (EvLog level msg :: l)
  = (if summaryLine msg then [msg] else []) ++ summaryLines l.
Proof. unfold summaryLines. cbn. destruct (summaryLine msg); reflexivity. Qed.

Lemma summaryLines_nil : summaryLines [] = [].
Proof. reflexivity. Qed.

Ltac summary_norm :=
  repeat first
    [ rewrite summaryLines_app
    | rewrite summaryLines_call
    | rewrite summaryLines_fetch
    | rewrite summaryLines_sleep
    | rewrite summaryLines_log
    | rewrite summaryLines_nil ];
  cbn [summaryLine app].

(** One attempt starts with the entry of [rpc] and its request, holds on
    to the token and logs no line of the table. *)
Lemma fetchAttempt_first attempt w :
  keepsToken w (snd (fetchAttempt attempt w))
  /\ sessionId (snd (fetchAttempt attempt w))
     = sessionId (snd (rpc "torrent-get" torrentGet 0 w))
  /\ exists rest,
       trace (snd (fetchAttempt attempt w))
       = trace w ++ EvCall (CallRpc "torrent-get" torrentGet 0)
                 :: EvFetch (requestOf w "torrent-get" torrentGet) :: rest
       /\ summaryLines rest = [].
Proof.
  rewrite fetchAttempt_by_rpc.
  pose proof (rpc_keeps_token "torrent-get" torrentGet 0 w) as K.
  pose proof (rpc_frame "torrent-get" torrentGet 0 w) as F. cbv zeta in F.
  destruct F as (_ & _ & _ & _ & evs & Ht & Hev).
  apply retransmissions_quiet in Hev. destruct Hev as (_ & _ & _ & Q & _).
  assert (S0 : summaryLines evs = []) by (unfold summaryLines; rewrite Q; reflexivity).
  destruct (rpc "torrent-get" torrentGet 0 w) as [[[| |payload]|e] w'];
    cbn [snd traced trace sessionId] in *;
    (split; [exact K|]); (split; [reflexivity|]).
  - exists evs. auto.
  - exists evs. auto.
  - exists (evs ++ [fetchedLine attempt (List.length (torrentsOf payload))]).
    rewrite Ht, <- app_assoc. split; [reflexivity|].
    rewrite summaryLines_app, S0. unfold fetchedLine.
    destruct (1 <? attempt)%nat; reflexivity.
  - exists evs. auto.
Qed.

Lemma retryEvents_no_summary attempt e : summaryLines (retryEvents attempt e) = [].
Proof. unfold retryEvents. destruct (_ && _)%bool; reflexivity. Qed.

Lemma rethrowEvents_no_summary attempt e : summaryLines (rethrowEvents attempt e) = [].
Proof. unfold rethrowEvents. destruct (_ && _)%bool; reflexivity. Qed.

Lemma getTorrentsLoop_first remaining :
  forall attempt w,
    keepsToken w (snd (getTorrentsLoop (S remaining) attempt w))
    /\ exists rest,
         trace (snd (getTorrentsLoop (S remaining) attempt w))
         = trace w ++ EvCall (CallRpc "torrent-get" torrentGet 0)
                   :: EvFetch (requestOf w "torrent-get" torrentGet) :: rest
         /\ summaryLines rest = [].
Proof.
  induction remaining as [|remaining IH]; intros attempt w;
    rewrite getTorrentsLoop_step;
    destruct (fetchAttempt_first attempt w) as (K & _ & rest & Ht & S0);
    destruct (fetchAttempt attempt w) as [[torrents|e] w1];
    cbn [snd] in *;
    try (split; [exact K|]; exists rest; auto; fail);
    (destruct (30 <=? attempt)%nat;
     [cbn [snd traced trace]; split; [exact K|];
      exists (rest ++ rethrowEvents attempt e);
      rewrite Ht, <- app_assoc, summaryLines_app, S0, rethrowEvents_no_summary;
      auto|]).
  - cbn [getTorrentsLoop throw snd traced trace]. split; [exact K|].
    exists (rest ++ retryEvents attempt e).
    rewrite Ht, <- app_assoc, summaryLines_app, S0, retryEvents_no_summary. auto.
  - destruct (IH (S attempt) (traced w1 (retryEvents attempt e)))
      as (K' & rest' & Ht' & S1).
    split; [eapply keepsToken_trans; [exact K|exact K']|].
    rewrite Ht'. cbn [traced trace]. rewrite Ht, <- !app_assoc. cbn [app].
    eexists. split; [reflexivity|].
    rewrite !summaryLines_app, S0, retryEvents_no_summary.
    change (summaryLines
              (EvCall (CallRpc "torrent-get" torrentGet 0)
               :: EvFetch (requestOf (traced w1 (retryEvents attempt e))
                                     "torrent-get" torrentGet) :: rest'))
      with (summaryLines rest').
    rewrite S1. reflexivity.
Qed.

Lemma performRemoval_frame config ids w :
  keepsToken w (snd (performRemoval config ids w))
  /\ isFirstRun (snd (performRemoval config ids w)) = isFirstRun w
  /\ exists evs,
       trace (snd (performRemoval config ids w)) = trace w ++ evs
       /\ summaryLines evs = [].
Proof.
  rewrite performRemoval_by_flag. destruct (dryRun config).
  - cbn [snd]. split; [unfold keepsToken; auto|]. split; [reflexivity|].
    eexists. split; [reflexivity|reflexivity].
  - rewrite removeTorrents_by_rpc.
    match goal with
    | |- context [rpc ?m ?a 0 ?x] =>
        pose proof (rpc_keeps_token m a 0 x) as K;
        pose proof (rpc_frame m a 0 x) as F; cbv zeta in F;
        destruct F as (_ & _ & Hf & _ & revs & Hr & Hev);
        destruct (rpc m a 0 x) as [[r|e] w']
    end;
      apply retransmissions_quiet in Hev;
      destruct Hev as (_ & _ & _ & Q & _);
      assert (S0 : summaryLines revs = [])
        by (unfold summaryLines; rewrite Q; reflexivity);
      cbn [snd traced trace isFirstRun] in *;
      (split; [exact K|]); (split; [exact Hf|]);
      rewrite Hr, <- !app_assoc;
      eexists; (split; [reflexivity|]);
      summary_norm; rewrite S0; reflexivity.
Qed.

Lemma summaryEvents_lines hydrated :
  summaryLines (summaryEvents hydrated)
  = if (List.length hydrated =? 0)%nat then []
    else MsgSummaryHeader :: MsgSummaryRule :: map MsgSummaryRow hydrated.
Proof.
  unfold summaryEvents. rewrite summaryLines_app.
  change (summaryLines [EvLog Info MsgSeparator]) with (@nil LogMsg).
  rewrite app_nil_r.
  destruct (List.length hydrated =? 0)%nat; [reflexivity|].
  unfold summaryLines. cbn [logged map snd filter summaryLine]. f_equal. f_equal.
  induction hydrated as [|t l IH]; [reflexivity|].
  cbn [map logged snd filter summaryLine]. rewrite IH. reflexivity.
Qed.

Lemma candidateEvents_no_summary candidates :
  summaryLines (candidateEvents candidates) = [].
Proof.
  unfold candidateEvents, summaryLines. cbn [logged map snd filter summaryLine].
  induction candidates as [|c l IH]; [reflexivity|].
  cbn [map logged snd filter summaryLine]. exact IH.
Qed.

(** The frame of a run: how its trace starts, what it logs of the table,
    what it does to the first-run flag and to the token. *)
Lemma run_frame toLowerCase url_hostname config nowSeconds w :
  keepsToken w (snd (run toLowerCase url_hostname config nowSeconds w))
  /\ exists rest,
       trace (snd (run toLowerCase url_hostname config nowSeconds w))
       = trace w ++ EvLog Info MsgAttemptingFetch :: EvCall CallGetTorrents
                 :: EvCall (CallRpc "torrent-get" torrentGet 0)
                 :: EvFetch (requestOf w "torrent-get" torrentGet) :: rest
       /\ match fst (getTorrents (traced w [EvLog Info MsgAttemptingFetch])) with
          | Throws _ =>
              summaryLines rest = []
          | Returns torrents =>
              match (if isFirstRun w
                     then summaryError (map (hydrate nowSeconds) torrents)
                     else None) with
              | Some e =>
                  fst (run toLowerCase url_hostname config nowSeconds w) = Throws e
                  /\ isFirstRun (snd (run toLowerCase url_hostname config nowSeconds w))
                     = true
                  /\ summaryLines rest = []
              | None =>
                  isFirstRun (snd (run toLowerCase url_hostname config nowSeconds w))
                  = false
                  /\ summaryLines rest
                     = if isFirstRun w
                       then summaryLines
                              (summaryEvents (map (hydrate nowSeconds) torrents))
                       else []
              end
          end.
Proof.
  rewrite run_by_stages.
  pose proof (getTorrentsLoop_first 29 1
                (traced (traced w [EvLog Info MsgAttemptingFetch])
                        [EvCall CallGetTorrents])) as G.
  rewrite <- getTorrents_by_loop in G.
  pose proof (getTorrentsLoop_frame 30 1
                (traced (traced w [EvLog Info MsgAttemptingFetch])
                        [EvCall CallGetTorrents])) as F.
  cbv zeta in F. rewrite <- getTorrents_by_loop in F.
  destruct F as (_ & _ & Hfirst & _).
  destruct G as (K & rest & Ht & S0).
  change (requestOf (traced (traced w [EvLog Info MsgAttemptingFetch])
                            [EvCall CallGetTorrents]) "torrent-get" torrentGet)
    with (requestOf w "torrent-get" torrentGet) in Ht.
  assert (K0 : keepsToken w
                 (snd (getTorrents (traced w [EvLog Info MsgAttemptingFetch]))))
    by exact K.
  clear K.
  destruct (getTorrents (traced w [EvLog Info MsgAttemptingFetch]))
    as [[torrents|e] w1]; cbn [fst snd traced trace isFirstRun] in *.
  - cbv zeta. rewrite Hfirst.
    set (hydrated := map (hydrate nowSeconds) torrents).
    destruct (if isFirstRun w then summaryError hydrated else None) as [e|] eqn:Es.
    { assert (E1 : isFirstRun w = true)
        by (destruct (isFirstRun w); [reflexivity|discriminate]).
      cbn [fst snd traced trace isFirstRun sessionId].
      split; [exact K0|].
      rewrite Ht, <- !app_assoc. cbn [app].
      eexists. split; [reflexivity|]. split; [reflexivity|].
      split; [rewrite Hfirst; exact E1|].
      summary_norm. rewrite S0. reflexivity. }
    assert (A : exists sevs,
               trace (afterSummary
                        (traced w1 [EvLog Info (MsgConnected (List.length torrents))])
                        hydrated)
               = trace w1 ++ EvLog Info (MsgConnected (List.length torrents)) :: sevs
               /\ summaryLines sevs
                  = (if isFirstRun w then summaryLines (summaryEvents hydrated) else [])
               /\ isFirstRun (afterSummary
                                (traced w1 [EvLog Info (MsgConnected (List.length torrents))])
                                hydrated) = false
               /\ sessionId (afterSummary
                               (traced w1 [EvLog Info (MsgConnected (List.length torrents))])
                               hydrated) = sessionId w1).
    { unfold afterSummary. cbn [traced isFirstRun]. rewrite Hfirst.
      destruct (isFirstRun w) eqn:E1; cbn [trace traced isFirstRun sessionId].
      - exists (summaryEvents hydrated). rewrite <- app_assoc. auto.
      - exists []. auto. }
    destruct A as (sevs & Ha & Sa & Fa & Ta).
    set (w2 := afterSummary _ hydrated) in *.
    assert (K2 : keepsToken w w2).
    { unfold keepsToken in *. rewrite Ta. exact K0. }
    destruct (eligibleOf toLowerCase url_hostname config hydrated) as [eligible|e].
    + destruct (List.length (flat_map (evaluate config) eligible) =? 0)%nat.
      * cbn [snd traced trace isFirstRun sessionId].
        split; [exact K2|].
        rewrite Ha, Ht, <- !app_assoc. cbn [app].
        eexists. split; [reflexivity|]. split; [exact Fa|].
        summary_norm. rewrite S0, Sa.
        destruct (isFirstRun w); cbn [app]; rewrite ?app_nil_r; reflexivity.
      * match goal with
        | |- context [performRemoval config ?ids ?x] =>
            destruct (performRemoval_frame config ids x) as (Kp & Fp & pevs & Hp & Sp)
        end.
        cbn [traced trace isFirstRun sessionId] in *.
        split.
        { eapply keepsToken_trans; [exact K2|].
          unfold keepsToken in *. cbn [sessionId] in Kp. exact Kp. }
        rewrite Hp, Ha, Ht, <- !app_assoc. cbn [app].
        eexists. split; [reflexivity|]. split; [rewrite Fp; exact Fa|].
        summary_norm. rewrite S0, Sa, Sp, candidateEvents_no_summary.
        destruct (isFirstRun w); cbn [app]; rewrite ?app_nil_r; reflexivity.
    + cbn [snd]. split; [exact K2|].
      rewrite Ha, Ht, <- !app_assoc. cbn [app].
      eexists. split; [reflexivity|]. split; [exact Fa|].
      summary_norm. rewrite S0, Sa.
      destruct (isFirstRun w); reflexivity.
  - split; [exact K0|].
    rewrite Ht, <- !app_assoc. cbn [app].
    eexists. split; [reflexivity|].
    summary_norm. rewrite S0. reflexivity.
Qed.

(** The error of the first-run table, by the first torrent without a
    name. *)
Lemma summaryError_first before t after :
  Forall named before ->
  summaryError (before ++ t :: after)
  = match name t with
    | Js.Undefined => Some undefinedLength
    | Js.Null => Some nullLength
    | Js.Defined _ => summaryError after
    end.
Proof.
  induction 1 as [|x before (s & Hs) _ IH]; [reflexivity|].
  cbn [app summaryError]. rewrite Hs. exact IH.
Qed.

(** The table of all torrents is due on the first run whose fetch
    succeeds.  When every fetched torrent has a name, that run logs the
    header, the rule and one row per fetched torrent, eligible or not
    (nothing when none was fetched), and leaves the first-run flag off.
    When a fetched torrent came without a name, the run throws the
    [TypeError] of reading the [length] of the first such name, before
    it logs a line of the table, and the flag stays on: the table is
    due again on the next run.  A run with the flag off, or whose fetch
    throws, logs no line of the table. *)
Theorem run_shows_summary_once :
  forall (toLowerCase : string -> string)
         (url_hostname : string -> option string) (config : Config)
         (nowSeconds : Js.number) (w : World),
    exists evs,
      trace (snd (run toLowerCase url_hostname config nowSeconds w)) = trace w ++ evs
      /\ (forall torrents w1,
            getTorrents (traced w [EvLog Info MsgAttemptingFetch])
            = (Returns torrents, w1) ->
            let hydrated := map (hydrate nowSeconds) torrents in
            (isFirstRun w = false ->
             isFirstRun (snd (run toLowerCase url_hostname config nowSeconds w))
             = false
             /\ summaryLines evs = [])
            /\ (isFirstRun w = true -> Forall named hydrated ->
                isFirstRun (snd (run toLowerCase url_hostname config nowSeconds w))
                = false
                /\ summaryLines evs
                   = if (List.length torrents =? 0)%nat then []
                     else MsgSummaryHeader :: MsgSummaryRule
                          :: map MsgSummaryRow hydrated)
            /\ (isFirstRun w = true ->
                forall before t after,
                  hydrated = before ++ t :: after ->
                  Forall named before ->
                  forall e,
                    (name t = Js.Undefined /\ e = undefinedLength)
                    \/ (name t = Js.Null /\ e = nullLength) ->
                    fst (run toLowerCase url_hostname config nowSeconds w) = Throws e
                    /\ isFirstRun
                         (snd (run toLowerCase url_hostname config nowSeconds w))
                       = true
                    /\ summaryLines evs = []))
      /\ (forall e w1,
            getTorrents (traced w [EvLog Info MsgAttemptingFetch])
            = (Throws e, w1) ->
            summaryLines evs = []).
Proof.
  intros toLowerCase url_hostname config nowSeconds w.
  destruct (run_frame toLowerCase url_hostname config nowSeconds w)
    as (_ & rest & Ht & H).
  eexists. split; [exact Ht|].
  summary_norm. split.
  - intros torrents w1 Hg. rewrite Hg in H. cbn [fst] in H.
    set (hydrated := map (hydrate nowSeconds) torrents) in *.
    split; [|split].
    + intros F. rewrite F in H. exact H.
    + intros T N. rewrite T in H. apply summaryError_named in N.
      rewrite N in H. destruct H as (Hf & Hs). split; [exact Hf|].
      rewrite Hs, summaryEvents_lines. unfold hydrated. rewrite length_map.
      reflexivity.
    + intros T before t after Hd Hb e He. rewrite T, Hd in H.
      rewrite (summaryError_first before t after Hb) in H.
      destruct He as [(Hn & ->)|(Hn & ->)]; rewrite Hn in H; exact H.
  - intros e w1 Hg. rewrite Hg in H. exact H.
Qed.

(** The first run of a process against a daemon that lists a torrent
    without a name: the run throws, and the table is still due. *)
Lemma run_shows_summary_once_witness :
  fst (run lowerAscii simpleHostname (Sample.config [] false) 7200%float
           (Sample.world (Sample.answering [Sample.nameless])))
  = Throws undefinedLength
  /\ isFirstRun
       (snd (run lowerAscii simpleHostname (Sample.config [] false) 7200%float
                 (Sample.world (Sample.answering [Sample.nameless]))))
     = true.
Proof.
  destruct (run_shows_summary_once lowerAscii simpleHostname
              (Sample.config [] false) 7200%float
              (Sample.world (Sample.answering [Sample.nameless])))
    as (evs & _ & Hok & _).
  destruct (Hok (map normalizeTorrent [Sample.nameless])
                (snd (getTorrents
                        (traced (Sample.world (Sample.answering [Sample.nameless]))
                                [EvLog Info MsgAttemptingFetch]))))
    as (_ & _ & Hthrow).
  { vm_compute. reflexivity. }
  destruct (Hthrow eq_refl []
              (hydrate 7200%float (normalizeTorrent Sample.nameless)) []
              eq_refl (Forall_nil _) undefinedLength)
    as (H1 & H2 & _).
  { left. split; reflexivity. }
  split; [exact H1|exact H2].
Defined.

(** The client's state carries over from one run to the next: the first
    request of a run is the [torrent-get] sent with the token and the
    credentials held when the run starts, and a run never leaves the
    client without a token when it had one. *)
Theorem run_starts_with_held_token :
  forall (toLowerCase : string -> string)
         (url_hostname : string -> option string) (config : Config)
         (nowSeconds : Js.number) (w : World),
    let w' := snd (run toLowerCase url_hostname config nowSeconds w) in
    (exists evs rest,
        trace w' = trace w ++ evs
        /\ requests evs
           = {| req_method := "torrent-get"; req_args := torrentGet;
                req_authorization := headerOf (authHeader w);
                req_session := headerOf (sessionId w) |} :: rest)
    /\ (sessionId w <> None -> sessionId w' <> None).
Proof.
  intros toLowerCase url_hostname config nowSeconds w. cbv zeta.
  destruct (run_frame toLowerCase url_hostname config nowSeconds w) as (K & rest & Ht & _).
  split; [|exact K].
  eexists. exists (requests rest). split; [exact Ht|]. reflexivity.
Qed.

(* ================================================================== *)
(** * Eligibility within a run                                          *)
(* ================================================================== *)

(** [performRemoval] throws only what [rpc] throws. *)
Lemma performRemoval_error config ids w e :
  fst (performRemoval config ids w) = Throws e ->
  exists inner, e = wrapRpcError inner.
Proof.
  rewrite performRemoval_by_flag. destruct (dryRun config); [discriminate|].
  rewrite removeTorrents_by_rpc.
  destruct (rpc "torrent-remove" (TorrentRemoveArgs ids true) 0
              (traced w [EvCall (CallRemoveTorrents ids true)]))
    as [[r|e'] w'] eqn:Er; cbn [fst]; [discriminate|].
  intros [= <-]. destruct (rpc_error_shape _ _ _ _ _ _ Er) as (inner & -> & _).
  eauto.
Qed.

(** A run whose filters throw: it throws their error and has removed
    nothing. *)
Lemma run_filter_throws toLowerCase url_hostname config nowSeconds w torrents w1 e :
  getTorrents (traced w [EvLog Info MsgAttemptingFetch]) = (Returns torrents, w1) ->
  (isFirstRun w = true -> Forall named (map (hydrate nowSeconds) torrents)) ->
  eligibleOf toLowerCase url_hostname config (map (hydrate nowSeconds) torrents)
  = Throws e ->
  exists w' evs,
    run toLowerCase url_hostname config nowSeconds w = (Throws e, w')
    /\ trace w' = trace w ++ evs
    /\ removeCalls evs = []
    /\ removalRequests evs = [].
Proof.
  intros Hg Hn He.
  rewrite run_by_stages, Hg. cbv zeta.
  rewrite (summary_returns w torrents w1 _ Hg Hn), He.
  destruct (run_summary_quiet w torrents w1 (map (hydrate nowSeconds) torrents) Hg)
    as (evs & H & Q1 & Q2).
  eexists. exists evs. split; [reflexivity|]. auto.
Qed.

(** A run whose filters return: what it logs of the filtering and of the
    candidates, the one call of [removeTorrents] it may make, and the
    errors it may still throw. *)
Lemma run_past_filters toLowerCase url_hostname config nowSeconds w torrents w1
      eligible :
  getTorrents (traced w [EvLog Info MsgAttemptingFetch]) = (Returns torrents, w1) ->
  (isFirstRun w = true -> Forall named (map (hydrate nowSeconds) torrents)) ->
  eligibleOf toLowerCase url_hostname config (map (hydrate nowSeconds) torrents)
  = Returns eligible ->
  exists evs,
    trace (snd (run toLowerCase url_hostname config nowSeconds w)) = trace w ++ evs
    /\ In (EvLog Info
             (MsgFiltering (List.length torrents)
                (List.length (filter (isAllowedLabel toLowerCase config)
                                     (map (hydrate nowSeconds) torrents)))
                (List.length eligible))) evs
    /\ (forall c,
          In c (flat_map (evaluate config) eligible) ->
          In (EvLog Info (MsgCandidate (reason c) (name (torrent c)))) evs)
    /\ removeCalls evs
       = (if (dryRun config
              || (List.length (flat_map (evaluate config) eligible) =? 0)%nat)%bool
          then []
          else [(candidateIds (flat_map (evaluate config) eligible), true)])
    /\ (flat_map (evaluate config) eligible = [] ->
        fst (run toLowerCase url_hostname config nowSeconds w) = Returns tt
        /\ In (EvLog Info MsgNoTorrents) evs)
    /\ (forall e,
          fst (run toLowerCase url_hostname config nowSeconds w) = Throws e ->
          exists inner, e = wrapRpcError inner).
Proof.
  intros Hg Hn He.
  rewrite run_by_stages, Hg. cbv zeta.
  rewrite (summary_returns w torrents w1 _ Hg Hn), He.
  set (hydrated := map (hydrate nowSeconds) torrents).
  set (candidates := flat_map (evaluate config) eligible).
  destruct (run_summary_quiet w torrents w1 hydrated Hg) as (evs & Ht & Q1 & Q2).
  set (w2 := afterSummary _ hydrated) in *.
  set (line := EvLog Info (MsgFiltering (List.length torrents)
                 (List.length (filter (isAllowedLabel toLowerCase config) hydrated))
                 (List.length eligible))).
  destruct (Nat.eqb_spec (List.length candidates) 0) as [E|N].
  - cbn [snd fst traced trace]. rewrite Ht, <- !app_assoc.
    eexists. split; [reflexivity|].
    split; [apply in_or_app; right; left; reflexivity|].
    split.
    { intros c Hc. destruct candidates; [destruct Hc|discriminate E]. }
    split.
    { rewrite orb_true_r, !removeCalls_app, Q1. reflexivity. }
    split; [|discriminate].
    intros _. split; [reflexivity|].
    apply in_or_app; right; right; left; reflexivity.
  - destruct (performRemoval_trace config (candidateIds candidates)
                (traced (traced w2 [line]) (candidateEvents candidates)))
      as (pevs & Hp & P1 & _).
    pose proof (performRemoval_error config (candidateIds candidates)
                  (traced (traced w2 [line]) (candidateEvents candidates))) as Perr.
    destruct (candidateEvents_quiet candidates) as (C1 & _).
    cbn [traced trace] in Hp. rewrite Hp, Ht, <- !app_assoc.
    eexists. split; [reflexivity|].
    split; [apply in_or_app; right; left; reflexivity|].
    split.
    { intros c Hc. apply in_or_app; right. right. cbn [app].
      apply in_or_app; left. unfold candidateEvents. right. right.
      apply (in_map (fun c => EvLog Info (MsgCandidate (reason c) (name (torrent c))))).
      exact Hc. }
    split.
    { rewrite orb_false_r, !removeCalls_app, Q1, C1, P1. cbn [app removeCalls].
      destruct (dryRun config); reflexivity. }
    split; [|exact Perr].
    intros Hnil. exfalso. apply N. unfold candidates in *. rewrite Hnil. reflexivity.
Qed.

Lemma hostExcludedb_no_tokens toLowerCase url_hostname config t :
  excludedTrackers config = [] ->
  hostExcludedb toLowerCase url_hostname config t = false.
Proof.
  intros E.
  pose proof (hasExcludedTracker_no_tokens toLowerCase url_hostname config t E) as H.
  apply hasExcludedTracker_returns in H. congruence.
Qed.

(** C6. The eligible set of a run, in the words of the specification:
    the fetched torrents, in order, whose lower-cased label is in the
    allow-list and none of whose announce hostnames contains an excluded
    token.  A run that reaches its filters (its fetch succeeded, the
    table of the first run was drawn or was not due) and whose tracker
    check returns on every torrent that passes the label filter works on
    exactly this set: the filtering line it logs counts it, the
    candidates it logs are the candidates of its members, and the one
    call of [removeTorrents] it makes, if any, carries the ids of those
    candidates.  The check does return when there is no excluded token
    or when the announce URLs of the label-allowed torrents all parse.
    With an empty allow-list the set is empty; with an empty exclusion
    list it is the set of the label-allowed torrents. *)
Theorem eligible_is_allowed_and_not_excluded :
  forall (toLowerCase : string -> string)
         (url_hostname : string -> option string) (config : Config)
         (nowSeconds : Js.number) (w : World)
         (torrents : list RawTorrent) (w1 : World),
    getTorrents (traced w [EvLog Info MsgAttemptingFetch])
    = (Returns torrents, w1) ->
    (isFirstRun w = true ->
     Forall named (map (hydrate nowSeconds) torrents)) ->
    let hydrated := map (hydrate nowSeconds) torrents in
    let byLabel := filter (labelAllowedb toLowerCase config) hydrated in
    let eligible :=
      filter (fun t => labelAllowedb toLowerCase config t
                       && negb (hostExcludedb toLowerCase url_hostname config t))
             hydrated in
    let candidates := flat_map (evaluate config) eligible in
    (forall t,
        In t eligible
        <-> In t hydrated /\ labelAllowed toLowerCase config t
            /\ ~ hostExcluded toLowerCase url_hostname config t)
    /\ ((forall t,
           In t hydrated -> labelAllowed toLowerCase config t ->
           exists b,
             hasExcludedTracker toLowerCase url_hostname config t = Returns b) ->
        exists evs,
          trace (snd (run toLowerCase url_hostname config nowSeconds w))
          = trace w ++ evs
          /\ In (EvLog Info
                   (MsgFiltering (List.length torrents) (List.length byLabel)
                      (List.length eligible))) evs
          /\ (forall c,
                In c candidates ->
                In (EvLog Info (MsgCandidate (reason c) (name (torrent c)))) evs)
          /\ removeCalls evs
             = (if (dryRun config || (List.length candidates =? 0)%nat)%bool
                then []
                else [(candidateIds candidates, true)]))
    /\ (excludedTrackers config = []
        \/ (forall t,
              In t hydrated -> labelAllowed toLowerCase config t ->
              parsable url_hostname t) ->
        forall t,
          In t hydrated -> labelAllowed toLowerCase config t ->
          exists b,
            hasExcludedTracker toLowerCase url_hostname config t = Returns b)
    /\ (allowedLabels config = [] -> byLabel = [] /\ eligible = [])
    /\ (excludedTrackers config = [] ->
        eligible = byLabel
        /\ forall t,
             hasExcludedTracker toLowerCase url_hostname config t = Returns false).
Proof.
  intros toLowerCase url_hostname config nowSeconds w torrents w1 Hg Hn
    hydrated byLabel eligible candidates.
  split; [|split; [|split; [|split]]].
  - intros t. unfold eligible.
    rewrite filter_In, andb_true_iff, negb_true_iff.
    change (labelAllowedb toLowerCase config t)
      with (isAllowedLabel toLowerCase config t).
    rewrite isAllowedLabel_spec, <- not_true_iff_false, hostExcludedb_spec.
    tauto.
  - intros Hchecked.
    pose proof (eligibleOf_checked toLowerCase url_hostname config hydrated
                  Hchecked) as He.
    fold eligible in He.
    destruct (run_past_filters toLowerCase url_hostname config nowSeconds w
                torrents w1 eligible Hg Hn He)
      as (evs & Ht & Hin & Hc & Hr & _).
    exists evs. split; [exact Ht|]. split; [exact Hin|].
    split; [exact Hc|exact Hr].
  - intros Hparse t Hin Hl. apply hasExcludedTracker_total.
    destruct Hparse as [E|P]; [left; exact E|right; apply P; assumption].
  - intros E.
    assert (F : forall t, labelAllowedb toLowerCase config t = false).
    { intros t. unfold labelAllowedb. rewrite E. reflexivity. }
    unfold byLabel, eligible.
    split; induction hydrated as [|t l IH]; cbn [filter]; try reflexivity;
      rewrite F; cbn [andb]; exact IH.
  - intros E. split.
    + unfold eligible, byLabel. apply filter_ext. intros t.
      rewrite (hostExcludedb_no_tokens toLowerCase url_hostname config t E).
      apply andb_true_r.
    + intros t. apply hasExcludedTracker_no_tokens. exact E.
Qed.

(** Three torrents over the ratio limit: an allowed label on an open
    tracker, an allowed label on an excluded tracker, a label that is
    not allowed.  Two pass the label filter, one is eligible, and it is
    the one the run removes. *)
Lemma eligible_is_allowed_and_not_excluded_witness :
  let w :=
    Sample.world
      (Sample.answering
         [Sample.wire 1 "Radarr" ["http://open.example.org/announce"] 1 3 3600;
          Sample.wire 2 "radarr" ["https://tracker.Private.example:443/a"] 1 3 3600;
          Sample.wire 3 "lidarr" ["http://open.example.org/announce"] 1 3 3600]) in
  exists evs,
    trace (snd (run lowerAscii simpleHostname (Sample.config ["private"] false)
                    7200%float w))
    = trace w ++ evs
    /\ In (EvLog Info (MsgFiltering 3 2 1)) evs
    /\ removeCalls evs = [([Some 1%float], true)].
Proof.
  cbv zeta.
  destruct (eligible_is_allowed_and_not_excluded lowerAscii simpleHostname
              (Sample.config ["private"] false) 7200%float
              (Sample.world
                 (Sample.answering
                    [Sample.wire 1 "Radarr" ["http://open.example.org/announce"] 1 3 3600;
                     Sample.wire 2 "radarr" ["https://tracker.Private.example:443/a"] 1 3 3600;
                     Sample.wire 3 "lidarr" ["http://open.example.org/announce"] 1 3 3600]))
              (map normalizeTorrent
                 [Sample.wire 1 "Radarr" ["http://open.example.org/announce"] 1 3 3600;
                  Sample.wire 2 "radarr" ["https://tracker.Private.example:443/a"] 1 3 3600;
                  Sample.wire 3 "lidarr" ["http://open.example.org/announce"] 1 3 3600])
              (snd (getTorrents
                      (traced
                         (Sample.world
                            (Sample.answering
                               [Sample.wire 1 "Radarr" ["http://open.example.org/announce"] 1 3 3600;
                                Sample.wire 2 "radarr" ["https://tracker.Private.example:443/a"] 1 3 3600;
                                Sample.wire 3 "lidarr" ["http://open.example.org/announce"] 1 3 3600]))
                         [EvLog Info MsgAttemptingFetch]))))
    as (_ & Hrun & _).
  - vm_compute. reflexivity.
  - intros _. repeat constructor; exists "sample"; reflexivity.
  - destruct Hrun as (evs & Ht & Hin & _ & Hr).
    + intros t [<-|[<-|[<-|[]]]] _; eexists; vm_compute; reflexivity.
    + exists evs. split; [exact Ht|]. split; [exact Hin|exact Hr].
Defined.

(** C8, as the code has it.  With a non-empty exclusion list, take a
    torrent one of whose announce URLs does not parse, and the first
    such URL.  [hasExcludedTracker] returns [true] without reaching it
    when a URL before it has a hostname that contains an excluded token,
    and throws the parser's error when none has; it throws in no other
    case.  A run that reaches its filters throws that error, before any
    removal, when the check throws for some fetched torrent that passes
    the label filter.  A torrent the label filter rejects is never
    checked: when the check returns for every fetched torrent that
    passes the label filter, whatever the announce URLs of the others,
    the run does not throw that error and goes on to log its filtering
    line. *)
Theorem hasExcludedTracker_throws_on_unparsable :
  forall (toLowerCase : string -> string)
         (url_hostname : string -> option string) (config : Config),
    excludedTrackers config <> [] ->
    (forall t before url after,
        trackerUrls t = before ++ url :: after ->
        url_hostname url = None ->
        (forall u, In u before -> url_hostname u <> None) ->
        (hostMatches toLowerCase url_hostname config before ->
         hasExcludedTracker toLowerCase url_hostname config t = Returns true)
        /\ (~ hostMatches toLowerCase url_hostname config before ->
            hasExcludedTracker toLowerCase url_hostname config t
            = Throws invalidUrl))
    /\ (forall t e,
          hasExcludedTracker toLowerCase url_hostname config t = Throws e ->
          e = invalidUrl
          /\ exists before url after,
               trackerUrls t = before ++ url :: after
               /\ url_hostname url = None
               /\ (forall u, In u before -> url_hostname u <> None)
               /\ ~ hostMatches toLowerCase url_hostname config before)
    /\ (forall nowSeconds w torrents w1,
          getTorrents (traced w [EvLog Info MsgAttemptingFetch])
          = (Returns torrents, w1) ->
          (isFirstRun w = true ->
           Forall named (map (hydrate nowSeconds) torrents)) ->
          ((exists t,
               In t (map (hydrate nowSeconds) torrents)
               /\ labelAllowed toLowerCase config t
               /\ hasExcludedTracker toLowerCase url_hostname config t
                  = Throws invalidUrl) ->
           exists w' evs,
             run toLowerCase url_hostname config nowSeconds w
             = (Throws invalidUrl, w')
             /\ trace w' = trace w ++ evs
             /\ removeCalls evs = []
             /\ removalRequests evs = [])
          /\ ((forall t,
                 In t (map (hydrate nowSeconds) torrents) ->
                 labelAllowed toLowerCase config t ->
                 exists b,
                   hasExcludedTracker toLowerCase url_hostname config t
                   = Returns b) ->
              fst (run toLowerCase url_hostname config nowSeconds w)
              <> Throws invalidUrl
              /\ exists evs byLabel eligible,
                   trace (snd (run toLowerCase url_hostname config nowSeconds w))
                   = trace w ++ evs
                   /\ In (EvLog Info
                            (MsgFiltering (List.length torrents) byLabel eligible))
                         evs)).
Proof.
  intros toLowerCase url_hostname config Hne.
  assert (Hscan : forall t,
             hasExcludedTracker toLowerCase url_hostname config t
             = scanTrackerUrls toLowerCase url_hostname config (trackerUrls t)).
  { intros t. unfold hasExcludedTracker.
    destruct (excludedTrackers config) as [|token tokens]; [congruence|].
    reflexivity. }
  split; [|split].
  - intros t before url after Hurls Hu Hb.
    rewrite Hscan, Hurls, (scanTrackerUrls_prefix _ _ _ before (url :: after) Hb).
    pose proof (hostMatches_spec toLowerCase url_hostname config before) as M.
    destruct (existsb _ before).
    + split; [reflexivity|]. intros N. exfalso. apply N, M. reflexivity.
    + split.
      * intros Hm. apply M in Hm. discriminate Hm.
      * intros _. cbn [scanTrackerUrls]. rewrite Hu. reflexivity.
  - intros t e. rewrite Hscan. apply scanTrackerUrls_throws_inv.
  - intros nowSeconds w torrents w1 Hg Hn. split.
    + intros (t & Hin & Hl & Ht).
      apply (run_filter_throws toLowerCase url_hostname config nowSeconds w
               torrents w1 invalidUrl Hg Hn).
      unfold eligibleOf.
      apply (filterThrowing_throws toLowerCase url_hostname config _ t invalidUrl);
        [|exact Ht].
      apply filter_In. split; [exact Hin|].
      apply isAllowedLabel_spec. exact Hl.
    + intros Hchecked.
      pose proof (eligibleOf_checked toLowerCase url_hostname config _ Hchecked)
        as He.
      destruct (run_past_filters toLowerCase url_hostname config nowSeconds w
                  torrents w1 _ Hg Hn He)
        as (evs & Ht & Hin & _ & _ & _ & Herr).
      split.
      * intros Hthrow. destruct (Herr _ Hthrow) as (inner & Hinner).
        discriminate Hinner.
      * exists evs. eexists. eexists. split; [exact Ht|exact Hin].
Qed.

(** A tracker reported without [announce] becomes the URL [""], which no
    parser accepts: the check throws, and so does a run that fetched the
    torrent under an allowed label. *)
Lemma hasExcludedTracker_throws_on_unparsable_witness :
  hasExcludedTracker lowerAscii simpleHostname (Sample.config ["private"] false)
    (hydrate 7200%float (normalizeTorrent (Sample.noAnnounce "radarr")))
  = Throws invalidUrl
  /\ exists w' evs,
       run lowerAscii simpleHostname (Sample.config ["private"] false) 7200%float
           (Sample.world (Sample.answering [Sample.noAnnounce "radarr"]))
       = (Throws invalidUrl, w')
       /\ trace w'
          = trace (Sample.world (Sample.answering [Sample.noAnnounce "radarr"]))
            ++ evs
       /\ removeCalls evs = []
       /\ removalRequests evs = [].
Proof.
  destruct (hasExcludedTracker_throws_on_unparsable lowerAscii simpleHostname
              (Sample.config ["private"] false))
    as (H1 & _ & H3).
  - discriminate.
  - assert (T : hasExcludedTracker lowerAscii simpleHostname
                  (Sample.config ["private"] false)
                  (hydrate 7200%float (normalizeTorrent (Sample.noAnnounce "radarr")))
                = Throws invalidUrl).
    { apply (H1 _ [] "" []).
      - reflexivity.
      - reflexivity.
      - intros u [].
      - intros (u & _ & _ & [] & _). }
    split; [exact T|].
    apply (H3 7200%float
              (Sample.world (Sample.answering [Sample.noAnnounce "radarr"]))
              (map normalizeTorrent [Sample.noAnnounce "radarr"])
              (snd (getTorrents
                      (traced
                         (Sample.world (Sample.answering [Sample.noAnnounce "radarr"]))
                         [EvLog Info MsgAttemptingFetch])))).
    + vm_compute. reflexivity.
    + intros _. repeat constructor. exists "sample". reflexivity.
    + eexists. split; [left; reflexivity|]. split; [|exact T].
      vm_compute. left. reflexivity.
Defined.

(** C8, as stated, fails.  The exclusion list is not empty and the
    torrent's announce URLs contain the empty string, which does not
    parse; the URL before it has a hostname that contains the excluded
    token, so the check returns [true] and never reaches the empty
    string.  And a torrent whose label is not allowed is never checked:
    the run that fetched it returns normally. *)
Lemma hasExcludedTracker_returns_before_unparsable :
  let config := Sample.config ["bad"] false in
  let t := Sample.torrent 1 "radarr" ["http://bad.example/announce"; ""] 100 0 1 in
  excludedTrackers config <> []
  /\ In "" (trackerUrls t)
  /\ simpleHostname "" = None
  /\ simpleHostname "http://bad.example/announce" = Some "bad.example"
  /\ hasExcludedTracker lowerAscii simpleHostname config t = Returns true
  /\ trackerUrls (hydrate 7200%float (normalizeTorrent (Sample.noAnnounce "lidarr")))
     = [""]
  /\ fst (run lowerAscii simpleHostname config 7200%float
              (Sample.world (Sample.answering [Sample.noAnnounce "lidarr"])))
     = Returns tt.
Proof.
  cbv zeta. split; [discriminate|].
  split; [right; left; reflexivity|].
  vm_compute. repeat split; reflexivity.
Qed.

(* ================================================================== *)
(** * Further properties of hydration                                   *)
(* ================================================================== *)

Lemma orStr_some_empty s : Js.orStr (Some s) "" = s.
Proof. destruct s; reflexivity. Qed.

Lemma orStr_empty_idem v : Js.orStr (Some (Js.orStr v "")) "" = Js.orStr v "".
Proof. apply orStr_some_empty. Qed.

Lemma list_ascii_of_string_app a b :
  list_ascii_of_string (a ++ b)%string
  = list_ascii_of_string a ++ list_ascii_of_string b.
Proof. induction a as [|c a IH]; cbn; [reflexivity|]. rewrite IH. reflexivity. Qed.

Lemma lacks_not_in c s : lacks c s <-> ~ In c (list_ascii_of_string s).
Proof.
  induction s as [|d s IH]; cbn; [tauto|]. rewrite IH. intuition congruence.
Qed.

Lemma slashes_forall s :
  slashes s -> Forall (fun c => c = "/"%char) (list_ascii_of_string s).
Proof. induction s as [|d s IH]; cbn; [constructor|]. intros (-> & H). auto. Qed.

Lemma basename_scan_lacks r :
  forall m acc, ~ In "/"%char acc -> ~ In "/"%char (basename_scan r m acc).
Proof.
  induction r as [|c r IH]; intros m acc Hacc; cbn [basename_scan]; [exact Hacc|].
  destruct (Ascii.eqb_spec c "/"%char) as [->|N].
  - destruct m; [apply IH; exact Hacc|exact Hacc].
  - apply IH. cbn. intuition congruence.
Qed.

Lemma basename_scan_skips sl :
  Forall (fun c => c = "/"%char) sl ->
  forall r acc, basename_scan (sl ++ r) true acc = basename_scan r true acc.
Proof.
  induction 1 as [|c sl -> _ IH]; intros r acc; cbn [app basename_scan];
    [reflexivity|].
  cbn. apply IH.
Qed.

Lemma basename_scan_segment l :
  ~ In "/"%char l ->
  forall rest acc,
    (rest = [] \/ exists rest', rest = "/"%char :: rest') ->
    basename_scan (l ++ rest) false acc = rev l ++ acc.
Proof.
  induction l as [|c l IH]; intros Hl rest acc Hrest; cbn [app rev].
  - destruct Hrest as [->|(rest' & ->)]; reflexivity.
  - cbn [basename_scan].
    destruct (Ascii.eqb_spec c "/"%char) as [->|N]; [exfalso; apply Hl; left; reflexivity|].
    rewrite IH; [|intros H; apply Hl; right; exact H|exact Hrest].
    rewrite <- app_assoc. reflexivity.
Qed.

(** [basename], on a path whose last segment is [name], with or without
    a directory before it and slashes after it. *)
Lemma basename_last_segment name sl :
  name <> "" -> lacks "/" name -> slashes sl ->
  basename (name ++ sl) = name
  /\ forall dir, basename (dir ++ "/" ++ name ++ sl) = name.
Proof.
  intros Hne Hl Hs. apply lacks_not_in in Hl. apply slashes_forall in Hs.
  assert (Hrev : ~ In "/"%char (rev (list_ascii_of_string name))).
  { intros H. apply Hl. apply in_rev. exact H. }
  assert (K : forall rest,
             (rest = [] \/ exists rest', rest = "/"%char :: rest') ->
             basename_scan (rev (list_ascii_of_string sl)
                            ++ rev (list_ascii_of_string name) ++ rest) true []
             = list_ascii_of_string name).
  { intros rest Hrest.
    rewrite basename_scan_skips; [|apply Forall_rev; exact Hs].
    destruct (rev (list_ascii_of_string name)) as [|c l] eqn:E.
    - exfalso. apply Hne.
      rewrite <- (string_of_list_ascii_of_string name).
      rewrite <- (rev_involutive (list_ascii_of_string name)), E. reflexivity.
    - cbn [app basename_scan].
      destruct (Ascii.eqb_spec c "/"%char) as [->|N];
        [exfalso; apply Hrev; left; reflexivity|].
      rewrite basename_scan_segment;
        [|intros H; apply Hrev; right; exact H|exact Hrest].
      change (rev l ++ [c]) with (rev (c :: l)).
      rewrite <- E. apply rev_involutive. }
  unfold basename. split.
  - rewrite list_ascii_of_string_app, rev_app_distr.
    rewrite <- (app_nil_r (rev (list_ascii_of_string name))).
    rewrite K; [apply string_of_list_ascii_of_string|left; reflexivity].
  - intros dir.
    rewrite !list_ascii_of_string_app, !rev_app_distr. cbn [list_ascii_of_string rev app].
    rewrite <- !app_assoc. cbn [app].
    rewrite K; [apply string_of_list_ascii_of_string|right; eauto].
Qed.

(** The label of a hydrated torrent: the first of its labels when it has
    any; otherwise the last segment of its download directory, which has
    no slash in it and is the name of the directory whether the path is
    absolute or relative, with or without trailing slashes (and is empty
    for the empty path). *)
Theorem hydrate_label_source :
  forall (nowSeconds : Js.number) (raw : RawTorrent),
    (forall first others,
        raw_labels raw = first :: others ->
        label (hydrate nowSeconds raw) = first)
    /\ (raw_labels raw = [] ->
        lacks "/" (label (hydrate nowSeconds raw))
        /\ (raw_downloadDir raw = "" -> label (hydrate nowSeconds raw) = "")
        /\ forall name sl,
             name <> "" -> lacks "/" name -> slashes sl ->
             (raw_downloadDir raw = (name ++ sl)%string ->
              label (hydrate nowSeconds raw) = name)
             /\ forall dir,
                  raw_downloadDir raw = (dir ++ "/" ++ name ++ sl)%string ->
                  label (hydrate nowSeconds raw) = name).
Proof.
  intros nowSeconds raw. split.
  - intros first others H. unfold hydrate. cbv zeta. cbn [label]. rewrite H.
    reflexivity.
  - intros H.
    assert (L : label (hydrate nowSeconds raw) = basename (raw_downloadDir raw)).
    { unfold hydrate. cbv zeta. cbn [label]. rewrite H, orStr_some_empty.
      reflexivity. }
    rewrite L. split; [|split].
    + apply lacks_not_in. unfold basename.
      rewrite list_ascii_of_string_of_list_ascii.
      apply basename_scan_lacks. intros [].
    + intros ->. reflexivity.
    + intros name sl Hne Hl Hs.
      destruct (basename_last_segment name sl Hne Hl Hs) as (B1 & B2).
      split; [intros ->; exact B1|intros dir ->; apply B2].
Qed.

(** A torrent without labels, downloaded to "/downloads/radarr/". *)
Lemma hydrate_label_source_witness :
  label (hydrate 7200%float
           {| raw_id := None; raw_name := Js.Undefined; raw_percentDone := 0%float;
              raw_uploadRatio := 0%float; raw_addedDate := 0%float;
              raw_downloadDir := "/downloads/radarr/"; raw_labels := [];
              raw_error := 0%float; raw_errorString := ""; raw_trackers := [] |})
  = "radarr".
Proof.
  refine (proj2 (proj2 (proj2 (proj2 (hydrate_label_source 7200%float
    {| raw_id := None; raw_name := Js.Undefined; raw_percentDone := 0%float;
       raw_uploadRatio := 0%float; raw_addedDate := 0%float;
       raw_downloadDir := "/downloads/radarr/"; raw_labels := [];
       raw_error := 0%float; raw_errorString := ""; raw_trackers := [] |})
    eq_refl)) "radarr" "/" _ _ _) "/downloads" eq_refl).
  - discriminate.
  - cbn. repeat split; discriminate.
  - cbn. auto.
Defined.

(** Hydration of a fetched torrent: the defaulting [hydrate] applies
    again changes nothing.  Each field is the daemon's value, or the
    default when the daemon sent none (or sent 0, [NaN] or an empty
    string); the ratio and the error code are never [NaN]; there is one
    announce URL per tracker reported, the empty string for a tracker
    without [announce]. *)
Theorem hydrate_after_fetch :
  forall (nowSeconds : Js.number) (w : WireTorrent),
    let t := hydrate nowSeconds (normalizeTorrent w) in
    id t = w_id w
    /\ name t = w_name w
    /\ percentDone t = (Js.orNum (w_percentDone w) 0%float * 100)%float
    /\ uploadRatio t = Js.orNum (w_uploadRatio w) 0%float
    /\ error t = Js.orNum (w_error w) 0%float
    /\ Js.isNaN (uploadRatio t) = false
    /\ Js.isNaN (error t) = false
    /\ downloadDir t = Js.orStr (w_downloadDir w) ""
    /\ errorString t = Js.orStr (w_errorString w) ""
    /\ trackerUrls t
       = map (fun tr => Js.orStr (wk_announce tr) "") (Js.orArr (w_trackers w) [])
    /\ ageHours t
       = ((nowSeconds - Js.orNum (w_addedDate w) 0%float) / 3600)%float.
Proof.
  intros nowSeconds w t. subst t. unfold hydrate, normalizeTorrent. cbv zeta.
  cbn [id name percentDone uploadRatio error downloadDir errorString
       trackerUrls ageHours raw_id raw_name raw_percentDone raw_uploadRatio
       raw_error raw_downloadDir raw_errorString raw_trackers raw_addedDate].
  rewrite !JsFacts.orNum_zero_idem, !orStr_empty_idem, !JsFacts.orNum_zero_not_nan.
  repeat (split; [reflexivity|]).
  split; [|reflexivity].
  rewrite map_map. apply map_ext. intros tr.
  cbn [announce normalizeTracker]. apply orStr_empty_idem.
Qed.

(* ================================================================== *)
(** * The connectivity test of [getTorrents]                            *)
(* ================================================================== *)

Lemma string_app_assoc (a b c : string) :
  ((a ++ b) ++ c)%string = (a ++ b ++ c)%string.
Proof. induction a as [|x a IH]; cbn; [reflexivity|]. rewrite IH. reflexivity. Qed.

Lemma includes_prepend p s needle :
  Js.includes s needle = true -> Js.includes (p ++ s) needle = true.
Proof.
  rewrite !includes_occurs. intros (pre & post & ->).
  exists (p ++ pre)%string, post. rewrite string_app_assoc. reflexivity.
Qed.

Lemma includes_trans s big small :
  Js.includes s big = true -> Js.includes big small = true ->
  Js.includes s small = true.
Proof.
  rewrite !includes_occurs. intros (pre & post & ->) (pre' & post' & ->).
  exists (pre ++ pre')%string, (post' ++ post)%string.
  rewrite !string_app_assoc. reflexivity.
Qed.

(** The error [rpc] rethrows passes the connectivity test of
    [getTorrents] whenever the error it caught does: the prefix that
    [rpc] puts before the message hides no connectivity failure.  And
    the test for "getaddrinfo ENOTFOUND" adds nothing to the test for
    "ENOTFOUND": the test is the disjunction of the five others. *)
Theorem connectivity_test_after_wrapping :
  (forall e : JsError,
      isConnectivityMessage (message e) = true ->
      isConnectivityMessage (message (wrapRpcError e)) = true)
  /\ (forall m : string,
        isConnectivityMessage m
        = (Js.includes m "ENOTFOUND" || Js.includes m "ECONNREFUSED"
           || Js.includes m "Connect timeout" || Js.includes m "fetch failed"
           || Js.includes m "ECONNRESET")%bool).
Proof.
  split.
  - intros e. unfold isConnectivityMessage, wrapRpcError. cbn [message].
    rewrite !orb_true_iff.
    intros H.
    repeat match type of H with
           | _ \/ _ => destruct H as [H|H]
           end;
      apply (includes_prepend "Transmission RPC call failed: ") in H;
      rewrite H; auto 10.
  - intros m. unfold isConnectivityMessage.
    destruct (Js.includes m "getaddrinfo ENOTFOUND") eqn:G.
    + rewrite (includes_trans m "getaddrinfo ENOTFOUND" "ENOTFOUND" G eq_refl).
      reflexivity.
    + rewrite !orb_false_r. reflexivity.
Qed.

(** The rejection of [fetch] on a refused connection. *)
Lemma connectivity_test_after_wrapping_witness :
  isConnectivityMessage (message (wrapRpcError (mkError "fetch failed"))) = true.
Proof.
  apply (proj1 connectivity_test_after_wrapping (mkError "fetch failed")).
  reflexivity.
Defined.

(* ================================================================== *)
(** * Properties of the configuration                                   *)
(* ================================================================== *)

Lemma substring_prefix u r :
  String.substring 0 (String.length u) (u ++ r) = u.
Proof.
  induction u as [|c u IH]; cbn; [destruct r; reflexivity|].
  rewrite IH. reflexivity.
Qed.

Lemma substring_all s : String.substring 0 (String.length s) s = s.
Proof. induction s as [|c s IH]; cbn; [reflexivity|]. rewrite IH. reflexivity. Qed.

Lemma substring_suffix u r :
  String.substring (String.length u) (String.length r) (u ++ r) = r.
Proof. induction u as [|c u IH]; cbn; [apply substring_all|exact IH]. Qed.

Lemma length_append u r :
  String.length (u ++ r) = String.length u + String.length r.
Proof. induction u as [|c u IH]; cbn; [reflexivity|]. rewrite IH. reflexivity. Qed.

(** [indexOf] finds the first occurrence. *)
Lemma indexOfChar_some c s i :
  indexOfChar c s = Some i ->
  exists u p, s = (u ++ String c p)%string /\ lacks c u /\ String.length u = i.
Proof.
  revert i. induction s as [|d s IH]; intros i; cbn; [discriminate|].
  destruct (Ascii.eqb_spec d c) as [->|N].
  - intros [= <-]. exists EmptyString, s. cbn. auto.
  - destruct (indexOfChar c s) as [j|]; [|discriminate].
    intros [= <-]. destruct (IH j eq_refl) as (u & p & -> & Hl & Hn).
    exists (String d u), p. cbn. auto.
Qed.

Lemma indexOfChar_none c s : indexOfChar c s = None -> lacks c s.
Proof.
  induction s as [|d s IH]; cbn; [auto|].
  destruct (Ascii.eqb_spec d c) as [->|N]; [discriminate|].
  destruct (indexOfChar c s); [discriminate|]. auto.
Qed.

Lemma parseAuth_value_shape value :
  match parseAuth value with
  | Returns a =>
      value = (username a ++ ":" ++ password a)%string
      /\ lacks ":" (username a)
  | Throws e =>
      e = authFormatError /\ lacks ":" value
  end.
Proof.
  unfold parseAuth.
  destruct (indexOfChar ":" value) as [i|] eqn:E.
  - apply indexOfChar_some in E. destruct E as (u & p & -> & Hl & <-).
    cbn [username password].
    rewrite substring_prefix.
    replace (String.length (u ++ String ":" p) - (String.length u + 1))
      with (String.length p)
      by (rewrite length_append; cbn; lia).
    replace (String.length u + 1) with (String.length (u ++ ":"))
      by (rewrite length_append; reflexivity).
    replace (u ++ String ":" p)%string with ((u ++ ":") ++ p)%string
      by (rewrite string_app_assoc; reflexivity).
    rewrite substring_suffix. rewrite string_app_assoc. split; [reflexivity|exact Hl].
  - apply indexOfChar_none in E. split; [reflexivity|exact E].
Qed.

(** [parseAuth] splits the value at its first colon: the user name is
    what stands before it and has no colon, the password is all that
    follows, colons included, and the two joined by a colon give the
    value back.  It throws exactly on a value without a colon. *)
Theorem parseAuth_splits_at_first_colon :
  forall (value : string),
    match parseAuth value with
    | Returns a =>
        value = (username a ++ ":" ++ password a)%string
        /\ lacks ":" (username a)
    | Throws e =>
        e = authFormatError /\ lacks ":" value
    end.
Proof. exact parseAuth_value_shape. Qed.

(** The credentials the client sends are the configured ones: when
    [TRANSMISSION_AUTH] is set to a value with a colon, the
    [Authorization] header is "Basic " followed by the Base64 of that
    very value, whatever colons the password has.  No header is sent
    when the variable is unset or empty, nor when it is a lone colon;
    loading throws when the value has no colon. *)
Theorem auth_header_carries_configured_value :
  forall (toBase64 : string -> string) (env : Js.field string),
    match loadAuth env with
    | Returns auth =>
        getAuthHeaderOf toBase64 auth
        = match env with
          | Some value =>
              if (String.eqb value "" || String.eqb value ":")%bool then None
              else Some ("Basic " ++ toBase64 value)%string
          | None => None
          end
    | Throws e =>
        e = authFormatError
        /\ exists value, env = Some value /\ value <> "" /\ lacks ":" value
    end.
Proof.
  intros toBase64 [value|]; [|reflexivity]. unfold loadAuth.
  destruct value as [|c value]; [reflexivity|]. cbn [Js.truthyStr].
  remember (String c value) as v eqn:Ev.
  pose proof (parseAuth_value_shape v) as P.
  destruct (parseAuth v) as [[u p]|e]; cbn [username password] in P.
  - destruct P as (Hv & Hl). unfold getAuthHeaderOf. cbv zeta.
    cbn [username password]. rewrite !orStr_some_empty, <- Hv.
    assert (N : String.eqb v "" = false) by (subst v; reflexivity).
    rewrite N. cbn [orb].
    destruct u as [|x u]; cbn [Js.truthyStr orb].
    + destruct p as [|y p]; cbn [Js.truthyStr].
      * rewrite Hv. reflexivity.
      * replace (String.eqb v ":") with false; [reflexivity|].
        rewrite Hv. cbn. destruct (Ascii.eqb_spec ":" ":"); [reflexivity|congruence].
    + replace (String.eqb v ":") with false; [reflexivity|].
      rewrite Hv. cbn. cbn in Hl. destruct Hl as (Hx & _).
      destruct (Ascii.eqb_spec x ":"); [contradiction|reflexivity].
  - destruct P as (-> & Hl). split; [reflexivity|].
    exists v. subst v. split; [reflexivity|]. split; [discriminate|exact Hl].
Qed.

Lemma truthyStr_nonempty s : Js.truthyStr s = true <-> s <> "".
Proof. destruct s; cbn; split; congruence. Qed.

Lemma parseCommaList_in toLowerCase value x :
  In x (parseCommaList toLowerCase value)
  <-> x <> ""
      /\ exists piece,
           In piece (splitOn "," value) /\ x = toLowerCase (trim piece).
Proof.
  unfold parseCommaList. rewrite filter_In, in_map_iff, truthyStr_nonempty.
  split.
  - intros ((piece & <- & Hin) & Hne). split; [exact Hne|]. exists piece. auto.
  - intros (Hne & piece & Hin & ->). split; [|exact Hne]. exists piece. auto.
Qed.

Lemma lowerAscii_empty s : lowerAscii s = "" <-> s = "".
Proof. destruct s; cbn; split; congruence. Qed.

(** [trim] removes the no-break space (U+00A0, the bytes C2 A0) and the
    byte-order mark (U+FEFF, the bytes EF BB BF) as it removes a blank. *)
Example trim_unicode_space :
  trim (String (ascii_of_nat 194) (String (ascii_of_nat 160) " radarr"
        ++ String (ascii_of_nat 239)
             (String (ascii_of_nat 187) (String (ascii_of_nat 191) " "))))
  = "radarr".
Proof. reflexivity. Qed.

(** Label matching from the environment to the filter.  Of the
    platform's lower-casing one fact is used: the empty string is the
    only string it maps to the empty string.  With the allow-list read
    from [ALLOWED_LABELS], a torrent passes the label filter exactly
    when its label is not empty and is lower-cased to the same string as
    one of the comma-separated pieces of the value, taken without the
    white space around it. *)
Theorem label_filter_from_environment :
  forall (toLowerCase : string -> string)
         (toNumber : string -> Js.number) (allowed excluded : string)
         (ratio dead age dry : Js.field string) (t : Torrent),
    (forall s, toLowerCase s = "" <-> s = "") ->
    (isAllowedLabel toLowerCase
       (loadConfig toLowerCase toNumber allowed excluded ratio dead age dry) t
     = true
     <-> label t <> ""
         /\ exists piece,
              In piece (splitOn "," allowed)
              /\ toLowerCase (trim piece) = toLowerCase (label t)).
Proof.
  intros toLowerCase toNumber allowed excluded ratio dead age dry t Hempty.
  rewrite isAllowedLabel_spec. unfold labelAllowed, loadConfig.
  cbn [allowedLabels]. rewrite parseCommaList_in, Hempty.
  split; intros (Hne & piece & Hin & E); (split; [exact Hne|]);
    exists piece; auto.
Qed.

(** " Radarr , sonarr" allows a torrent labelled "RADARR". *)
Lemma label_filter_from_environment_witness :
  isAllowedLabel lowerAscii
    (loadConfig lowerAscii sampleNumber " Radarr , sonarr" "" None None None None)
    (Sample.torrent 1 "RADARR" [] 100 0 1)
  = true.
Proof.
  apply (label_filter_from_environment lowerAscii sampleNumber
           " Radarr , sonarr" "" None None None None
           (Sample.torrent 1 "RADARR" [] 100 0 1) lowerAscii_empty).
  split; [discriminate|].
  exists " Radarr ". split; [left; reflexivity|reflexivity].
Defined.

Lemma eligibleOf_empty_allow_list toLowerCase url_hostname config hydrated :
  allowedLabels config = [] ->
  filter (isAllowedLabel toLowerCase config) hydrated = []
  /\ eligibleOf toLowerCase url_hostname config hydrated = Returns [].
Proof.
  intros E.
  assert (F : filter (isAllowedLabel toLowerCase config) hydrated = []).
  { induction hydrated as [|t l IH]; [reflexivity|].
    cbn. unfold isAllowedLabel at 1. rewrite E. cbn. exact IH. }
  split; [exact F|]. unfold eligibleOf. rewrite F. reflexivity.
Qed.

(** With an empty allow-list (what [ALLOWED_LABELS=""] gives, the value
    the image sets by default) no run removes anything: whatever the
    daemon answers and whatever the dry-run flag, the run calls
    [removeTorrents] never and sends no [torrent-remove] request.  When
    its fetch succeeds and the table of the first run is drawn or is not
    due, it reports that nothing passed the filters and returns, even
    when no announce URL parses. *)
Theorem run_with_empty_allow_list :
  forall (toLowerCase : string -> string)
         (url_hostname : string -> option string) (config : Config)
         (nowSeconds : Js.number) (w : World),
    allowedLabels config = [] ->
    exists evs,
      trace (snd (run toLowerCase url_hostname config nowSeconds w)) = trace w ++ evs
      /\ removeCalls evs = []
      /\ removalRequests evs = []
      /\ forall torrents w1,
           getTorrents (traced w [EvLog Info MsgAttemptingFetch])
           = (Returns torrents, w1) ->
           (isFirstRun w = true ->
            Forall named (map (hydrate nowSeconds) torrents)) ->
           fst (run toLowerCase url_hostname config nowSeconds w) = Returns tt
           /\ In (EvLog Info (MsgFiltering (List.length torrents) 0 0)) evs
           /\ In (EvLog Info MsgNoTorrents) evs.
Proof.
  intros toLowerCase url_hostname config nowSeconds w E.
  assert (U : exists evs,
             trace (snd (run toLowerCase url_hostname config nowSeconds w))
             = trace w ++ evs
             /\ removeCalls evs = [] /\ removalRequests evs = []).
  { rewrite run_by_stages.
    destruct (getTorrents (traced w [EvLog Info MsgAttemptingFetch]))
      as [[torrents|e] w1] eqn:Hg.
    - cbv zeta.
      destruct (if isFirstRun w1
                then summaryError (map (hydrate nowSeconds) torrents)
                else None) as [e|].
      + destruct (run_connected_quiet w torrents w1 Hg) as (evs & Ht & Q1 & Q2).
        exists evs. cbn [snd]. auto.
      + destruct (eligibleOf_empty_allow_list toLowerCase url_hostname config
                    (map (hydrate nowSeconds) torrents) E) as (F & He).
        rewrite He, F. cbn [flat_map List.length Nat.eqb].
        destruct (run_prefix_quiet w torrents w1 (map (hydrate nowSeconds) torrents)
                    (MsgFiltering (List.length torrents) 0 0) Hg)
          as (evs & Ht & Q1 & Q2).
        cbn [snd traced trace] in *. rewrite Ht, <- app_assoc.
        eexists. split; [reflexivity|].
        rewrite removeCalls_app, removalRequests_app, Q1, Q2. auto.
    - destruct (getTorrents_frame (traced w [EvLog Info MsgAttemptingFetch]))
        as (evs & Ht & Q1 & Q2).
      rewrite Hg in Ht. cbn [snd traced trace] in *.
      rewrite Ht, <- !app_assoc. eexists. split; [reflexivity|].
      rewrite !removeCalls_app, !removalRequests_app, Q1, Q2. auto. }
  destruct U as (evs & Ht & Q1 & Q2).
  exists evs. split; [exact Ht|]. split; [exact Q1|]. split; [exact Q2|].
  intros torrents w1 Hg Hn.
  destruct (eligibleOf_empty_allow_list toLowerCase url_hostname config
              (map (hydrate nowSeconds) torrents) E) as (F & He).
  destruct (run_past_filters toLowerCase url_hostname config nowSeconds w
              torrents w1 [] Hg Hn He) as (evs' & Ht' & Hin & _ & _ & Hnil & _).
  rewrite Ht in Ht'. apply app_inv_head in Ht'. subst evs'.
  rewrite F in Hin. cbn [List.length] in Hin.
  destruct (Hnil eq_refl) as (R & N). auto.
Qed.

(** The configuration of the image's defaults ([ALLOWED_LABELS=""]),
    against a daemon that lists a torrent over the ratio limit. *)
Lemma run_with_empty_allow_list_witness :
  exists evs,
    trace (snd (run lowerAscii simpleHostname
                    (loadConfig lowerAscii sampleNumber "" "" (Some "2.0")
                                (Some "12") (Some "120") (Some "false"))
                    7200%float
                    (Sample.world (Sample.answering [Sample.overRatio]))))
    = trace (Sample.world (Sample.answering [Sample.overRatio])) ++ evs
    /\ removeCalls evs = []
    /\ removalRequests evs = [].
Proof.
  destruct (run_with_empty_allow_list lowerAscii simpleHostname
              (loadConfig lowerAscii sampleNumber "" "" (Some "2.0")
                          (Some "12") (Some "120") (Some "false"))
              7200%float
              (Sample.world (Sample.answering [Sample.overRatio])) eq_refl)
    as (evs & Ht & Q1 & Q2 & _).
  exists evs. auto.
Defined.

(** [parseNum] reads the variable, or the fallback when the variable is
    unset or empty, and throws unless what it read is a number above
    zero.  A threshold it returns therefore behaves in the comparisons of
    the rules as on the reals: against such a [maxRatio] the ratio rule
    matches a hydrated torrent exactly when its ratio is not [-1] and is
    at least the threshold. *)
Theorem parseNum_gives_threshold :
  forall (toNumber : string -> Js.number) (value : Js.field string)
         (fallback : Js.number),
    let read :=
      match value with
      | Some v => if Js.truthyStr v then toNumber v else fallback
      | None => fallback
      end in
    match parseNum toNumber value fallback with
    | Returns n =>
        n = read
        /\ Js.isNaN n = false
        /\ Js.lt 0%float n = true
        /\ forall (config : Config) (nowSeconds : Js.number) (raw : RawTorrent),
             maxRatio config = n ->
             (checkRatioRule config (hydrate nowSeconds raw)
              = Some {| torrent := hydrate nowSeconds raw; reason := Ratio |}
              <-> Js.strictEq (uploadRatio (hydrate nowSeconds raw)) (-1)%float
                  = false
                  /\ Js.ge (uploadRatio (hydrate nowSeconds raw)) n = true)
    | Throws _ =>
        Js.isNaN read = true \/ Js.ge 0%float read = true
    end.
Proof.
  intros toNumber value fallback read. unfold parseNum. cbv zeta. fold read.
  destruct (Js.isNaN read) eqn:Hnan; cbn [orb]; [left; reflexivity|].
  destruct (PrimFloat.leb read 0) eqn:Hle; [right; exact Hle|].
  split; [reflexivity|]. split; [exact Hnan|]. split.
  - rewrite (JsFacts.not_lt_is_ge 0%float read eq_refl Hnan).
    unfold Js.ge. rewrite Hle. reflexivity.
  - intros config nowSeconds raw Hm.
    unfold checkRatioRule. rewrite Hm.
    rewrite (JsFacts.not_lt_is_ge _ _ (hydrate_ratio_not_nan nowSeconds raw) Hnan).
    set (t := hydrate nowSeconds raw).
    destruct (Js.strictEq (uploadRatio t) (-1)%float);
      destruct (Js.ge (uploadRatio t) read); cbn; intuition congruence.
Qed.

(** [MAX_RATIO] unset and the fallback 2.0 of the module; and a value
    that is no number. *)
Lemma parseNum_gives_threshold_witness :
  parseNum sampleNumber None 2%float = Returns 2%float
  /\ Js.lt 0%float 2%float = true
  /\ exists e, parseNum sampleNumber (Some "abc") 2%float = Throws e.
Proof.
  pose proof (parseNum_gives_threshold sampleNumber None 2%float) as H.
  cbv zeta in H.
  destruct (parseNum sampleNumber None 2%float) as [n|e] eqn:E.
  - destruct H as (-> & _ & H2 & _).
    split; [reflexivity|]. split; [exact H2|].
    eexists. vm_compute. reflexivity.
  - vm_compute in E. discriminate E.
Defined.

(** [loadConfig] of [config.ts] checks no threshold: a variable that is
    unset becomes [NaN], against which every comparison is false.  With
    [MAX_RATIO] unset, every torrent whose ratio is not [-1] is a
    candidate for the reason [Ratio]; with [MAX_AGE_HOURS] unset, every
    torrent is a candidate; with [DEAD_RETENTION_HOURS] unset, the dead
    rule matches no torrent. *)
Theorem unset_thresholds_match :
  forall (toLowerCase : string -> string)
         (toNumber : string -> Js.number) (allowed excluded : string)
         (ratio dead age dry : Js.field string) (t : Torrent),
    (Js.strictEq (uploadRatio t) (-1)%float = false ->
     evaluate (loadConfig toLowerCase toNumber allowed excluded None dead age dry) t
     = [{| torrent := t; reason := Ratio |}])
    /\ (exists why,
          evaluate (loadConfig toLowerCase toNumber allowed excluded ratio dead None dry) t
          = [{| torrent := t; reason := why |}])
    /\ checkDeadRule (loadConfig toLowerCase toNumber allowed excluded ratio None age dry) t
       = None.
Proof.
  intros toLowerCase toNumber allowed excluded ratio dead age dry t.
  split; [|split].
  - intros Hs. unfold evaluate, Js.orElse. cbv zeta.
    destruct (checkRatioRule_nan_threshold
                (loadConfig toLowerCase toNumber allowed excluded None dead age dry) t
                eq_refl Hs) as (-> & _).
    reflexivity.
  - unfold evaluate, Js.orElse. cbv zeta.
    destruct (checkRatioRule _ t) as [r|] eqn:R.
    { apply checkRatioRule_reason in R. subst r. eauto. }
    destruct (checkDeadRule _ t) as [d|] eqn:D.
    { apply checkDeadRule_reason in D. subst d. eauto. }
    unfold checkTtlRule, loadConfig. cbn [maxAgeHours unaryPlus].
    rewrite JsFacts.lt_nan_r. eauto.
  - unfold checkDeadRule, loadConfig. cbv zeta.
    cbn [deadRetentionHours unaryPlus].
    rewrite JsFacts.ge_nan_r. cbn [negb]. rewrite orb_true_r. reflexivity.
Qed.

(** A fresh torrent (one hour old, ratio 0) with [MAX_RATIO] unset. *)
Lemma unset_thresholds_match_witness :
  evaluate (loadConfig lowerAscii sampleNumber "radarr" "" None (Some "12") (Some "120") None)
           (Sample.torrent 1 "radarr" [] 100 0 1)
  = [{| torrent := Sample.torrent 1 "radarr" [] 100 0 1; reason := Ratio |}].
Proof.
  apply (unset_thresholds_match lowerAscii sampleNumber "radarr" "" None (Some "12")
           (Some "120") None (Sample.torrent 1 "radarr" [] 100 0 1)).
  reflexivity.
Defined.
